(** * incremental_dedup: the clustering decision engine

    A shallow embedding of the decision logic of the [incremental_dedup]
    package (batch greedy clustering, incremental cluster store, borderline
    resolution, duplicate merging and cluster diffing) together with the
    properties its specification states about it.

    Conventions of the embedding:
    - record ids, cluster ids, labels and file names are [string]s;
    - similarity scores and thresholds are Python floats, embedded as
      rationals [Q]: the code copies and compares them, which is exact;
      its one float operation (a subtraction, which rounds) is a
      parameter, and a decimal literal stands for the float that it
      denotes (the smallest float that is at least 0.9, and 0.8, for the
      two fallback thresholds, so that a float is at least the literal
      exactly when it is at least the float denoted);
    - the reply of the language model is a [str] of any characters: the
      list of its code points;
    - a dict that is only looked up is a [gmap]; a dict or list whose
      iteration order is visible is a list (of pairs); a Python [set] is a
      [gset];
    - the search backend and the language model are external services: they
      appear as [Variable]s of the sections below;
    - every [print] is rendered as the constructor of an outcome type. *)

From Stdlib Require Import Ascii String QArith Qcanon Lqa DecimalString DecimalPos.
From Stdlib Require OrderedTypeEx.
From stdpp Require Import gmap strings list fin_maps sorting.

(* ===================================================================== *)
(** * Python built-ins used by the code *)
(* ===================================================================== *)

Module Py.

(** [str.isspace] on the ASCII range: TAB..CR, FS..US and the blank. *)
Definition isspace (c : ascii) : bool :=
  let n := nat_of_ascii c in
  ((9 <=? n)%nat && (n <=? 13)%nat) || ((28 <=? n)%nat && (n <=? 32)%nat).

Fixpoint lstrip (s : string) : string :=
  match s with
  | EmptyString => EmptyString
  | String c s' => if isspace c then lstrip s' else s
  end.

Fixpoint rstrip (s : string) : string :=
  match s with
  | EmptyString => EmptyString
  | String c s' =>
      match rstrip s' with
      | EmptyString => if isspace c then EmptyString else String c EmptyString
      | r => String c r
      end
  end.

(** [s.strip()] *)
Definition strip (s : string) : string := rstrip (lstrip s).

(** Truth value of an optional string: [None] and the empty string are
    falsy. *)
Definition truthy_str (r : option string) : bool :=
  match r with
  | Some (String _ _) => true
  | _ => false
  end.

Definition digit_of (c : ascii) : option Z :=
  let n := nat_of_ascii c in
  if ((48 <=? n)%nat && (n <=? 57)%nat) then Some (Z.of_nat (n - 48)) else None.

(** Decimal digits, single underscores allowed between two digits. *)
Fixpoint parse_digits (s : string) (acc : Z) (after_digit : bool) : option Z :=
  match s with
  | EmptyString => if after_digit then Some acc else None
  | String c s' =>
      match digit_of c with
      | Some d => parse_digits s' (10 * acc + d)%Z true
      | None =>
          if Ascii.eqb c "_" && after_digit then parse_digits s' acc false
          else None
      end
  end.

(** [int(s)] on an ASCII string; [None] stands for [ValueError]. *)
Definition int (s : string) : option Z :=
  match strip s with
  | String "-" r => Z.opp <$> parse_digits r 0 false
  | String "+" r => parse_digits r 0 false
  | r => parse_digits r 0 false
  end.

(** [s.split(sep)] for a one-character separator. *)
Fixpoint split (sep : ascii) (s : string) : list string :=
  match s with
  | EmptyString => [EmptyString]
  | String c s' =>
      if Ascii.eqb c sep then EmptyString :: split sep s'
      else match split sep s' with
           | [] => [String c EmptyString]
           | w :: ws => String c w :: ws
           end
  end.

(** [str(n)] for an integer. *)
Definition str (n : Z) : string := NilZero.string_of_int (Z.to_int n).

(** Comparison of two floats, [a >= b] and [a < b]. *)
Definition ge (a b : Q) : bool := Qle_bool b a.
Definition lt (a b : Q) : bool := negb (Qle_bool b a).

End Py.

(** A [str] that may hold any character, as the list of its code points. *)
Module Str.

Definition t : Type := list N.

(** The code points of an ASCII literal. *)
Definition of_string (s : string) : t := N_of_ascii <$> list_ascii_of_string s.

(** [c.isspace()], the characters that [strip] removes: TAB..CR, FS..US,
    the blank, NEL, the no-break blank, the Ogham blank, U+2000..U+200A,
    the line and paragraph separators, the narrow no-break blank, the
    medium mathematical blank and the ideographic blank. *)
Definition isspace (c : N) : bool :=
  ((9 <=? c) && (c <=? 13) || (28 <=? c) && (c <=? 32)
   || (c =? 133) || (c =? 160) || (c =? 5760)
   || (8192 <=? c) && (c <=? 8202)
   || (c =? 8232) || (c =? 8233) || (c =? 8239) || (c =? 8287)
   || (c =? 12288))%N.

Fixpoint lstrip (s : t) : t :=
  match s with
  | [] => []
  | c :: s' => if isspace c then lstrip s' else s
  end.

Fixpoint rstrip (s : t) : t :=
  match s with
  | [] => []
  | c :: s' =>
      match rstrip s' with
      | [] => if isspace c then [] else [c]
      | r => c :: r
      end
  end.

(** [s.strip()] *)
Definition strip (s : t) : t := rstrip (lstrip s).

(** The lower-case form of one character.  The capital ASCII letters go to
    their small letters; U+0130 goes to "i" followed by U+0307 and U+212A
    to "k".  These are all the characters whose lower-case form holds an
    ASCII character other than themselves; the lower-case forms of the
    other characters beyond ASCII (among them the capital sigma, whose
    form depends on what follows it) are made of characters beyond ASCII
    and are not reproduced: such a character is left as it is, which no
    comparison with an ASCII word tells apart. *)
Definition lower_char (c : N) : list N :=
  if ((65 <=? c) && (c <=? 90))%N then [(c + 32)%N]
  else if (c =? 304)%N then [105%N; 775%N]
  else if (c =? 8490)%N then [107%N]
  else [c].

(** [s.lower()] *)
Definition lower (s : t) : t := flat_map lower_char s.

(** [s.startswith(p)] *)
Fixpoint startswith (s p : t) {struct p} : bool :=
  match p with
  | [] => true
  | a :: p' =>
      match s with
      | [] => false
      | b :: s' => (a =? b)%N && startswith s' p'
      end
  end.

(** [s == s'] *)
Definition eqb (s s' : t) : bool := bool_decide (s = s').

(** Truth value of an optional [str]: [None] and the empty string are
    falsy. *)
Definition truthy (r : option t) : bool :=
  match r with
  | Some (_ :: _) => true
  | _ => false
  end.

End Str.

(** A call returns a value or raises. *)
Inductive result (A : Type) : Type :=
| Return (a : A)
| Raise.
Arguments Return {A} a.
Arguments Raise {A}.

(* ===================================================================== *)
(** * Borderline resolution: [CosineClusterer] (clustering.py) *)
(* ===================================================================== *)

Module ThresholdDoc.
Record t := mk { safe : Q; min : Q }.
End ThresholdDoc.

(** [SimilarIDs] (vector_operations.py). [similar_id] is a dict that the
    code iterates: its items in insertion order. *)
Module SimilarIDs.
Record t := mk {
  id : string;
  embedding_key : string;
  similar_id : list (string * Q)
}.
End SimilarIDs.

(** [CosineClusterDoc] (clusters_handling.py), the similarity-confirmation
    document. *)
Module CosineClusterDoc.
Record t := mk {
  id : string;
  embedding_key : string;
  min_threshold : Q;
  similar_ids : list string
}.
End CosineClusterDoc.

Module CosineClusterer.

(** How a call of [cluster_process] ends. *)
Inductive outcome : Type :=
| Returned (cleaned_doc : CosineClusterDoc.t)
| IndexTypeError
| ItemAssignmentTypeError.

Section WithServices.

(** [raw_response.choices[0].message.content] of the chat completion that
    [_LLM_similarity_check item_id1 item_id2] issues. *)
Variable chat_content : string -> string -> option Str.t.

(** [self.threshold]. *)
Variable threshold : option (gmap string ThresholdDoc.t).

(** Lines 306-315 of [_LLM_similarity_check]: the reading of the reply.
    [Some true] is [True], [Some false] is [False], [None] is [None]. *)
Definition interpret_response (response : option Str.t) : option bool :=
  if Str.truthy response then
    let r := Str.lower (Str.strip (default [] response)) in
    if Str.eqb r (Str.of_string "true") || Str.startswith r (Str.of_string "true")
    then Some true
    else if Str.eqb r (Str.of_string "false")
            || Str.startswith r (Str.of_string "false")
    then Some false
    else None
  else None.

Definition _LLM_similarity_check (item_id1 item_id2 : string) : option bool :=
  interpret_response (chat_content item_id1 item_id2).

(** Lines 322-323, the body of the [try]:
    [self.threshold.get(embedding_key).get("safe")].  [self.threshold] is
    [None] or a dict of [ThresholdDoc]; the inner [get] is called on
    [None] or on a [ThresholdDoc], and neither has such a method: the
    reading raises AttributeError whatever the dict holds. *)
Definition read_thresholds (embedding_key : string) : result (Q * Q) :=
  match threshold with
  | None => Raise
  | Some th =>
      match th !! embedding_key with
      | None => Raise
      | Some threshold_doc => Raise
      end
  end.

(** The [try]/[except] of lines 321-328. *)
Definition thresholds_for (embedding_key : string) : Q * Q :=
  match read_thresholds embedding_key with
  | Return safe_min => safe_min
  | Raise => (0.9, 0.8)%Q
  end.

(** One iteration of the loop of [cluster_process] on the pair of local
    variables [(min, similar_ids)]. *)
Definition cluster_step (safe_threshold min_threshold : Q) (subject : string)
    (st : Q * list string) (entry : string * Q) : Q * list string :=
  let '(sim_id, score) := entry in
  if Py.ge score safe_threshold then (score, st.2 ++ [sim_id])
  else if Py.ge score min_threshold && Py.lt score safe_threshold then
    match _LLM_similarity_check subject sim_id with
    | Some true => (score, st.2 ++ [sim_id])
    | _ => st
    end
  else st.

(** Lines 318-342: the local variables [(min, similar_ids)] when the loop
    over the candidates is over. *)
Definition cluster_loop (similarity_doc : SimilarIDs.t) : Q * list string :=
  let embedding_key := SimilarIDs.embedding_key similarity_doc in
  let '(safe_threshold, min_threshold) := thresholds_for embedding_key in
  fold_left (cluster_step safe_threshold min_threshold (SimilarIDs.id similarity_doc))
            (SimilarIDs.similar_id similarity_doc) (0%Q, []).

(** Lines 349-354: the document [doc] that is built for the "similars"
    index when [similar_ids] is not empty. *)
Definition similars_doc (similarity_doc : SimilarIDs.t) (st : Q * list string) :
    CosineClusterDoc.t :=
  {| CosineClusterDoc.id := SimilarIDs.id similarity_doc;
     CosineClusterDoc.embedding_key := SimilarIDs.embedding_key similarity_doc;
     CosineClusterDoc.min_threshold := st.1;
     CosineClusterDoc.similar_ids := st.2 |}.

(** [cluster_process].  After the loop, line 355 calls
    [ElasticsearchClient.index] on the class, with the keywords [index],
    [id] and [document] that the method does not take: TypeError, when
    [similar_ids] is not empty.  Otherwise line 359 assigns to an item of
    the [SimilarIDs] model, which has no item assignment: TypeError.  No
    path reaches the [return]. *)
Definition cluster_process (similarity_doc : SimilarIDs.t) : outcome :=
  match (cluster_loop similarity_doc).2 with
  | _ :: _ => IndexTypeError
  | [] => ItemAssignmentTypeError
  end.

(** ** Specification-side notions *)

(** The blank characters, one by one. *)
Definition blanks : list N :=
  [9; 10; 11; 12; 13; 28; 29; 30; 31; 32; 133; 160; 5760;
   8192; 8193; 8194; 8195; 8196; 8197; 8198; 8199; 8200; 8201; 8202;
   8232; 8233; 8239; 8287; 12288]%N.

Definition blank (c : N) : Prop := c ∈ blanks.

(** [body] is [s] trimmed: what is left of [s] without the blanks at its
    two ends. *)
Definition trimmed (s body : Str.t) : Prop :=
  exists pre post,
    s = pre ++ body ++ post /\ Forall blank pre /\ Forall blank post /\
    (forall c, head body = Some c -> ~ blank c) /\
    (forall c, last body = Some c -> ~ blank c).

(** The character [c] is the small ASCII letter [k], or its capital. *)
Definition same_letter (k c : N) : Prop :=
  c = k \/ ((97 <= k <= 122)%N /\ (c + 32 = k)%N).

(** A reply matches a keyword when, trimmed, it is the keyword or starts
    with it, the case of the letters left aside (an exact match is the
    prefix match with nothing left). *)
Definition matches (keyword : string) (response : option Str.t) : Prop :=
  exists s body word rest,
    response = Some s /\ trimmed s body /\ body = word ++ rest /\
    Forall2 same_letter (Str.of_string keyword) word.

(** A candidate is accepted automatically at a score of at least [safe],
    and in the band from [min] up to [safe] when the oracle says true. *)
Definition accepted (safe_threshold min_threshold : Q) (subject : string)
    (entry : string * Q) : Prop :=
  (safe_threshold <= entry.2)%Q \/
  ((min_threshold <= entry.2)%Q /\ (entry.2 < safe_threshold)%Q /\
   matches "true" (chat_content subject entry.1)).

(** Scores in descending order, as a ranked similarity result has them. *)
Definition sorted_desc (l : list (string * Q)) : Prop :=
  Sorted (fun a b => (b.2 <= a.2)%Q) l.

End WithServices.

End CosineClusterer.

(* ===================================================================== *)
(** * Insertion-ordered dicts *)
(* ===================================================================== *)

(** A Python dict whose iteration order matters: its items, in insertion
    order.  Keys are compared with the boolean equality [eqb]. *)
Module Dict.

Section Ops.
Context {K V : Type} (eqb : K -> K -> bool).

(** [d.get(k)] *)
Fixpoint get (d : list (K * V)) (k : K) : option V :=
  match d with
  | [] => None
  | (k', v) :: d' => if eqb k' k then Some v else get d' k
  end.

(** [k in d] *)
Definition mem (d : list (K * V)) (k : K) : bool :=
  match get d k with Some _ => true | None => false end.

(** [d[k] = v]: in place when the key is there, at the end otherwise. *)
Fixpoint set (d : list (K * V)) (k : K) (v : V) : list (K * V) :=
  match d with
  | [] => [(k, v)]
  | (k', v') :: d' =>
      if eqb k' k then (k', v) :: d' else (k', v') :: set d' k v
  end.

(** [d.setdefault(k, dflt)] followed by an in-place change [f] of the
    value found or put there. *)
Definition update_default (d : list (K * V)) (k : K) (dflt : V) (f : V -> V) :
    list (K * V) :=
  match get d k with
  | Some v => set d k (f v)
  | None => set d k (f dflt)
  end.

End Ops.

End Dict.

(* ===================================================================== *)
(** * JSON values *)
(* ===================================================================== *)

(** What [json.load] returns.  An object is the list of its items; numbers
    are the integers and (as canonical rationals) the floats. *)
#[warnings="-register-all"]
Inductive json : Type :=
| JNull
| JBool (b : bool)
| JInt (n : Z)
| JFloat (q : Qc)
| JStr (s : string)
| JList (l : list json)
| JDict (d : list (string * json)).

Module Json.

(** Items are ordered by key the way Python orders [str]. *)
Definition key_le (a b : string * json) : bool := String.leb a.1 b.1.

Fixpoint insert_item (x : string * json) (l : list (string * json)) :
    list (string * json) :=
  match l with
  | [] => [x]
  | y :: l' => if key_le x y then x :: l else y :: insert_item x l'
  end.

(** [sorted(d.items())] on the keys. *)
Definition sort_items (l : list (string * json)) : list (string * json) :=
  foldr insert_item [] l.

(** [json.dumps(value, sort_keys=True, ensure_ascii=False)], up to the
    rendering as text: the tree that the text spells out, every object
    with its keys in sorted order.  [json.loads] of that text gives this
    tree back. *)
Fixpoint dumps_sorted (v : json) : json :=
  match v with
  | JList l => JList (map dumps_sorted l)
  | JDict d => JDict (sort_items (map (fun kv => (kv.1, dumps_sorted kv.2)) d))
  | _ => v
  end.

Definition loads (value_str : json) : json := value_str.

(** Equality test on trees (the comparison of two serialized texts). *)
Fixpoint eqb (a b : json) {struct a} : bool :=
  match a, b with
  | JNull, JNull => true
  | JBool x, JBool y => Bool.eqb x y
  | JInt x, JInt y => Z.eqb x y
  | JFloat x, JFloat y => bool_decide (x = y)
  | JStr x, JStr y => String.eqb x y
  | JList l, JList l' =>
      (fix eqb_list (l l' : list json) : bool :=
         match l, l' with
         | [], [] => true
         | x :: t, y :: t' => eqb x y && eqb_list t t'
         | _, _ => false
         end) l l'
  | JDict d, JDict d' =>
      (fix eqb_items (d d' : list (string * json)) : bool :=
         match d, d' with
         | [], [] => true
         | (k, x) :: t, (k', y) :: t' => String.eqb k k' && eqb x y && eqb_items t t'
         | _, _ => false
         end) d d'
  | _, _ => false
  end.

End Json.

(* ===================================================================== *)
(** * [VectorOperations.evaluate_similarity] (vector_operations.py) *)
(* ===================================================================== *)

Module VectorOperations.

Section WithFloats.

(** [a - b] on floats: the float nearest to the difference, where the
    difference is not a float itself. *)
Variable float_sub : Q -> Q -> Q.

(** Lines 102-106: the dict comprehension over the hits of the
    script-score query, a hit being its [elastic_id] and its [_score]. *)
Definition similarities (item_id : string) (hits : list (string * Q)) :
    list (string * Q) :=
  fold_left
    (fun d hit =>
       if negb (String.eqb hit.1 item_id)
       then Dict.set String.eqb d hit.1 (float_sub hit.2 1)
       else d)
    hits [].

End WithFloats.

Fixpoint insert_desc (x : string * Q) (l : list (string * Q)) :
    list (string * Q) :=
  match l with
  | [] => [x]
  | y :: l' => if Py.ge x.2 y.2 then x :: l else y :: insert_desc x l'
  end.

(** [sorted(items, key=lambda x: x[1], reverse=True)]: stable, descending. *)
Definition sorted_desc_by_score (items : list (string * Q)) : list (string * Q) :=
  foldr insert_desc [] items.

(** Lines 102-113: the document built from the hits. *)
Definition similar_ids_of_hits (float_sub : Q -> Q -> Q) (item_id model_name : string)
    (hits : list (string * Q)) : SimilarIDs.t :=
  {| SimilarIDs.id := item_id;
     SimilarIDs.embedding_key := model_name;
     SimilarIDs.similar_id :=
       sorted_desc_by_score (similarities float_sub item_id hits) |}.

End VectorOperations.

(* ===================================================================== *)
(** * Batch clustering: [ClusteringOperations] (clustering.py) *)
(* ===================================================================== *)

Module ClusteringOperations.

Section WithProvider.

(** [self.vector_ops.evaluate_similarity(item_id, key)] as the clustering
    code reads its result: [None], or a mapping from the item id to the
    scores of the other ids. *)
Variable evaluate_similarity :
  string -> string -> option (gmap string (gmap string Q)).

(** Lines 63-67: the score of [item_id] against the member [id], looked up
    directly and, failing that, in the cached result of the member. *)
Definition pair_score (similarity_cache : gmap string (gmap string (gmap string Q)))
    (similarity_scores : gmap string Q) (item_id id : string) : option Q :=
  match similarity_scores !! id with
  | Some score => Some score
  | None =>
      match similarity_cache !! id with
      | Some cached => default ∅ (cached !! id) !! item_id
      | None => None
      end
  end.

(** Line 69: [score is not None and score >= threshold]. *)
Definition member_matches (similarity_cache : gmap string (gmap string (gmap string Q)))
    (similarity_scores : gmap string Q) (item_id : string) (threshold : Q)
    (id : string) : bool :=
  match pair_score similarity_cache similarity_scores item_id id with
  | Some score => Py.ge score threshold
  | None => false
  end.

(** Lines 61-75: the two nested loops.  [None] is [matched = False]. *)
Fixpoint scan_clusters (similarity_cache : gmap string (gmap string (gmap string Q)))
    (similarity_scores : gmap string Q) (item_id : string) (threshold : Q)
    (clusters : list (list string)) : option (list (list string)) :=
  match clusters with
  | [] => None
  | cluster :: rest =>
      if existsb (member_matches similarity_cache similarity_scores item_id threshold)
                 cluster
      then Some ((cluster ++ [item_id]) :: rest)
      else cons cluster <$>
             scan_clusters similarity_cache similarity_scores item_id threshold rest
  end.

(** [cluster_items], on the instance state [self.similarity_cache] (the
    timing counters, which nothing reads back, are left out). *)
Definition cluster_items (similarity_cache : gmap string (gmap string (gmap string Q)))
    (item_id key : string) (threshold : Q) (clusters : list (list string)) :
    gmap string (gmap string (gmap string Q)) * list (list string) :=
  let filled :=
    match similarity_cache !! item_id with
    | Some _ => Some similarity_cache
    | None =>
        match evaluate_similarity item_id key with
        | None => None
        | Some similarity => Some (<[item_id := similarity]> similarity_cache)
        end
    end in
  match filled with
  | None => (similarity_cache, clusters)
  | Some cache =>
      let similarity_scores :=
        default ∅ (default ∅ (cache !! item_id) !! item_id) in
      match scan_clusters cache similarity_scores item_id threshold clusters with
      | Some clusters' => (cache, clusters')
      | None => (cache, clusters ++ [[item_id]])
      end
  end.

(** Lines 100-107 of [analyze_clustering]: one threshold run over the id
    list, from an empty cache and no cluster. *)
Definition run_threshold (key : string) (threshold : Q) (id_list : list string) :
    gmap string (gmap string (gmap string Q)) * list (list string) :=
  fold_left
    (fun st id => cluster_items st.1 id key threshold st.2)
    id_list (∅, []).

Definition batch_clusters (key : string) (threshold : Q) (id_list : list string) :
    list (list string) :=
  (run_threshold key threshold id_list).2.

(** ** Specification-side notions *)

(** Two ids are linked at a threshold when the score the scan would read
    for them, in one direction or the other, reaches it. *)
Definition provider_score (key a b : string) : option Q :=
  match evaluate_similarity a key with
  | Some similarity => default ∅ (similarity !! a) !! b
  | None => None
  end.

Definition linked (key : string) (threshold : Q) (a b : string) : Prop :=
  exists score, (threshold <= score)%Q /\
    (provider_score key a b = Some score \/ provider_score key b a = Some score).

(** Connected in the link graph: joined by a chain of links. *)
Definition connected (key : string) (threshold : Q) : relation string :=
  rtc (linked key threshold).

(** The cache only ever holds what the provider returned. *)
Definition cache_sound (key : string)
    (cache : gmap string (gmap string (gmap string Q))) : Prop :=
  forall id similarity,
    cache !! id = Some similarity -> evaluate_similarity id key = Some similarity.

(** Any two members of a cluster are connected in the link graph. *)
Definition clusters_connected (key : string) (threshold : Q)
    (clusters : list (list string)) : Prop :=
  forall c x y, c ∈ clusters -> x ∈ c -> y ∈ c -> connected key threshold x y.

(** Two runs over the same ids, the second at the higher threshold: same
    cache, same clustered ids, no fewer clusters in the second. *)
Definition runs_related (key : string)
    (st1 st2 : gmap string (gmap string (gmap string Q)) * list (list string)) :
    Prop :=
  st1.1 = st2.1 /\ cache_sound key st1.1 /\
  (forall x, x ∈ concat st1.2 <-> x ∈ concat st2.2) /\
  (length st1.2 <= length st2.2)%nat.

(** The monotonicity that the specification states: every cluster of the
    run at the higher threshold lies inside one cluster of the run at the
    lower threshold. *)
Definition refines_lower_run (key : string) (id_list : list string) : Prop :=
  forall t1 t2 : Q, (t1 < t2)%Q ->
    forall c2, c2 ∈ batch_clusters key t2 id_list ->
      exists c1, c1 ∈ batch_clusters key t1 id_list /\ c2 ⊆ c1.

End WithProvider.

(** [clean_clusters]: the dict comprehension over the items of the
    cluster output. *)
Definition clean_clusters (cluster_output : list (string * json)) :
    list (string * json) :=
  filter (fun kv => match kv.2 with
                    | JList members => (1 <? length members)%nat
                    | _ => false
                    end = true) cluster_output.

End ClusteringOperations.

(* ===================================================================== *)
(** * Incremental store: [IncrementalClustering] (clustering.py) *)
(* ===================================================================== *)

(** The cluster persistence document.  The code reads the members with
    [.get("cluster_ids", [])]: a document without the field is one with no
    member. *)
Module ClusterDoc.
Record t := mk {
  id : string;
  key : string;
  threshold : Q;
  cluster_ids : list string
}.
End ClusterDoc.

(** A hit of the match-all query on the clusters index.  The persisted
    collection is the list of hits of [get_all_documents(size=10000)], in
    the order of the response. *)
Module Hit.
Record t := mk { _id : string; _source : ClusterDoc.t }.
End Hit.

Module IncrementalClustering.

(** The update script of line 219: append the id when it is absent. *)
Definition append_if_absent (item_id : string) (d : ClusterDoc.t) : ClusterDoc.t :=
  if bool_decide (item_id ∈ ClusterDoc.cluster_ids d) then d
  else {| ClusterDoc.id := ClusterDoc.id d;
          ClusterDoc.key := ClusterDoc.key d;
          ClusterDoc.threshold := ClusterDoc.threshold d;
          ClusterDoc.cluster_ids := ClusterDoc.cluster_ids d ++ [item_id] |}.

(** [self.vector_ops.update(doc_id, script)] on the persisted collection,
    which is listed in the order in which the match-all query returns it. *)
Definition update (doc_id item_id : string) (store : list Hit.t) : list Hit.t :=
  map (fun h =>
         if String.eqb (Hit._id h) doc_id
         then Hit.mk (Hit._id h) (append_if_absent item_id (Hit._source h))
         else h) store.

(** [self.vector_ops.index(doc_id, body)]: create or replace. *)
Fixpoint index (doc_id : string) (body : ClusterDoc.t) (store : list Hit.t) :
    list Hit.t :=
  match store with
  | [] => [Hit.mk doc_id body]
  | h :: store' =>
      if String.eqb (Hit._id h) doc_id then Hit.mk doc_id body :: store'
      else h :: index doc_id body store'
  end.

(** What a call prints (or, for [CannotCluster], silently returns on);
    [Raised] is an exception ([ValueError] of [int], [IndexError] of
    [key.split(".")[1]]). *)
Inductive outcome : Type :=
| CannotCluster
| AlreadyClustered (cluster_id : string)
| AddedToExisting (cluster_id : string)
| Created (new_id : string) (all_ids : list string)
| NotEnough
| NoSimilar
| Raised.

(** How the loop of lines 202-213 ends. *)
Inductive scan_result : Type :=
| ScanRaised
| ScanAlready (cluster_id : string)
| ScanDone (existing_cluster_id : option string) (existing_ids : gset Z).

Fixpoint scan (item_id : string) (similar_ids : gset string) (clusters : list Hit.t)
    (existing_cluster_id : option string) (existing_ids : gset Z) : scan_result :=
  match clusters with
  | [] => ScanDone existing_cluster_id existing_ids
  | cluster :: rest =>
      let cluster_id := Hit._id cluster in
      match Py.int cluster_id with
      | None => ScanRaised
      | Some n =>
          let existing_ids := existing_ids ∪ {[n]} in
          let cluster_ids : gset string :=
            list_to_set (ClusterDoc.cluster_ids (Hit._source cluster)) in
          if bool_decide (item_id ∈ cluster_ids) then ScanAlready cluster_id
          else if bool_decide (similar_ids ∩ cluster_ids ≠ ∅)
               then scan item_id similar_ids rest (Some cluster_id) existing_ids
               else scan item_id similar_ids rest existing_cluster_id existing_ids
      end
  end.

(** [max(existing_ids)] of a non-empty set. *)
Definition max_id (existing_ids : gset Z) : Z :=
  match elements existing_ids with
  | [] => 0%Z
  | n :: ns => foldr Z.max n ns
  end.

Section WithProvider.

Variable evaluate_similarity :
  string -> string -> option (gmap string (gmap string Q)).

(** [self.thresholds]. *)
Variable thresholds : gmap string (gmap string Q).

Definition max_threshold_for (key : string) : Q :=
  match default ∅ (thresholds !! key) !! "max" with
  | Some t => t
  | None => 0.9%Q
  end.

(** Line 193: the ids that score at least the max threshold. *)
Definition candidate_set (similarity_scores : gmap string Q) (max_threshold : Q) :
    gset string :=
  dom (filter (fun kv => Py.ge kv.2 max_threshold = true) similarity_scores).

(** [add_to_cluster] on the persisted collection: what it reports and the
    collection it leaves. *)
Definition add_to_cluster (item_id key : string) (store : list Hit.t) :
    outcome * list Hit.t :=
  let max_threshold := max_threshold_for key in
  match evaluate_similarity item_id key with
  | None => (CannotCluster, store)
  | Some similarity =>
      let similarity_scores := default ∅ (similarity !! item_id) in
      let similar_ids := candidate_set similarity_scores max_threshold in
      match scan item_id similar_ids store None ∅ with
      | ScanRaised => (Raised, store)
      | ScanAlready cluster_id => (AlreadyClustered cluster_id, store)
      | ScanDone existing_cluster_id existing_ids =>
          if Py.truthy_str existing_cluster_id then
            let cluster_id := default "" existing_cluster_id in
            (AddedToExisting cluster_id, update cluster_id item_id store)
          else if bool_decide (similar_ids ≠ ∅) then
            let new_id :=
              if bool_decide (existing_ids ≠ ∅)
              then Py.str (max_id existing_ids + 1) else "1" in
            let all_ids := elements (similar_ids ∪ {[item_id]}) in
            if (1 <? length all_ids)%nat then
              match Py.split "." key !! 1%nat with
              | None => (Raised, store)
              | Some model_name =>
                  let new_cluster_doc :=
                    {| ClusterDoc.id := new_id;
                       ClusterDoc.key := model_name;
                       ClusterDoc.threshold := max_threshold;
                       ClusterDoc.cluster_ids := all_ids |} in
                  (Created new_id all_ids, index new_id new_cluster_doc store)
              end
            else (NotEnough, store)
          else (NoSimilar, store)
      end
  end.

(** ** Specification-side notions *)

(** The candidate set of an add, when the similarity result is there. *)
Definition candidates (item_id key : string) : gset string :=
  match evaluate_similarity item_id key with
  | Some similarity =>
      candidate_set (default ∅ (similarity !! item_id)) (max_threshold_for key)
  | None => ∅
  end.

End WithProvider.

(** A cluster's member set meets the candidate set. *)
Definition intersects (similar_ids : gset string) (h : Hit.t) : Prop :=
  exists x, x ∈ similar_ids /\ x ∈ ClusterDoc.cluster_ids (Hit._source h).

Definition member_of (item_id : string) (h : Hit.t) : Prop :=
  item_id ∈ ClusterDoc.cluster_ids (Hit._source h).

(** Cluster ids as the store makes them: decimal numerals. *)
Definition numeric_ids (store : list Hit.t) : Prop :=
  Forall (fun h => is_Some (Py.int (Hit._id h))) store.

(** The cluster with the item id appended to its members. *)
Definition joined (item_id : string) (h : Hit.t) : Hit.t :=
  Hit.mk (Hit._id h)
    {| ClusterDoc.id := ClusterDoc.id (Hit._source h);
       ClusterDoc.key := ClusterDoc.key (Hit._source h);
       ClusterDoc.threshold := ClusterDoc.threshold (Hit._source h);
       ClusterDoc.cluster_ids := ClusterDoc.cluster_ids (Hit._source h) ++ [item_id] |}.

Section Claims.

Variable evaluate_similarity :
  string -> string -> option (gmap string (gmap string Q)).
Variable thresholds : gmap string (gmap string Q).

(** The target that the specification states for an add: the first
    cluster, in scan order, that meets the candidate set; the item id is
    appended to it and nothing else changes. *)
Definition joins_first_intersecting (item_id key : string) (store : list Hit.t) :
    Prop :=
  (forall h, h ∈ store -> ~ member_of item_id h) ->
  (exists h, h ∈ store /\
     intersects (candidates evaluate_similarity thresholds item_id key) h) ->
  exists pre c post,
    store = pre ++ c :: post /\
    intersects (candidates evaluate_similarity thresholds item_id key) c /\
    (forall h, h ∈ pre ->
       ~ intersects (candidates evaluate_similarity thresholds item_id key) h) /\
    (add_to_cluster evaluate_similarity thresholds item_id key store).2
    = pre ++ joined item_id c :: post.

(** The report that the specification states for a record that is in a
    cluster already. *)
Definition reports_already_clustered (item_id key : string) (store : list Hit.t) :
    Prop :=
  (exists h, h ∈ store /\ member_of item_id h) ->
  exists cluster_id,
    add_to_cluster evaluate_similarity thresholds item_id key store
    = (AlreadyClustered cluster_id, store).


End Claims.

End IncrementalClustering.

(* ===================================================================== *)
(** * Merging duplicates: [CosineClusters] (clusters_handling.py) *)
(* ===================================================================== *)

Module CosineClusters.

(** What [_retrieve_similar_ids] is handed as [similar_ids]: the dict that
    its signature names, or the list that a [CosineClusterDoc] holds. *)
Inductive ids_argument : Type :=
| IdsDict (d : list (string * json))
| IdsList (l : list string).

Section WithServices.

(** [self.elastic_client.get_item(item_id)]: the [_source] dict of the
    record, or [None]. *)
Variable get_item : string -> option (list (string * json)).

(** [GemmaQuestionMerger(client, model).merging_question(list_values)]. *)
Variable merging_question : string -> list json -> json.

(** [self.merging_keys]. *)
Variable merging_keys : list string.

(** [_retrieve_similar_ids].  It iterates [similar_ids.keys()]: its
    argument is to be a dict; a list has no [keys] and the call raises
    AttributeError. *)
Definition _retrieve_similar_ids (similar_ids : ids_argument) :
    result (list (option (list (string * json)))) :=
  match similar_ids with
  | IdsDict d => Return (map (fun kv => get_item kv.1) d)
  | IdsList _ => Raise
  end.

(** Lines 84-93: a list is copied, anything else is wrapped. *)
Definition as_list (value : json) : list json :=
  match value with
  | JList l => l
  | _ => [value]
  end.

(** The value put under a key that both dicts have. *)
Definition merge_value (model key : string) (value other : json) : json :=
  if bool_decide (key ∈ merging_keys)
  then merging_question model [value; other]
  else JList (as_list value ++ as_list other).

Definition _merge_dicts (d1 d2 : list (string * json)) (model : string) :
    list (string * json) :=
  let merged :=
    fold_left
      (fun merged kv =>
         match Dict.get String.eqb d2 kv.1 with
         | Some other =>
             Dict.set String.eqb merged kv.1 (merge_value model kv.1 kv.2 other)
         | None => Dict.set String.eqb merged kv.1 kv.2
         end)
      d1 [] in
  fold_left
    (fun merged kv =>
       if Dict.mem String.eqb merged kv.1 then merged
       else Dict.set String.eqb merged kv.1 kv.2)
    d2 merged.

(** Truth value of an optional dict: [None] and [{}] are falsy. *)
Definition truthy_dict (d : option (list (string * json))) : bool :=
  match d with
  | Some (_ :: _) => true
  | _ => false
  end.

(** The [for] loop of lines 108-110, whose body returns.  A record that
    was not found is [None], which [_merge_dicts] cannot read. *)
Definition merge_loop (based_doc : list (string * json))
    (docs : list (option (list (string * json)))) (model : string) :
    result (option (list (string * json))) :=
  match docs with
  | [] => Return None
  | Some item_dict :: _ => Return (Some (_merge_dicts based_doc item_dict model))
  | None :: _ => Raise
  end.

(** [merge_duplicates].  [cluster_dict.similar_ids] is the list of a
    [CosineClusterDoc]. *)
Definition merge_duplicates (cluster_dict : CosineClusterDoc.t) (model : string) :
    result (option (list (string * json))) :=
  match _retrieve_similar_ids (IdsList (CosineClusterDoc.similar_ids cluster_dict)) with
  | Raise => Raise
  | Return docs =>
      let based_doc := get_item (CosineClusterDoc.id cluster_dict) in
      if truthy_dict based_doc
      then merge_loop (default [] based_doc) docs model
      else Return None
  end.

(** ** Specification-side notion: the fold over every confirmed duplicate
    that the code does not do. *)
Definition fold_all (based_doc : list (string * json))
    (docs : list (list (string * json))) (model : string) : list (string * json) :=
  fold_left (fun acc d => _merge_dicts acc d model) docs based_doc.

End WithServices.

End CosineClusters.

(* ===================================================================== *)
(** * Diffing snapshots: [DiffOperations] (diff_operations.py) *)
(* ===================================================================== *)

Module DiffOperations.

Section WithFiles.

(** [json.load] of the file at a path: the items of its top-level object,
    label to cluster. *)
Variable load : string -> list (string * json).

(** Lines 18-21. *)
Definition read_all (input_files : list string) :
    list (string * list (string * json)) :=
  fold_left (fun data f => Dict.set String.eqb data f (load f)) input_files [].

(** Lines 23-28. *)
Definition build_cluster_map (data : list (string * list (string * json))) :
    list (json * list (string * string)) :=
  fold_left
    (fun cluster_map fc =>
       fold_left
         (fun cluster_map kv =>
            let value_str := Json.dumps_sorted kv.2 in
            Dict.update_default Json.eqb cluster_map value_str []
              (fun locations => locations ++ [(fc.1, kv.1)]))
         fc.2 cluster_map)
    data [].

(** Lines 30-35. *)
Definition keep_unique (cluster_map : list (json * list (string * string))) :
    list (string * list (string * json)) :=
  fold_left
    (fun output entry =>
       match entry.2 with
       | [(f, key)] =>
           Dict.update_default String.eqb output f []
             (fun clusters => Dict.set String.eqb clusters key (Json.loads entry.1))
       | _ => output
       end)
    cluster_map [].

Definition compare_clusters (input_files : list string) :
    list (string * list (string * json)) :=
  keep_unique (build_cluster_map (read_all input_files)).

(** ** Specification-side notions *)

(** What the diff output holds under [key] of snapshot [f]. *)
Definition output_cluster (output : list (string * list (string * json)))
    (f key : string) : option json :=
  match Dict.get String.eqb output f with
  | Some clusters => Dict.get String.eqb clusters key
  | None => None
  end.

(** The cluster under [key] of snapshot [f] is in the diff output. *)
Definition in_output (input_files : list string) (f key : string) : Prop :=
  is_Some (output_cluster (compare_clusters input_files) f key).

(** The cluster [value] sits under [key] in snapshot [f]. *)
Definition cluster_at (input_files : list string) (f key : string) (value : json) :
    Prop :=
  f ∈ input_files /\ (key, value) ∈ load f.

End WithFiles.

(** The (snapshot, label) pairs with the serialized form of their cluster,
    in the order in which the loops of lines 23-28 visit them. *)
Definition located (data : list (string * list (string * json))) :
    list (string * string * json) :=
  flat_map (fun fc => map (fun kv => (fc.1, kv.1, Json.dumps_sorted kv.2)) fc.2)
           data.

(** The pairs at which one serialized form is found. *)
Definition locations_of (value_str : json) (es : list (string * string * json)) :
    list (string * string) :=
  (filter (fun e => Json.eqb e.2 value_str = true) es).*1.

(** Equality as the code tests it: same text under [sort_keys]. *)
Definition same_dump (v w : json) : Prop :=
  Json.dumps_sorted v = Json.dumps_sorted w.

(** Canonical equality in the words of the specification: deep equality
    that ignores the key order of objects and also the order of the
    cluster's member list. *)
Definition canonical_equal (v w : json) : Prop :=
  match v, w with
  | JList l, JList l' => map Json.dumps_sorted l ≡ₚ map Json.dumps_sorted l'
  | _, _ => Json.dumps_sorted v = Json.dumps_sorted w
  end.

(** Diff exclusivity in the words of the specification: a cluster of a
    snapshot is in the output under that snapshot if and only if no other
    snapshot holds a canonical-equal cluster. *)
Definition diff_exclusive (load : string -> list (string * json))
    (input_files : list string) : Prop :=
  forall f key value,
    cluster_at load input_files f key value ->
    (in_output load input_files f key <->
     ~ exists f' key' value',
         f' <> f /\ cluster_at load input_files f' key' value' /\
         canonical_equal value value').

End DiffOperations.

(* ===================================================================== *)
(** * The output of a threshold run: [analyze_clustering] (clustering.py) *)
(* ===================================================================== *)

Module ClusteringOutput.

(** The label of the cluster at index [i]: [f"clusters_{i+1}"]. *)
Definition label (i : nat) : string := "clusters_" +:+ Py.str (Z.of_nat i + 1).

(** Lines 115-116: the members of a cluster with their question text,
    [id_to_question] being the dict that is built from the questions. *)
Definition render (id_to_question : gmap string string) (item_id : string) : json :=
  JDict [("id", JStr item_id);
         ("question", JStr (default "N/A" (id_to_question !! item_id)))].

(** Lines 113-119: the dict comprehension over [enumerate(clusters)], which
    skips the empty clusters. *)
Definition cluster_output (id_to_question : gmap string string)
    (clusters : list (list string)) : list (string * json) :=
  fold_left
    (fun output ic =>
       match ic.2 with
       | [] => output
       | _ :: _ =>
           Dict.set String.eqb output (label ic.1)
             (JList (render id_to_question <$> ic.2))
       end)
    (imap pair clusters) [].

Section WithProvider.

Variable evaluate_similarity :
  string -> string -> option (gmap string (gmap string Q)).

(** Lines 101-129 for one threshold: the content of the clustering file
    and of the cleaned file. *)
Definition analyze_threshold (id_to_question : gmap string string)
    (key : string) (threshold : Q) (id_list : list string) :
    list (string * json) * list (string * json) :=
  let clusters :=
    ClusteringOperations.batch_clusters evaluate_similarity key threshold id_list in
  let output := cluster_output id_to_question clusters in
  (output, ClusteringOperations.clean_clusters output).

End WithProvider.

End ClusteringOutput.

(** ** Notions about a run of the batch clustering *)

Module BatchRun.

Section WithProvider.

Variable evaluate_similarity :
  string -> string -> option (gmap string (gmap string Q)).

(** The ids whose similarity result is there. *)
Definition available (key : string) (id_list : list string) : list string :=
  filter (fun id => is_Some (evaluate_similarity id key)) id_list.

(** The cache holds the provider's result for the ids processed so far,
    and nothing else. *)
Definition cache_exact (key : string) (processed : list string)
    (cache : gmap string (gmap string (gmap string Q))) : Prop :=
  forall id,
    cache !! id
    = if bool_decide (id ∈ processed) then evaluate_similarity id key else None.

(** The test of lines 63-69 for [item_id] against a member, on the cache
    in which [item_id] has its result. *)
Definition matches (cache : gmap string (gmap string (gmap string Q)))
    (item_id : string) (threshold : Q) (member : string) : bool :=
  ClusteringOperations.member_matches cache
    (default ∅ (default ∅ (cache !! item_id) !! item_id))
    item_id threshold member.

End WithProvider.

End BatchRun.

(** ** The clusters index as a whole *)

Module ClustersIndex.

(** Every member id of every persisted cluster, in the order of the
    match-all response; an id comes once for each cluster that holds it. *)
Definition members (store : list Hit.t) : list string :=
  concat ((fun h => ClusterDoc.cluster_ids (Hit._source h)) <$> store).

End ClustersIndex.

(* ===================================================================== *)
(** * Scenarios *)
(* ===================================================================== *)

(** Concrete inputs on which the properties below are exercised. *)
Module Scenario.

(** The boundary scenario: A against B at 0.95 and against C at 0.82, with
    thresholds 0.90 and 0.80 and an oracle that answers "true". *)
Definition boundary_chat (item_id1 item_id2 : string) : option Str.t :=
  Some (Str.of_string "True").

Definition boundary_threshold : option (gmap string ThresholdDoc.t) :=
  Some {[ "bge_search_vector" := ThresholdDoc.mk 0.9 0.8 ]}.

Definition boundary_doc : SimilarIDs.t :=
  SimilarIDs.mk "A" "bge_search_vector" [("B", 0.95%Q); ("C", 0.82%Q)].

(** Three records: a and b are far apart, c is close to both and closest
    to b. *)
Definition triangle_similarity (item_id key : string) :
    option (gmap string (gmap string Q)) :=
  if String.eqb item_id "a"
  then Some {[ "a" := {[ "b" := 0.5%Q; "c" := 0.85%Q ]} ]}
  else if String.eqb item_id "b"
  then Some {[ "b" := {[ "a" := 0.5%Q; "c" := 0.9%Q ]} ]}
  else if String.eqb item_id "c"
  then Some {[ "c" := {[ "a" := 0.85%Q; "b" := 0.9%Q ]} ]}
  else None.

(** Three records with one shared field; no field is merged by the
    language model. *)
Definition records (item_id : string) : option (list (string * json)) :=
  if String.eqb item_id "A" then Some [("answer", JStr "x")]
  else if String.eqb item_id "B" then Some [("answer", JStr "y")]
  else if String.eqb item_id "C" then Some [("answer", JStr "z")]
  else None.

Definition no_merger (model : string) (list_values : list json) : json := JNull.

Definition confirmed_A : CosineClusterDoc.t :=
  CosineClusterDoc.mk "A" "bge_search_vector" 0.82%Q ["B"; "C"].

(** The thresholds that [IncrementalClustering] starts with. *)
Definition default_thresholds : gmap string (gmap string Q) :=
  {[ "question.bge_search_vector" := {[ "max" := 0.89%Q; "min" := 0.70%Q ]};
     "question.e5_search_vector" := {[ "max" := 0.99%Q; "min" := 0.88%Q ]} ]}.

(** Record x is close to a and to b; nothing is known about any other
    record. *)
Definition near_similarity (item_id key : string) :
    option (gmap string (gmap string Q)) :=
  if String.eqb item_id "x"
  then Some {[ "x" := {[ "a" := 0.95%Q; "b" := 0.93%Q; "c" := 0.5%Q ]} ]}
  else None.

Definition cluster (cluster_id : string) (members : list string) : Hit.t :=
  Hit.mk cluster_id
    (ClusterDoc.mk cluster_id "bge_search_vector" 0.89%Q members).

(** Two clusters that both hold a record close to x. *)
Definition two_clusters : list Hit.t :=
  [cluster "1" ["a"; "p"]; cluster "2" ["b"; "q"]].

(** A cluster that holds no record close to x. *)
Definition far_cluster : list Hit.t := [cluster "1" ["p"; "q"]].

(** Two snapshots with the same two-member cluster, the members in the
    other order in the second (and the keys of one member in the other
    order too); a third snapshot with one cluster under two labels. *)
Definition member_a : json := JDict [("id", JStr "a"); ("question", JStr "q1")].
Definition member_b : json := JDict [("id", JStr "b"); ("question", JStr "q2")].
Definition member_b' : json := JDict [("question", JStr "q2"); ("id", JStr "b")].

Definition snapshots (f : string) : list (string * json) :=
  if String.eqb f "s1.json" then [("clusters_1", JList [member_a; member_b])]
  else if String.eqb f "s2.json" then [("clusters_1", JList [member_b'; member_a])]
  else if String.eqb f "s3.json"
  then [("clusters_1", JList [member_a; member_b]);
        ("clusters_2", JList [member_a; member_b'])]
  else [].

End Scenario.

(** Further inputs. *)
Module Cases.


(** Record y is known to the provider, and close to nothing. *)
Definition loose_similarity (item_id key : string) :
    option (gmap string (gmap string Q)) :=
  if String.eqb item_id "y"
  then Some {[ "y" := {[ "a" := 0.5%Q; "b" := 0.3%Q ]} ]}
  else None.

(** Two records that share the answer field only. *)
Definition base_record : list (string * json) :=
  [("question", JStr "q1"); ("answer", JStr "x")].

Definition other_record : list (string * json) :=
  [("answer", JList [JStr "y"; JStr "z"]); ("source", JStr "s")].



End Cases.

(* ===================================================================== *)
(** * Facts about the Python built-ins *)
(* ===================================================================== *)

Section PyFacts.

Lemma ge_spec a b : Py.ge a b = true <-> (b <= a)%Q.
Proof. unfold Py.ge. apply Qle_bool_iff. Qed.

Lemma ge_false a b : Py.ge a b = false <-> (a < b)%Q.
Proof.
  unfold Py.ge. split.
  - intros H. apply Qnot_le_lt. intros Hle.
    apply Qle_bool_iff in Hle. congruence.
  - intros H. destruct (Qle_bool b a) eqn:E; [|done].
    apply Qle_bool_iff in E. exfalso. eapply Qlt_not_le; eauto.
Qed.

Lemma lt_spec a b : Py.lt a b = true <-> (a < b)%Q.
Proof.
  unfold Py.lt. rewrite negb_true_iff. apply ge_false.
Qed.

End PyFacts.

(* ===================================================================== *)
(** * Trimming and lower-casing a reply *)
(* ===================================================================== *)

Section StrFacts.

Local Abbreviation blank := CosineClusterer.blank.
Local Abbreviation trimmed := CosineClusterer.trimmed.
Local Abbreviation same_letter := CosineClusterer.same_letter.

(** The letters of the two keywords. *)
Local Abbreviation keyword_letters := ([116; 114; 117; 101; 102; 97; 108; 115]%N).

Lemma isspace_blank c : Str.isspace c = true <-> blank c.
Proof.
  unfold Str.isspace, CosineClusterer.blank, CosineClusterer.blanks.
  rewrite !elem_of_cons, elem_of_nil, !orb_true_iff, !andb_true_iff,
    !N.leb_le, !N.eqb_eq.
  lia.
Qed.

Lemma isspace_not_blank c : Str.isspace c = false <-> ~ blank c.
Proof. rewrite <- isspace_blank. by destruct (Str.isspace c). Qed.

Lemma lstrip_blank pre x : Forall blank pre -> Str.lstrip (pre ++ x) = Str.lstrip x.
Proof.
  induction 1 as [|c pre Hc _ IH]; [done|]. simpl.
  apply isspace_blank in Hc. by rewrite Hc.
Qed.

Lemma lstrip_all_blank post : Forall blank post -> Str.lstrip post = [].
Proof.
  intros H. rewrite <- (app_nil_r post). by rewrite lstrip_blank.
Qed.

Lemma lstrip_keeps x : (forall c, head x = Some c -> ~ blank c) -> Str.lstrip x = x.
Proof.
  destruct x as [|c x]; [done|]. intros H. simpl.
  assert (Str.isspace c = false) as ->; [|done].
  apply isspace_not_blank. by apply H.
Qed.

Lemma rstrip_cons c s :
  Str.rstrip (c :: s)
  = match Str.rstrip s with
    | [] => if Str.isspace c then [] else [c]
    | r => c :: r
    end.
Proof. done. Qed.

Lemma rstrip_blank post : Forall blank post -> Str.rstrip post = [].
Proof.
  induction 1 as [|c post Hc _ IH]; [done|]. rewrite rstrip_cons, IH.
  apply isspace_blank in Hc. by rewrite Hc.
Qed.

Lemma rstrip_app_blank b post :
  Forall blank post -> Str.rstrip (b ++ post) = Str.rstrip b.
Proof.
  intros H. induction b as [|c b IH]; [by apply rstrip_blank|].
  rewrite <- app_comm_cons, !rstrip_cons. by rewrite IH.
Qed.

Lemma rstrip_keeps b : (forall c, last b = Some c -> ~ blank c) -> Str.rstrip b = b.
Proof.
  induction b as [|c b IH]; [done|]. intros H. rewrite rstrip_cons.
  destruct b as [|c' b].
  - simpl. assert (Str.isspace c = false) as ->; [|done].
    apply isspace_not_blank. by apply H.
  - rewrite IH; [done|]. intros x Hx. apply H. by rewrite last_cons, Hx.
Qed.

Lemma lstrip_split s :
  exists pre,
    s = pre ++ Str.lstrip s /\ Forall blank pre /\
    forall c, head (Str.lstrip s) = Some c -> ~ blank c.
Proof.
  induction s as [|c s (pre & Hs & Hpre & Hhead)].
  { exists []. by repeat split. }
  simpl. destruct (Str.isspace c) eqn:E.
  - exists (c :: pre). split; [simpl; congruence|].
    split; [|done]. constructor; [by apply isspace_blank | done].
  - exists []. split; [done|]. split; [constructor|].
    intros c' [= <-]. by apply isspace_not_blank.
Qed.

Lemma rstrip_split s :
  exists post,
    s = Str.rstrip s ++ post /\ Forall blank post /\
    forall c, last (Str.rstrip s) = Some c -> ~ blank c.
Proof.
  induction s as [|c s (post & Hs & Hpost & Hlast)].
  { exists []. by repeat split. }
  rewrite rstrip_cons. destruct (Str.rstrip s) as [|r rs] eqn:E.
  - simpl in Hs. destruct (Str.isspace c) eqn:Ec.
    + exists (c :: post). split; [simpl; congruence|].
      split; [|done]. constructor; [by apply isspace_blank | done].
    + exists post. split; [simpl; congruence|]. split; [done|].
      intros c' [= <-]. by apply isspace_not_blank.
  - exists post. split; [simpl in Hs |- *; congruence|]. split; [done|].
    intros x Hx. apply Hlast. exact Hx.
Qed.

(** [strip] trims. *)
Lemma strip_trimmed s : trimmed s (Str.strip s).
Proof.
  unfold Str.strip.
  destruct (lstrip_split s) as (pre & Hs & Hpre & Hhead).
  destruct (rstrip_split (Str.lstrip s)) as (post & Ht & Hpost & Hlast).
  exists pre, post. split; [congruence|]. split; [done|]. split; [done|].
  split; [|done]. intros c Hc. apply Hhead.
  rewrite Ht. by destruct (Str.rstrip (Str.lstrip s)).
Qed.

(** What is trimmed is what [strip] returns. *)
Lemma trimmed_unique s body : trimmed s body -> Str.strip s = body.
Proof.
  intros (pre & post & -> & Hpre & Hpost & Hhead & Hlast).
  unfold Str.strip. rewrite lstrip_blank by done.
  destruct body as [|c body].
  - simpl. by rewrite lstrip_all_blank.
  - rewrite lstrip_keeps.
    + by rewrite rstrip_app_blank, rstrip_keeps.
    + intros x [= <-]. by apply Hhead.
Qed.

Lemma lower_char_nonempty c : Str.lower_char c <> [].
Proof. unfold Str.lower_char. by repeat case_match. Qed.

(** A lower-case form starts with a letter of the keywords only when it
    is the form of this letter or of its capital, and it is this letter
    alone then. *)
Lemma lower_char_letter k c x tl :
  k ∈ keyword_letters ->
  Str.lower_char c = x :: tl ->
  (x = k <-> same_letter k c) /\ (x = k -> tl = []).
Proof.
  rewrite !elem_of_cons, elem_of_nil. intros Hk.
  unfold Str.lower_char, CosineClusterer.same_letter.
  destruct (N.leb_spec 65 c), (N.leb_spec c 90), (N.eqb_spec c 304),
    (N.eqb_spec c 8490); simpl; intros [= ? ?]; subst x tl; (split; [lia|]);
    try done; intros ?; exfalso; lia.
Qed.

Lemma startswith_refl kw : Str.startswith kw kw = true.
Proof. induction kw as [|k kw IH]; [done|]. simpl. by rewrite N.eqb_refl. Qed.

(** The test [r == kw or r.startswith(kw)] is the prefix test. *)
Lemma exact_or_prefix r kw :
  Str.eqb r kw || Str.startswith r kw = Str.startswith r kw.
Proof.
  unfold Str.eqb. case_bool_decide as E; [|done]. subst r.
  by rewrite startswith_refl.
Qed.

(** The lower-cased string starts with a keyword when the string starts
    with its letters, small or capital. *)
Lemma startswith_lower kw s :
  Forall (fun k => k ∈ keyword_letters) kw ->
  Str.startswith (Str.lower s) kw = true <->
  exists word rest, s = word ++ rest /\ Forall2 same_letter kw word.
Proof.
  intros Hkw. revert s. induction Hkw as [|k kw Hk _ IH]; intros s.
  { simpl. split; [|done]. intros _. exists [], s. by split. }
  destruct s as [|c s].
  { simpl. split; [done|]. intros (word & rest & Hs & Hw).
    symmetry in Hs. apply app_eq_nil in Hs as [-> _]. inversion Hw. }
  unfold Str.lower. cbn [flat_map]. fold (Str.lower s).
  destruct (Str.lower_char c) as [|x tl] eqn:E.
  { by destruct (lower_char_nonempty c). }
  destruct (lower_char_letter k c x tl Hk E) as [Hx Htl].
  rewrite <- app_comm_cons. cbn [Str.startswith].
  rewrite andb_true_iff, N.eqb_eq. split.
  - intros [<- Hrest]. rewrite (Htl eq_refl) in Hrest. simpl in Hrest.
    apply IH in Hrest as (word & rest & -> & Hw).
    exists (c :: word), rest. split; [done|]. constructor; [by apply Hx | done].
  - intros (word & rest & Hs & Hw).
    destruct word as [|c' word]; [inversion Hw|].
    apply Forall2_cons in Hw as [Hc Hw]. injection Hs as <- ->.
    apply Hx in Hc as <-. split; [done|]. rewrite (Htl eq_refl). simpl.
    apply IH. by exists word, rest.
Qed.

Lemma letters_of_true :
  Forall (fun k => k ∈ keyword_letters) (Str.of_string "true").
Proof. apply (bool_decide_unpack _). vm_compute. exact I. Qed.


End StrFacts.

(* ===================================================================== *)
(** * Borderline resolution: the oracle's reply and the recorded minimum *)
(* ===================================================================== *)

Section CosineClustererFacts.

Variable chat_content : string -> string -> option Str.t.
Variable threshold : option (gmap string ThresholdDoc.t).

Local Abbreviation interpret_response := CosineClusterer.interpret_response.
Local Abbreviation matches := CosineClusterer.matches.
Local Abbreviation accepted := (CosineClusterer.accepted chat_content).
Local Abbreviation cluster_step := (CosineClusterer.cluster_step chat_content).
Local Abbreviation cluster_loop := (CosineClusterer.cluster_loop chat_content threshold).
Local Abbreviation cluster_process :=
  (CosineClusterer.cluster_process chat_content threshold).
Local Abbreviation thresholds_for := (CosineClusterer.thresholds_for threshold).
Local Abbreviation keyword_letters := ([116; 114; 117; 101; 102; 97; 108; 115]%N).

(** The reading of a reply against one keyword. *)
Lemma keyword_test (keyword : string) (s : Str.t) :
  Forall (fun k => k ∈ keyword_letters) (Str.of_string keyword) ->
  Str.eqb (Str.lower (Str.strip s)) (Str.of_string keyword)
  || Str.startswith (Str.lower (Str.strip s)) (Str.of_string keyword) = true
  <-> matches keyword (Some s).
Proof.
  intros Hkw. rewrite exact_or_prefix, startswith_lower by done. split.
  - intros (word & rest & Hs & Hw). exists s, (Str.strip s), word, rest.
    split; [done|]. split; [apply strip_trimmed | done].
  - intros (s' & body & word & rest & [= <-] & Htrim & -> & Hw).
    apply trimmed_unique in Htrim. by exists word, rest.
Qed.

Lemma matches_truthy keyword response :
  keyword <> "" -> matches keyword response -> Str.truthy response = true.
Proof.
  intros Hkw (s & body & word & rest & -> & Htrim & -> & Hw).
  apply trimmed_unique in Htrim. destruct s as [|c s]; [|done].
  exfalso. destruct word as [|c word]; [|done]. inversion Hw as [Hnil|].
  destruct keyword; [done | discriminate].
Qed.

Lemma interpret_true response :
  interpret_response response = Some true <-> matches "true" response.
Proof.
  unfold CosineClusterer.interpret_response. split.
  - destruct (Str.truthy response) eqn:Ht; [|done].
    destruct response as [s|]; [|done]. cbn [from_option id].
    destruct (Str.eqb _ (Str.of_string "true") || _) eqn:E.
    + intros _. by apply (keyword_test "true" s letters_of_true).
    + by destruct (Str.eqb _ (Str.of_string "false") || _).
  - intros Hm. rewrite (matches_truthy "true") by done.
    pose proof Hm as (s & body & word & rest & -> & _). cbn [from_option id].
    apply (keyword_test "true" s letters_of_true) in Hm. by rewrite Hm.
Qed.




(** One step of the loop appends an accepted candidate and records its
    score; it leaves the state alone otherwise. *)
Lemma cluster_step_accepted safe_t min_t subject st entry :
  accepted safe_t min_t subject entry ->
  cluster_step safe_t min_t subject st entry = (entry.2, st.2 ++ [entry.1]).
Proof.
  destruct entry as [sim_id score]. unfold CosineClusterer.cluster_step,
    CosineClusterer.accepted, CosineClusterer._LLM_similarity_check. simpl.
  intros [Hs | (Hm & Hlt & Ho)].
  - apply ge_spec in Hs. by rewrite Hs.
  - apply ge_false in Hlt as Hge. rewrite Hge.
    apply ge_spec in Hm. apply lt_spec in Hlt. rewrite Hm, Hlt. simpl.
    apply interpret_true in Ho. by rewrite Ho.
Qed.

Lemma cluster_step_rejected safe_t min_t subject st entry :
  ~ accepted safe_t min_t subject entry ->
  cluster_step safe_t min_t subject st entry = st.
Proof.
  destruct entry as [sim_id score]. unfold CosineClusterer.cluster_step,
    CosineClusterer.accepted, CosineClusterer._LLM_similarity_check. simpl.
  intros Hn.
  destruct (Py.ge score safe_t) eqn:Hs.
  { exfalso. apply Hn. left. by apply ge_spec. }
  destruct (Py.ge score min_t) eqn:Hm; simpl; [|done].
  destruct (Py.lt score safe_t) eqn:Hlt; [|done].
  destruct (interpret_response _) as [[]|] eqn:Ho; [|done..].
  exfalso. apply Hn. right. split; [by apply ge_spec|].
  split; [by apply lt_spec | by apply interpret_true].
Qed.

Lemma accepted_dec safe_t min_t subject entry :
  accepted safe_t min_t subject entry \/ ~ accepted safe_t min_t subject entry.
Proof.
  unfold CosineClusterer.accepted.
  destruct (Py.ge entry.2 safe_t) eqn:Hs.
  { left. left. by apply ge_spec. }
  apply ge_false in Hs.
  destruct (interpret_response (chat_content subject entry.1)) as [[]|] eqn:Ho.
  - apply interpret_true in Ho.
    destruct (Py.ge entry.2 min_t) eqn:Hm.
    + left. right. split; [by apply ge_spec | done].
    + right. apply ge_false in Hm. intros [H | (H & _)]; lra.
  - right. intros [H | (_ & _ & H)]; [lra|].
    apply interpret_true in H. congruence.
  - right. intros [H | (_ & _ & H)]; [lra|].
    apply interpret_true in H. congruence.
Qed.


Lemma fold_min_score safe_t min_t subject l :
  StronglySorted (fun a b : string * Q => (b.2 <= a.2)%Q) l ->
  forall st,
    let r := fold_left (cluster_step safe_t min_t subject) l st in
    ((forall e, e ∈ l -> ~ accepted safe_t min_t subject e) -> r.1 = st.1) /\
    ((exists e, e ∈ l /\ accepted safe_t min_t subject e) ->
      (exists e, e ∈ l /\ accepted safe_t min_t subject e /\ r.1 = e.2) /\
      (forall e, e ∈ l -> accepted safe_t min_t subject e -> (r.1 <= e.2)%Q)).
Proof.
  induction 1 as [|x l Hl IH Hx]; intros st; simpl.
  - split; [done|]. intros (e & He & _). by apply elem_of_nil in He.
  - set (st1 := cluster_step safe_t min_t subject st x).
    destruct (IH st1) as [IHnone IHsome]. clear IH.
    assert ((exists e, e ∈ l /\ accepted safe_t min_t subject e) \/
            (forall e, e ∈ l -> ~ accepted safe_t min_t subject e)) as [Hex | Hno].
    { clear -l. induction l as [|y l IHl].
      - right. intros e He. by apply elem_of_nil in He.
      - destruct (accepted_dec safe_t min_t subject y) as [Hy | Hy].
        + left. exists y. split; [left | done].
        + destruct IHl as [(e & He & Ha) | Hn].
          * left. exists e. split; [by right | done].
          * right. intros e He. apply elem_of_cons in He as [-> | He]; [done | by apply Hn]. }
    + destruct (IHsome Hex) as [(e & He & Ha & Hr) Hmin]. split.
      * intros Hnone. destruct Hex as (e' & He' & Ha').
        exfalso. apply (Hnone e'); [by right | done].
      * intros _. split; [exists e; split; [by right | done]|].
        intros e' He' Ha'. apply elem_of_cons in He' as [-> | He']; [|by apply Hmin].
        rewrite Hr. rewrite Forall_forall in Hx. by apply Hx.
    + rewrite (IHnone Hno). split.
      * intros Hnone. unfold st1. rewrite cluster_step_rejected; [done|].
        apply Hnone. left.
      * intros (e & He & Ha).
        apply elem_of_cons in He as [-> | He]; [|by destruct (Hno e He)].
        unfold st1. rewrite cluster_step_accepted by done. simpl. split.
        -- exists x. split; [left | done].
        -- intros e' He' Ha'.
           apply elem_of_cons in He' as [-> | He']; [lra | by destruct (Hno e' He')].
Qed.


Lemma cluster_loop_fold doc :
  cluster_loop doc
  = fold_left (cluster_step (thresholds_for (SimilarIDs.embedding_key doc)).1
                            (thresholds_for (SimilarIDs.embedding_key doc)).2
                            (SimilarIDs.id doc))
              (SimilarIDs.similar_id doc) (0%Q, []).
Proof.
  unfold CosineClusterer.cluster_loop. by destruct (thresholds_for _).
Qed.

(** [cluster_process] never reaches its [return]. *)
Lemma cluster_process_never_returns doc cleaned_doc :
  cluster_process doc <> CosineClusterer.Returned cleaned_doc.
Proof.
  unfold CosineClusterer.cluster_process. by destruct (cluster_loop doc).2.
Qed.


Lemma score_order_transitive :
  Transitive (fun a b : string * Q => (b.2 <= a.2)%Q).
Proof. intros a b c Hab Hbc. lra. Qed.

(** When the candidate scores come in descending order and at least one
    candidate is accepted, the [min] that the loop leaves is the score of
    an accepted candidate and no accepted candidate scores less. *)
Lemma loop_min_is_minimum_accepted (doc : SimilarIDs.t) :
  CosineClusterer.sorted_desc (SimilarIDs.similar_id doc) ->
  (exists e, e ∈ SimilarIDs.similar_id doc /\
     accepted (thresholds_for (SimilarIDs.embedding_key doc)).1
              (thresholds_for (SimilarIDs.embedding_key doc)).2
              (SimilarIDs.id doc) e) ->
  (exists e, e ∈ SimilarIDs.similar_id doc /\
     accepted (thresholds_for (SimilarIDs.embedding_key doc)).1
              (thresholds_for (SimilarIDs.embedding_key doc)).2
              (SimilarIDs.id doc) e /\
     (cluster_loop doc).1 = e.2) /\
  (forall e, e ∈ SimilarIDs.similar_id doc ->
     accepted (thresholds_for (SimilarIDs.embedding_key doc)).1
              (thresholds_for (SimilarIDs.embedding_key doc)).2
              (SimilarIDs.id doc) e ->
     ((cluster_loop doc).1 <= e.2)%Q).
Proof.
  intros Hsorted Hex. rewrite cluster_loop_fold.
  apply Sorted_StronglySorted in Hsorted; [|apply score_order_transitive].
  by apply (fold_min_score _ _ _ _ Hsorted (0%Q, [])).
Qed.

End CosineClustererFacts.

Example replies_with_blanks_and_capitals :
  CosineClusterer.interpret_response (Some (160 :: Str.of_string " TRUE." ++ [12288]))%N
    = Some true /\
  CosineClusterer.interpret_response (Some (Str.of_string "False, they differ"))
    = Some false /\
  CosineClusterer.interpret_response (Some (Str.of_string "yes")) = None /\
  CosineClusterer.interpret_response (Some (Str.of_string "  ")) = None.
Proof. vm_compute. done. Qed.

Lemma boundary_sorted :
  CosineClusterer.sorted_desc (SimilarIDs.similar_id Scenario.boundary_doc).
Proof.
  repeat constructor. vm_compute. discriminate.
Qed.

(** C3.  The boundary run: A against B at 0.95 and against C at 0.82, the
    oracle answering "True".  The loop accepts both candidates and leaves
    0.82 as the minimum, and the document built for the index records it;
    the run then ends in the TypeError of the index call, and no document
    is produced. *)
Theorem boundary_run_raises_before_its_document :
  CosineClusterer.cluster_loop Scenario.boundary_chat Scenario.boundary_threshold
    Scenario.boundary_doc
  = (0.82%Q, ["B"; "C"]) /\
  CosineClusterer.similars_doc Scenario.boundary_doc
    (CosineClusterer.cluster_loop Scenario.boundary_chat Scenario.boundary_threshold
       Scenario.boundary_doc)
  = CosineClusterDoc.mk "A" "bge_search_vector" 0.82%Q ["B"; "C"] /\
  CosineClusterer.cluster_process Scenario.boundary_chat Scenario.boundary_threshold
    Scenario.boundary_doc
  = CosineClusterer.IndexTypeError.
Proof. vm_compute. done. Qed.

Example run_without_candidate_raises_too :
  CosineClusterer.cluster_process Scenario.boundary_chat Scenario.boundary_threshold
    (SimilarIDs.mk "A" "bge_search_vector" [("B", 0.5%Q)])
  = CosineClusterer.ItemAssignmentTypeError.
Proof. vm_compute. done. Qed.

(* ===================================================================== *)
(** * [int(str(n))] gives [n] back *)
(* ===================================================================== *)

Section IntStrFacts.

Local Abbreviation digits := NilEmpty.string_of_uint.

Lemma parse_digits_cons c k s acc after_digit :
  Py.digit_of c = Some k ->
  Py.parse_digits (String c s) acc after_digit
  = Py.parse_digits s (10 * acc + k)%Z true.
Proof. intros H. simpl. by rewrite H. Qed.

Lemma parse_digits_pos d p :
  Py.parse_digits (digits d) (Z.pos p) true = Some (Z.pos (Pos.of_uint_acc d p)).
Proof.
  revert p. induction d as [|d IH|d IH|d IH|d IH|d IH|d IH|d IH|d IH|d IH|d IH];
    intros p; [done|..];
    cbn [NilEmpty.string_of_uint];
    (erewrite parse_digits_cons by reflexivity);
    simpl Pos.of_uint_acc; rewrite <- IH; f_equal; try (simpl; lia).
Qed.

Lemma parse_digits_zero d (after_digit : bool) :
  d <> Decimal.Nil \/ after_digit = true ->
  Py.parse_digits (digits d) 0 after_digit = Some (Z.of_N (Pos.of_uint d)).
Proof.
  revert after_digit.
  induction d as [|d IH|d IH|d IH|d IH|d IH|d IH|d IH|d IH|d IH|d IH];
    intros after_digit Hd.
  - by destruct Hd as [? | ->].
  - cbn [NilEmpty.string_of_uint].
    erewrite parse_digits_cons by reflexivity. apply IH. by right.
  - cbn [NilEmpty.string_of_uint].
    erewrite parse_digits_cons by reflexivity. apply (parse_digits_pos d 1).
  - cbn [NilEmpty.string_of_uint].
    erewrite parse_digits_cons by reflexivity. apply (parse_digits_pos d 2).
  - cbn [NilEmpty.string_of_uint].
    erewrite parse_digits_cons by reflexivity. apply (parse_digits_pos d 3).
  - cbn [NilEmpty.string_of_uint].
    erewrite parse_digits_cons by reflexivity. apply (parse_digits_pos d 4).
  - cbn [NilEmpty.string_of_uint].
    erewrite parse_digits_cons by reflexivity. apply (parse_digits_pos d 5).
  - cbn [NilEmpty.string_of_uint].
    erewrite parse_digits_cons by reflexivity. apply (parse_digits_pos d 6).
  - cbn [NilEmpty.string_of_uint].
    erewrite parse_digits_cons by reflexivity. apply (parse_digits_pos d 7).
  - cbn [NilEmpty.string_of_uint].
    erewrite parse_digits_cons by reflexivity. apply (parse_digits_pos d 8).
  - cbn [NilEmpty.string_of_uint].
    erewrite parse_digits_cons by reflexivity. apply (parse_digits_pos d 9).
Qed.

Lemma rstrip_digits d : Py.rstrip (digits d) = digits d.
Proof.
  induction d as [|d IH|d IH|d IH|d IH|d IH|d IH|d IH|d IH|d IH|d IH];
    [done|..]; simpl; rewrite IH; by destruct (digits d).
Qed.

Lemma strip_digits d : Py.strip (digits d) = digits d.
Proof.
  unfold Py.strip.
  assert (Py.lstrip (digits d) = digits d) as ->; [|apply rstrip_digits].
  by destruct d.
Qed.

Lemma int_digits d :
  d <> Decimal.Nil -> Py.int (digits d) = Some (Z.of_N (Pos.of_uint d)).
Proof.
  intros Hd. unfold Py.int. rewrite strip_digits.
  rewrite <- (parse_digits_zero d false) by by left.
  by destruct d.
Qed.

Lemma int_minus_digits d :
  d <> Decimal.Nil ->
  Py.int (String "-" (digits d)) = Some (- Z.of_N (Pos.of_uint d))%Z.
Proof.
  intros Hd. unfold Py.int.
  assert (Py.strip (String "-" (digits d)) = String "-" (digits d)) as ->.
  { unfold Py.strip. change (Py.lstrip (String "-" (digits d)))
      with (String "-" (digits d)).
    simpl. rewrite rstrip_digits. by destruct (digits d). }
  rewrite parse_digits_zero by by left. done.
Qed.

(** The decimal numeral that [str] prints reads back as the number. *)
Lemma int_str n : Py.int (Py.str n) = Some n.
Proof.
  destruct n as [|p|p]; [done|..]; unfold Py.str; simpl.
  - pose proof (Unsigned.to_uint_nonnil p) as Hp.
    assert (NilZero.string_of_uint (Pos.to_uint p) = digits (Pos.to_uint p)) as ->
      by by destruct (Pos.to_uint p).
    rewrite int_digits by done. by rewrite Unsigned.of_to.
  - pose proof (Unsigned.to_uint_nonnil p) as Hp.
    assert (NilZero.string_of_uint (Pos.to_uint p) = digits (Pos.to_uint p)) as ->
      by by destruct (Pos.to_uint p).
    rewrite int_minus_digits by done. by rewrite Unsigned.of_to.
Qed.

(** A cluster id that reads as a number is not the empty string. *)
Lemma int_nonempty s n : Py.int s = Some n -> Py.truthy_str (Some s) = true.
Proof. by destruct s. Qed.

End IntStrFacts.

(* ===================================================================== *)
(** * What [evaluate_similarity] hands over *)
(* ===================================================================== *)

Section VectorFacts.

Variable float_sub : Q -> Q -> Q.

Local Abbreviation similarities := (VectorOperations.similarities float_sub).
Local Abbreviation insert_desc := VectorOperations.insert_desc.
Local Abbreviation sorted_desc_by_score := VectorOperations.sorted_desc_by_score.

Lemma string_eqb_spec (a b : string) : String.eqb a b = true <-> a = b.
Proof. apply String.eqb_eq. Qed.

Lemma dict_set_keys_incl (d : list (string * Q)) k v x :
  x ∈ (Dict.set String.eqb d k v).*1 -> x ∈ d.*1 \/ x = k.
Proof.
  induction d as [|[k' v'] d IH]; simpl.
  - intros H. apply list_elem_of_singleton in H. by right.
  - destruct (String.eqb k' k) eqn:E; simpl.
    + intros H. by left.
    + intros H. apply elem_of_cons in H as [-> | H]; [left; left|].
      destruct (IH H) as [? | ?]; [left; by right | by right].
Qed.

(** The queried record is not among its own candidates. *)
Lemma similarities_without_self item_id hits :
  item_id ∉ (similarities item_id hits).*1.
Proof.
  unfold VectorOperations.similarities.
  assert (forall d : list (string * Q), item_id ∉ d.*1 ->
            item_id ∉ (fold_left
                         (fun d hit =>
                            if negb (String.eqb hit.1 item_id)
                            then Dict.set String.eqb d hit.1 (float_sub hit.2 1)
                            else d) hits d).*1) as Hgen.
  { induction hits as [|hit hits IH]; intros d Hd; simpl; [done|].
    apply IH. destruct (String.eqb hit.1 item_id) eqn:E; simpl; [done|].
    intros H. apply dict_set_keys_incl in H as [H | H]; [done|].
    apply String.eqb_neq in E. congruence. }
  apply Hgen. intros H. by apply elem_of_nil in H.
Qed.

Lemma insert_desc_perm x l : insert_desc x l ≡ₚ x :: l.
Proof.
  induction l as [|y l IH]; simpl; [done|].
  destruct (Py.ge x.2 y.2); [done|]. rewrite IH. apply perm_swap.
Qed.

Lemma sorted_desc_by_score_perm l : sorted_desc_by_score l ≡ₚ l.
Proof.
  induction l as [|x l IH]; [done|].
  change (sorted_desc_by_score (x :: l))
    with (insert_desc x (sorted_desc_by_score l)).
  by rewrite insert_desc_perm, IH.
Qed.

Lemma insert_desc_sorted x l :
  StronglySorted (fun a b : string * Q => (b.2 <= a.2)%Q) l ->
  StronglySorted (fun a b : string * Q => (b.2 <= a.2)%Q) (insert_desc x l).
Proof.
  induction 1 as [|y l Hl IH Hy]; simpl; [repeat constructor|].
  destruct (Py.ge x.2 y.2) eqn:E.
  - apply ge_spec in E. constructor; [by constructor|]. constructor; [done|].
    rewrite Forall_forall in Hy |- *. intros z Hz. specialize (Hy z Hz). lra.
  - apply ge_false in E. constructor; [done|].
    rewrite Forall_forall in Hy |- *. intros z Hz.
    rewrite insert_desc_perm in Hz.
    apply elem_of_cons in Hz as [-> | Hz]; [lra | by apply Hy].
Qed.

(** The candidates come in descending order of score. *)
Lemma sorted_desc_by_score_sorted l :
  CosineClusterer.sorted_desc (sorted_desc_by_score l).
Proof.
  apply StronglySorted_Sorted.
  induction l as [|x l IH]; [constructor|].
  change (sorted_desc_by_score (x :: l))
    with (insert_desc x (sorted_desc_by_score l)).
  by apply insert_desc_sorted.
Qed.

(** The document of [evaluate_similarity]: ranked, and without the
    queried record. *)
Lemma similar_ids_of_hits_ranked item_id model_name hits :
  CosineClusterer.sorted_desc
    (SimilarIDs.similar_id
       (VectorOperations.similar_ids_of_hits float_sub item_id model_name hits)) /\
  item_id ∉ (SimilarIDs.similar_id
               (VectorOperations.similar_ids_of_hits float_sub item_id model_name hits)).*1.
Proof.
  split; [apply sorted_desc_by_score_sorted|]. simpl.
  rewrite sorted_desc_by_score_perm. apply similarities_without_self.
Qed.

End VectorFacts.

(* ===================================================================== *)
(** * Batch clustering: one step, and the cleaned view *)
(* ===================================================================== *)

Section CleanFacts.

Local Abbreviation clean_clusters := ClusteringOperations.clean_clusters.

(** C8. The cleaned view holds exactly the entries of the cluster output
    whose member list has more than one member, each with its member list
    as it was, and in the order of the output. *)
Theorem clean_clusters_keeps_multi_member_entries
    (cluster_output : list (string * json)) :
  (forall key value,
     (key, value) ∈ clean_clusters cluster_output <->
     (key, value) ∈ cluster_output /\
     exists members, value = JList members /\ (1 < length members)%nat) /\
  clean_clusters cluster_output `sublist_of` cluster_output.
Proof.
  split; [|apply sublist_filter].
  intros key value. unfold ClusteringOperations.clean_clusters.
  rewrite list_elem_of_filter. simpl. split.
  - intros [Hlen Hin]. split; [done|].
    destruct value as [| | | | |members|]; try done.
    exists members. split; [done|]. by apply Nat.ltb_lt.
  - intros [Hin (members & -> & Hlen)]. split; [|done].
    by apply Nat.ltb_lt.
Qed.

End CleanFacts.

Section ClusterItemsFacts.

Variable evaluate_similarity :
  string -> string -> option (gmap string (gmap string Q)).

Local Abbreviation scan_clusters := ClusteringOperations.scan_clusters.
Local Abbreviation member_matches := ClusteringOperations.member_matches.
Local Abbreviation cluster_items :=
  (ClusteringOperations.cluster_items evaluate_similarity).

(** A successful scan appends the item to the first cluster that has a
    matching member and touches nothing else. *)
Lemma scan_clusters_Some cache scores item_id threshold clusters clusters' :
  scan_clusters cache scores item_id threshold clusters = Some clusters' ->
  exists pre c post,
    clusters = pre ++ c :: post /\
    clusters' = pre ++ (c ++ [item_id]) :: post /\
    existsb (member_matches cache scores item_id threshold) c = true /\
    Forall (fun c' => existsb (member_matches cache scores item_id threshold) c' = false)
           pre.
Proof.
  revert clusters'. induction clusters as [|c rest IH]; intros clusters'; simpl; [done|].
  destruct (existsb _ c) eqn:Hc.
  - intros [= <-]. by exists [], c, rest.
  - destruct (scan_clusters _ _ _ _ rest) as [rest'|]; [|done].
    intros [= <-]. destruct (IH rest' eq_refl) as (pre & c0 & post & -> & -> & Hm & Hpre).
    exists (c :: pre), c0, post. split; [done|]. split; [done|].
    split; [done | by constructor].
Qed.

Lemma scan_clusters_None cache scores item_id threshold clusters :
  scan_clusters cache scores item_id threshold clusters = None ->
  Forall (fun c => existsb (member_matches cache scores item_id threshold) c = false)
         clusters.
Proof.
  induction clusters as [|c rest IH]; simpl; [by constructor|].
  destruct (existsb _ c) eqn:Hc; [done|].
  destruct (scan_clusters _ _ _ _ rest); [done|].
  intros _. constructor; [done | by apply IH].
Qed.

(** The three shapes that one step can give to the cluster list. *)
Lemma cluster_items_shape cache item_id key threshold clusters :
  let out := (cluster_items cache item_id key threshold clusters).2 in
  (out = clusters /\ cache !! item_id = None /\
   evaluate_similarity item_id key = None) \/
  (exists pre c post,
     clusters = pre ++ c :: post /\ out = pre ++ (c ++ [item_id]) :: post) \/
  out = clusters ++ [[item_id]].
Proof.
  unfold ClusteringOperations.cluster_items.
  destruct (cache !! item_id) as [sim|] eqn:Hc.
  - destruct (scan_clusters _ _ _ _ clusters) as [cl'|] eqn:Hs; simpl.
    + right; left. apply scan_clusters_Some in Hs as (pre & c & post & ? & ? & _).
      by exists pre, c, post.
    + by right; right.
  - destruct (evaluate_similarity item_id key) as [sim|] eqn:He.
    + destruct (scan_clusters _ _ _ _ clusters) as [cl'|] eqn:Hs; simpl.
      * right; left. apply scan_clusters_Some in Hs as (pre & c & post & ? & ? & _).
        by exists pre, c, post.
      * by right; right.
    + by left.
Qed.

(** C9. One step of batch clustering leaves the cluster list as it is
    (only when the similarity cannot be computed), or appends the item id
    at the end of exactly one existing cluster, or appends the new
    singleton cluster at the end; every id of the input is found in the
    output at the position it had. *)
Theorem cluster_items_preserves_members
    (cache : gmap string (gmap string (gmap string Q)))
    (item_id key : string) (threshold : Q) (clusters : list (list string)) :
  let out := (cluster_items cache item_id key threshold clusters).2 in
  ((out = clusters /\ cache !! item_id = None /\
    evaluate_similarity item_id key = None) \/
   (exists pre c post,
      clusters = pre ++ c :: post /\ out = pre ++ (c ++ [item_id]) :: post) \/
   out = clusters ++ [[item_id]]) /\
  (forall i j c x,
     clusters !! i = Some c -> c !! j = Some x ->
     exists c', out !! i = Some c' /\ c' !! j = Some x).
Proof.
  intros out. pose proof (cluster_items_shape cache item_id key threshold clusters) as H.
  fold out in H. split; [exact H|].
  intros i j c x Hi Hj.
  destruct H as [(-> & _) | [(pre & c0 & post & Hcl & ->) | ->]].
  - by exists c.
  - subst clusters.
    destruct (decide (i = length pre)) as [-> | Hne].
    + rewrite list_lookup_middle in Hi by done. injection Hi as <-.
      exists (c0 ++ [item_id]). split; [by rewrite list_lookup_middle|].
      by apply lookup_app_l_Some.
    + exists c. split; [|done].
      destruct (decide (i < length pre)%nat).
      * rewrite lookup_app_l in Hi |- * by done. done.
      * rewrite lookup_app_r in Hi |- * by lia.
        destruct (i - length pre)%nat as [|k] eqn:E; [lia | done].
  - exists c. split; [by apply lookup_app_l_Some | done].
Qed.

End ClusterItemsFacts.

(* ===================================================================== *)
(** * Batch clustering across thresholds *)
(* ===================================================================== *)

Example triangle_low :
  ClusteringOperations.batch_clusters Scenario.triangle_similarity "question.bge"
    0.8%Q ["a"; "b"; "c"] = [["a"; "c"]; ["b"]].
Proof. vm_compute. reflexivity. Qed.

Example triangle_high :
  ClusteringOperations.batch_clusters Scenario.triangle_similarity "question.bge"
    0.88%Q ["a"; "b"; "c"] = [["a"]; ["b"; "c"]].
Proof. vm_compute. reflexivity. Qed.

(** The greedy scan is order dependent: at 0.88 record c joins b, at 0.80
    it has already joined a, so the cluster of b and c at the higher
    threshold lies in no cluster of the lower one. *)
Lemma greedy_runs_do_not_refine :
  ~ ClusteringOperations.refines_lower_run Scenario.triangle_similarity
      "question.bge" ["a"; "b"; "c"].
Proof.
  intros H.
  destruct (H 0.8%Q 0.88%Q) with (c2 := ["b"; "c"]) as (c1 & Hc1 & Hsub).
  - vm_compute. reflexivity.
  - rewrite triangle_high. right. left.
  - rewrite triangle_low in Hc1.
    apply elem_of_cons in Hc1 as [-> | Hc1].
    + assert ("b" ∈ ["a"; "c"]) as Hb by (apply Hsub; left).
      apply elem_of_cons in Hb as [Hb | Hb]; [discriminate|].
      apply elem_of_cons in Hb as [Hb | Hb]; [discriminate|].
      by apply elem_of_nil in Hb.
    + apply list_elem_of_singleton in Hc1 as ->.
      assert ("c" ∈ ["b"]) as Hc by (apply Hsub; right; left).
      apply list_elem_of_singleton in Hc. discriminate.
Qed.

Section BatchRunsFacts.

Variable evaluate_similarity :
  string -> string -> option (gmap string (gmap string Q)).
Variable key : string.

Local Abbreviation scan_clusters := ClusteringOperations.scan_clusters.
Local Abbreviation member_matches := ClusteringOperations.member_matches.
Local Abbreviation pair_score := ClusteringOperations.pair_score.
Local Abbreviation cluster_items :=
  (ClusteringOperations.cluster_items evaluate_similarity).
Local Abbreviation run_threshold :=
  (ClusteringOperations.run_threshold evaluate_similarity).
Local Abbreviation batch_clusters :=
  (ClusteringOperations.batch_clusters evaluate_similarity).
Local Abbreviation provider_score :=
  (ClusteringOperations.provider_score evaluate_similarity).
Local Abbreviation linked := (ClusteringOperations.linked evaluate_similarity).
Local Abbreviation connected := (ClusteringOperations.connected evaluate_similarity).

Local Abbreviation cache_sound :=
  (ClusteringOperations.cache_sound evaluate_similarity key).
Local Abbreviation clusters_connected :=
  (ClusteringOperations.clusters_connected evaluate_similarity key).
Local Abbreviation runs_related :=
  (ClusteringOperations.runs_related evaluate_similarity key).

Lemma linked_sym threshold a b :
  linked key threshold a b -> linked key threshold b a.
Proof. intros (s & Hs & [H | H]); exists s; split; auto. Qed.

Lemma connected_sym threshold a b :
  connected key threshold a b -> connected key threshold b a.
Proof.
  induction 1 as [|a b c Hab _ IH]; [apply rtc_refl|].
  eapply rtc_r; [exact IH | by apply linked_sym].
Qed.

Lemma linked_mono t1 t2 a b :
  (t1 <= t2)%Q -> linked key t2 a b -> linked key t1 a b.
Proof. intros Ht (s & Hs & H). exists s. split; [lra | done]. Qed.

Lemma connected_mono t1 t2 a b :
  (t1 <= t2)%Q -> connected key t2 a b -> connected key t1 a b.
Proof.
  intros Ht. induction 1 as [|a b c Hab _ IH]; [apply rtc_refl|].
  eapply rtc_l; [by eapply linked_mono | exact IH].
Qed.

(** A member that the scan accepts is linked to the item. *)
Lemma member_matches_linked cache similarity item_id threshold id :
  cache_sound cache -> cache !! item_id = Some similarity ->
  member_matches cache (default ∅ (similarity !! item_id)) item_id threshold id = true ->
  linked key threshold item_id id.
Proof.
  intros Hsound Hitem. unfold ClusteringOperations.member_matches,
    ClusteringOperations.pair_score.
  destruct (default ∅ (similarity !! item_id) !! id) as [score|] eqn:Hd.
  - intros Hge. exists score. split; [by apply ge_spec|]. left.
    unfold ClusteringOperations.provider_score.
    by rewrite (Hsound _ _ Hitem).
  - destruct (cache !! id) as [cached|] eqn:Hc; [|done].
    destruct (default ∅ (cached !! id) !! item_id) as [score|] eqn:Hr; [|done].
    intros Hge. exists score. split; [by apply ge_spec|]. right.
    unfold ClusteringOperations.provider_score.
    by rewrite (Hsound _ _ Hc).
Qed.

(** What a step does, with the cache it leaves: the cache it leaves does
    not depend on the threshold or on the clusters. *)
Lemma cluster_items_cases cache item_id :
  cache_sound cache ->
  (forall threshold clusters,
     cluster_items cache item_id key threshold clusters = (cache, clusters)) \/
  exists cache' similarity,
    cache_sound cache' /\ cache' !! item_id = Some similarity /\
    forall threshold clusters,
      cluster_items cache item_id key threshold clusters =
        (cache',
         match scan_clusters cache' (default ∅ (similarity !! item_id)) item_id
                             threshold clusters with
         | Some clusters' => clusters'
         | None => clusters ++ [[item_id]]
         end).
Proof.
  intros Hsound. unfold ClusteringOperations.cluster_items.
  destruct (cache !! item_id) as [sim|] eqn:Hc.
  - right. exists cache, sim. rewrite Hc. simpl.
    split; [done|]. split; [done|].
    intros t cl. by destruct (scan_clusters _ _ _ _ _).
  - destruct (evaluate_similarity item_id key) as [sim|] eqn:He; [|by left].
    right. exists (<[item_id := sim]> cache), sim.
    rewrite lookup_insert_eq. simpl.
    split.
    { intros id s. rewrite lookup_insert. case_decide as Hid.
      - intros [= <-]. by subst id.
      - apply Hsound. }
    split; [done|].
    intros t cl. by destruct (scan_clusters _ _ _ _ _).
Qed.

Lemma existsb_matches_witness cache scores item_id threshold c :
  existsb (member_matches cache scores item_id threshold) c = true ->
  exists m, m ∈ c /\ member_matches cache scores item_id threshold m = true.
Proof.
  intros H. apply existsb_exists in H as (m & Hm & Hs).
  exists m. split; [by apply list_elem_of_In | done].
Qed.

Lemma cluster_items_connected threshold cache item_id clusters :
  cache_sound cache -> clusters_connected threshold clusters ->
  cache_sound (cluster_items cache item_id key threshold clusters).1 /\
  clusters_connected threshold (cluster_items cache item_id key threshold clusters).2.
Proof.
  intros Hsound Hconn.
  destruct (cluster_items_cases cache item_id Hsound)
    as [-> | (cache' & sim & Hsound' & Hitem & ->)]; [done|].
  split; [done|]. simpl.
  destruct (scan_clusters _ _ _ _ clusters) as [cl'|] eqn:Hs.
  - apply scan_clusters_Some in Hs as (pre & c & post & -> & -> & Hm & _).
    apply existsb_matches_witness in Hm as (m & Hmc & Hm).
    apply (member_matches_linked _ _ _ _ _ Hsound' Hitem) in Hm.
    assert (forall x, x ∈ c -> connected key threshold item_id x) as Hix.
    { intros x Hx. eapply rtc_l; [exact Hm|].
      apply (Hconn c); [|done..].
      apply elem_of_app. right. left. }
    intros c' x y Hc' Hx Hy.
    apply elem_of_app in Hc' as [Hc' | Hc'].
    { apply (Hconn c'); [|done..]. apply elem_of_app. by left. }
    apply elem_of_cons in Hc' as [-> | Hc'].
    2:{ apply (Hconn c'); [|done..]. apply elem_of_app. right. by right. }
    apply elem_of_app in Hx as [Hx | Hx]; apply elem_of_app in Hy as [Hy | Hy].
    + apply (Hconn c); [|done..]. apply elem_of_app. right. left.
    + apply list_elem_of_singleton in Hy as ->. apply connected_sym. by apply Hix.
    + apply list_elem_of_singleton in Hx as ->. by apply Hix.
    + apply list_elem_of_singleton in Hx as ->.
      apply list_elem_of_singleton in Hy as ->. apply rtc_refl.
  - intros c' x y Hc' Hx Hy.
    apply elem_of_app in Hc' as [Hc' | Hc']; [by apply (Hconn c')|].
    apply list_elem_of_singleton in Hc' as ->.
    apply list_elem_of_singleton in Hx as ->.
    apply list_elem_of_singleton in Hy as ->. apply rtc_refl.
Qed.

Lemma run_connected threshold id_list st :
  cache_sound st.1 -> clusters_connected threshold st.2 ->
  clusters_connected threshold
    (fold_left (fun st id => cluster_items st.1 id key threshold st.2) id_list st).2.
Proof.
  revert st. induction id_list as [|id ids IH]; intros st Hs Hc; simpl; [done|].
  apply IH; by apply cluster_items_connected.
Qed.

Lemma batch_clusters_connected threshold id_list :
  clusters_connected threshold (batch_clusters key threshold id_list).
Proof.
  apply run_connected; simpl.
  - intros id s H. by rewrite lookup_empty in H.
  - intros c x y Hc. by apply elem_of_nil in Hc.
Qed.

(** ** The number of clusters grows with the threshold *)

Lemma member_matches_mono cache scores item_id t1 t2 id :
  (t1 <= t2)%Q ->
  member_matches cache scores item_id t2 id = true ->
  member_matches cache scores item_id t1 id = true.
Proof.
  intros Ht. unfold ClusteringOperations.member_matches.
  destruct (pair_score _ _ _ _) as [score|]; [|done].
  rewrite !ge_spec. lra.
Qed.

Lemma elem_of_concat (x : string) (ls : list (list string)) :
  x ∈ concat ls <-> exists l, x ∈ l /\ l ∈ ls.
Proof.
  induction ls as [|l ls IH]; simpl.
  - split; [intros H; by apply elem_of_nil in H|].
    intros (l & _ & H). by apply elem_of_nil in H.
  - rewrite elem_of_app, IH. split.
    + intros [H | (l' & Hx & Hl')]; [exists l; split; [done | left]|].
      exists l'. split; [done | by right].
    + intros (l' & Hx & Hl'). apply elem_of_cons in Hl' as [-> | Hl']; [by left|].
      right. by exists l'.
Qed.

Lemma scan_clusters_None_iff cache scores item_id threshold clusters :
  scan_clusters cache scores item_id threshold clusters = None <->
  forall m, m ∈ concat clusters ->
    member_matches cache scores item_id threshold m = false.
Proof.
  split.
  - intros H%scan_clusters_None m Hm.
    apply elem_of_concat in Hm as (c & Hmc & Hc).
    rewrite Forall_forall in H. specialize (H c Hc).
    destruct (member_matches _ _ _ _ m) eqn:E; [|done].
    assert (existsb (member_matches cache scores item_id threshold) c = true) as Hex.
    { apply existsb_exists. exists m. split; [by apply list_elem_of_In | done]. }
    congruence.
  - intros H.
    destruct (scan_clusters _ _ _ _ clusters) as [cl'|] eqn:Hs; [|done].
    apply scan_clusters_Some in Hs as (pre & c & post & -> & _ & Hm & _).
    apply existsb_matches_witness in Hm as (m & Hmc & Hm).
    rewrite H in Hm; [done|].
    apply elem_of_concat. exists c. split; [done|].
    apply elem_of_app. right. left.
Qed.

Lemma scan_clusters_Some_members cache scores item_id threshold clusters clusters' :
  scan_clusters cache scores item_id threshold clusters = Some clusters' ->
  length clusters' = length clusters /\
  forall x, x ∈ concat clusters' <-> x ∈ concat clusters \/ x = item_id.
Proof.
  intros (pre & c & post & -> & -> & _)%scan_clusters_Some.
  split; [by rewrite !length_app|].
  intros x. rewrite !concat_app. simpl. rewrite !elem_of_app.
  rewrite list_elem_of_singleton. tauto.
Qed.

Lemma cluster_items_related t1 t2 item_id st1 st2 :
  (t1 <= t2)%Q -> runs_related st1 st2 ->
  runs_related (cluster_items st1.1 item_id key t1 st1.2)
               (cluster_items st2.1 item_id key t2 st2.2).
Proof.
  intros Ht (Hcache & Hsound & Hmem & Hlen). rewrite <- Hcache.
  destruct (cluster_items_cases st1.1 item_id Hsound)
    as [Hskip | (cache' & sim & Hsound' & Hitem & Hstep)].
  { rewrite !Hskip. split; [done|]. split; [done|]. by split. }
  rewrite !Hstep. split; [done|]. split; [done|]. simpl.
  set (scores := default ∅ (sim !! item_id)).
  destruct (scan_clusters cache' scores item_id t2 st2.2) as [cl2|] eqn:H2.
  - destruct (scan_clusters cache' scores item_id t1 st1.2) as [cl1|] eqn:H1.
    + apply scan_clusters_Some_members in H1 as [Hl1 Hm1].
      apply scan_clusters_Some_members in H2 as [Hl2 Hm2].
      split; [|lia]. intros x. rewrite Hm1, Hm2, Hmem. tauto.
    + exfalso.
      apply scan_clusters_Some in H2 as (pre & c & post & Hst2 & _ & Hm & _).
      apply existsb_matches_witness in Hm as (m & Hmc & Hm).
      apply (member_matches_mono _ _ _ t1) in Hm; [|done].
      rewrite scan_clusters_None_iff in H1. rewrite H1 in Hm; [done|].
      apply Hmem. rewrite Hst2. apply elem_of_concat. exists c.
      split; [done|]. apply elem_of_app. right. left.
  - destruct (scan_clusters cache' scores item_id t1 st1.2) as [cl1|] eqn:H1.
    + apply scan_clusters_Some_members in H1 as [Hl1 Hm1].
      split; [|rewrite length_app; simpl; lia].
      intros x. rewrite Hm1, concat_app, elem_of_app, Hmem. simpl.
      rewrite list_elem_of_singleton. tauto.
    + split; [|rewrite !length_app; simpl; lia].
      intros x. rewrite !concat_app, !elem_of_app, Hmem. tauto.
Qed.

Lemma runs_stay_related t1 t2 id_list st1 st2 :
  (t1 <= t2)%Q -> runs_related st1 st2 ->
  runs_related
    (fold_left (fun st id => cluster_items st.1 id key t1 st.2) id_list st1)
    (fold_left (fun st id => cluster_items st.1 id key t2 st.2) id_list st2).
Proof.
  intros Ht. revert st1 st2.
  induction id_list as [|id ids IH]; intros st1 st2 Hrel; simpl; [done|].
  apply IH. by apply cluster_items_related.
Qed.

(** C4, as the code has it.  Between two runs at thresholds [t1 < t2] of
    the greedy clustering over the same ids: every two members of a
    cluster of the run at [t2] are joined by a chain of pairs scoring at
    least [t1], so the cluster lies inside one connected component of the
    similarity graph at [t1]; and the run at [t2] ends with at least as
    many clusters as the run at [t1]. *)
Theorem higher_threshold_clusters_stay_connected
    (t1 t2 : Q) (id_list : list string) :
  (t1 < t2)%Q ->
  (forall c x y,
     c ∈ batch_clusters key t2 id_list -> x ∈ c -> y ∈ c ->
     connected key t1 x y) /\
  (length (batch_clusters key t1 id_list)
   <= length (batch_clusters key t2 id_list))%nat.
Proof.
  intros Ht. split.
  - intros c x y Hc Hx Hy. apply (connected_mono t1 t2); [lra|].
    by apply (batch_clusters_connected t2 id_list c).
  - apply (runs_stay_related t1 t2 id_list (∅, []) (∅, [])); [lra|].
    split; [done|]. split; [|done].
    intros id s H. simpl in H. by rewrite lookup_empty in H.
Qed.

End BatchRunsFacts.

Lemma higher_threshold_clusters_stay_connected_witness :
  (0.8 < 0.88)%Q /\
  ((forall c x y,
      c ∈ ClusteringOperations.batch_clusters Scenario.triangle_similarity
            "question.bge" 0.88%Q ["a"; "b"; "c"] ->
      x ∈ c -> y ∈ c ->
      ClusteringOperations.connected Scenario.triangle_similarity
        "question.bge" 0.8%Q x y) /\
   (length (ClusteringOperations.batch_clusters Scenario.triangle_similarity
              "question.bge" 0.8%Q ["a"; "b"; "c"])
    <= length (ClusteringOperations.batch_clusters Scenario.triangle_similarity
                 "question.bge" 0.88%Q ["a"; "b"; "c"]))%nat).
Proof.
  assert (0.8 < 0.88)%Q as Hlt by (vm_compute; reflexivity).
  split; [exact Hlt|].
  exact (higher_threshold_clusters_stay_connected Scenario.triangle_similarity
           "question.bge" 0.8%Q 0.88%Q ["a"; "b"; "c"] Hlt).
Defined.

(* ===================================================================== *)
(** * Merging duplicates *)
(* ===================================================================== *)

Section MergeFacts.

Variable get_item : string -> option (list (string * json)).
Variable merging_question : string -> list json -> json.
Variable merging_keys : list string.

Local Abbreviation _merge_dicts :=
  (CosineClusters._merge_dicts merging_question merging_keys).
Local Abbreviation merge_loop :=
  (CosineClusters.merge_loop merging_question merging_keys).
Local Abbreviation merge_duplicates :=
  (CosineClusters.merge_duplicates get_item merging_question merging_keys).

(** The [for] loop, had it documents to run over: it returns from its
    first round, with the first document alone merged into the base. *)
Lemma merge_loop_stops_after_first based_doc first_doc docs model :
  merge_loop based_doc (Some first_doc :: docs) model
  = Return (Some (_merge_dicts based_doc first_doc model)).
Proof. done. Qed.

(** The similar ids of a [CosineClusterDoc] are a list: their retrieval
    raises, and the merge with it, before any record is read. *)
Lemma merge_duplicates_raises cluster_dict model :
  merge_duplicates cluster_dict model = Raise.
Proof. done. Qed.

End MergeFacts.

Example merge_loop_ignores_the_second_duplicate :
  CosineClusters.merge_loop Scenario.no_merger [] [("answer", JStr "x")]
    [Scenario.records "B"; Scenario.records "C"] "gemma-3"
  = Return (Some [("answer", JList [JStr "x"; JStr "y"])]).
Proof. vm_compute. reflexivity. Qed.

Example fold_over_all_duplicates_differs :
  CosineClusters.fold_all Scenario.no_merger []
    [("answer", JStr "x")] [[("answer", JStr "y")]; [("answer", JStr "z")]] "gemma-3"
  = [("answer", JList [JStr "x"; JStr "y"; JStr "z"])].
Proof. vm_compute. reflexivity. Qed.

(** C6.  The confirmation document of A with the similar records B and
    C, all three records being there: the retrieval of the similar
    records raises on the list of ids, and [merge_duplicates] raises with
    it; no record is merged and nothing is returned. *)
Theorem merge_of_confirmed_duplicates_raises :
  Scenario.records (CosineClusterDoc.id Scenario.confirmed_A)
    = Some [("answer", JStr "x")] /\
  CosineClusterDoc.similar_ids Scenario.confirmed_A = ["B"; "C"] /\
  CosineClusters._retrieve_similar_ids Scenario.records
    (CosineClusters.IdsList (CosineClusterDoc.similar_ids Scenario.confirmed_A))
  = Raise /\
  CosineClusters.merge_duplicates Scenario.records Scenario.no_merger []
    Scenario.confirmed_A "gemma-3"
  = Raise.
Proof. vm_compute. done. Qed.

(* ===================================================================== *)
(** * Incremental add *)
(* ===================================================================== *)

Example add_x_to_two_clusters :
  IncrementalClustering.add_to_cluster Scenario.near_similarity
    Scenario.default_thresholds "x" "question.bge_search_vector"
    Scenario.two_clusters
  = (IncrementalClustering.AddedToExisting "2",
     [Scenario.cluster "1" ["a"; "p"]; Scenario.cluster "2" ["b"; "q"; "x"]]).
Proof. vm_compute. reflexivity. Qed.

Example add_x_to_far_cluster :
  IncrementalClustering.add_to_cluster Scenario.near_similarity
    Scenario.default_thresholds "x" "question.bge_search_vector"
    Scenario.far_cluster
  = (IncrementalClustering.Created "2" ["a"; "b"; "x"],
     [Scenario.cluster "1" ["p"; "q"];
      Hit.mk "2" (ClusterDoc.mk "2" "bge_search_vector" 0.89%Q ["a"; "b"; "x"])]).
Proof. vm_compute. reflexivity. Qed.

Example add_p_without_similarity :
  IncrementalClustering.add_to_cluster Scenario.near_similarity
    Scenario.default_thresholds "p" "question.bge_search_vector"
    Scenario.two_clusters
  = (IncrementalClustering.CannotCluster, Scenario.two_clusters).
Proof. vm_compute. reflexivity. Qed.

Section ScanFacts.

Local Abbreviation scan := IncrementalClustering.scan.
Local Abbreviation member_of := IncrementalClustering.member_of.
Local Abbreviation intersects := IncrementalClustering.intersects.
Local Abbreviation numeric_ids := IncrementalClustering.numeric_ids.
Local Abbreviation update := IncrementalClustering.update.
Local Abbreviation index := IncrementalClustering.index.
Local Abbreviation joined := IncrementalClustering.joined.

Lemma member_test item_id (h : Hit.t) :
  bool_decide (item_id ∈ (list_to_set (ClusterDoc.cluster_ids (Hit._source h))
                           : gset string)) = true
  <-> member_of item_id h.
Proof.
  rewrite bool_decide_eq_true, elem_of_list_to_set. done.
Qed.

Lemma intersects_test (similar_ids : gset string) (h : Hit.t) :
  bool_decide (similar_ids ∩ list_to_set (ClusterDoc.cluster_ids (Hit._source h))
               ≠ ∅) = true
  <-> intersects similar_ids h.
Proof.
  rewrite bool_decide_eq_true. unfold IncrementalClustering.intersects. split.
  - intros Hne. apply set_choose_L in Hne as [x Hx].
    apply elem_of_intersection in Hx as [Hs Hc].
    apply elem_of_list_to_set in Hc. by exists x.
  - intros (x & Hs & Hc) Hempty.
    assert (x ∈ similar_ids ∩
                (list_to_set (ClusterDoc.cluster_ids (Hit._source h)) : gset string))
      as Hx by (apply elem_of_intersection; split; [done | by apply elem_of_list_to_set]).
    rewrite Hempty in Hx. by apply not_elem_of_empty in Hx.
Qed.

(** A scan over a collection that holds the item never runs to its end. *)
Lemma scan_member item_id similar_ids clusters e ids :
  (exists h, h ∈ clusters /\ member_of item_id h) ->
  scan item_id similar_ids clusters e ids = IncrementalClustering.ScanRaised \/
  exists h, h ∈ clusters /\ member_of item_id h /\
    scan item_id similar_ids clusters e ids
    = IncrementalClustering.ScanAlready (Hit._id h).
Proof.
  revert e ids. induction clusters as [|c rest IH]; intros e ids (h & Hh & Hm).
  { by apply elem_of_nil in Hh. }
  simpl. destruct (Py.int (Hit._id c)) as [n|]; [|by left].
  destruct (bool_decide (item_id ∈ _)) eqn:Hc.
  { right. exists c. split; [left|]. split; [by apply member_test | done]. }
  assert (exists h, h ∈ rest /\ member_of item_id h) as Hrest.
  { apply elem_of_cons in Hh as [-> | Hh]; [|by exists h].
    apply member_test in Hm. congruence. }
  destruct (bool_decide (similar_ids ∩ _ ≠ ∅)).
  - destruct (IH (Some (Hit._id c)) (ids ∪ {[n]}) Hrest)
      as [-> | (h' & Hh' & Hm' & ->)]; [by left|].
    right. exists h'. split; [by right | done].
  - destruct (IH e (ids ∪ {[n]}) Hrest)
      as [-> | (h' & Hh' & Hm' & ->)]; [by left|].
    right. exists h'. split; [by right | done].
Qed.

Lemma scan_member_numeric item_id similar_ids clusters e ids :
  numeric_ids clusters ->
  (exists h, h ∈ clusters /\ member_of item_id h) ->
  exists h, h ∈ clusters /\ member_of item_id h /\
    scan item_id similar_ids clusters e ids
    = IncrementalClustering.ScanAlready (Hit._id h).
Proof.
  intros Hnum Hex.
  destruct (scan_member item_id similar_ids clusters e ids Hex) as [Hr | H]; [|done].
  exfalso. clear Hex. revert e ids Hr.
  induction Hnum as [|c rest [n Hn] _ IH]; intros e ids; simpl; [done|].
  rewrite Hn. destruct (bool_decide (item_id ∈ _)); [done|].
  destruct (bool_decide (similar_ids ∩ _ ≠ ∅)); apply IH.
Qed.

(** What is known when the scan runs to its end. *)
Lemma scan_done item_id similar_ids clusters e ids e' ids' :
  scan item_id similar_ids clusters e ids = IncrementalClustering.ScanDone e' ids' ->
  numeric_ids clusters /\
  (forall h, h ∈ clusters -> ~ member_of item_id h) /\
  (forall n, n ∈ ids' <->
     n ∈ ids \/ exists h, h ∈ clusters /\ Py.int (Hit._id h) = Some n) /\
  ((e' = e /\ forall h, h ∈ clusters -> ~ intersects similar_ids h) \/
   (exists pre c post,
      clusters = pre ++ c :: post /\ intersects similar_ids c /\
      (forall h, h ∈ post -> ~ intersects similar_ids h) /\
      e' = Some (Hit._id c))).
Proof.
  revert e ids. induction clusters as [|c rest IH]; intros e ids; simpl.
  { intros [= <- <-]. split; [constructor|].
    split; [intros h Hh; by apply elem_of_nil in Hh|].
    split.
    - intros n. split; [by left|]. intros [H | (h & Hh & _)]; [done|].
      by apply elem_of_nil in Hh.
    - left. split; [done|]. intros h Hh. by apply elem_of_nil in Hh. }
  destruct (Py.int (Hit._id c)) as [n|] eqn:Hn; [|done].
  destruct (bool_decide (item_id ∈ _)) eqn:Hm; [done|].
  assert (~ member_of item_id c) as Hnm.
  { intros H. apply member_test in H. congruence. }
  destruct (bool_decide (similar_ids ∩ _ ≠ ∅)) eqn:Hi; intros Hscan;
    apply IH in Hscan as (Hnum & Hnomem & Hids & Hlast).
  - apply intersects_test in Hi.
    split; [constructor; [by exists n | done]|].
    split.
    { intros h Hh. apply elem_of_cons in Hh as [-> | Hh]; [done | by apply Hnomem]. }
    split.
    { intros k. rewrite Hids, elem_of_union, elem_of_singleton. split.
      - intros [[H | ->] | (h & Hh & Hk)]; [by left | |].
        + right. exists c. split; [left | done].
        + right. exists h. split; [by right | done].
      - intros [H | (h & Hh & Hk)]; [by left; left|].
        apply elem_of_cons in Hh as [-> | Hh].
        + left. right. congruence.
        + right. by exists h. }
    right. destruct Hlast as [[-> Hnone] | (pre & c0 & post & -> & Hc0 & Hpost & ->)].
    + exists [], c, rest. done.
    + exists (c :: pre), c0, post. done.
  - assert (~ intersects similar_ids c) as Hni.
    { intros H. apply intersects_test in H. congruence. }
    split; [constructor; [by exists n | done]|].
    split.
    { intros h Hh. apply elem_of_cons in Hh as [-> | Hh]; [done | by apply Hnomem]. }
    split.
    { intros k. rewrite Hids, elem_of_union, elem_of_singleton. split.
      - intros [[H | ->] | (h & Hh & Hk)]; [by left | |].
        + right. exists c. split; [left | done].
        + right. exists h. split; [by right | done].
      - intros [H | (h & Hh & Hk)]; [by left; left|].
        apply elem_of_cons in Hh as [-> | Hh].
        + left. right. congruence.
        + right. by exists h. }
    destruct Hlast as [[-> Hnone] | (pre & c0 & post & -> & Hc0 & Hpost & ->)].
    + left. split; [done|]. intros h Hh.
      apply elem_of_cons in Hh as [-> | Hh]; [done | by apply Hnone].
    + right. exists (c :: pre), c0, post. done.
Qed.

(** The scan runs to its end on numeric ids when the item is nowhere. *)
Lemma scan_runs item_id similar_ids clusters e ids :
  numeric_ids clusters ->
  (forall h, h ∈ clusters -> ~ member_of item_id h) ->
  exists e' ids',
    scan item_id similar_ids clusters e ids = IncrementalClustering.ScanDone e' ids'.
Proof.
  intros Hnum. revert e ids.
  induction Hnum as [|c rest [n Hn] _ IH]; intros e ids Hnomem; simpl; [by eauto|].
  rewrite Hn.
  destruct (bool_decide (item_id ∈ _)) eqn:Hm.
  { apply member_test in Hm. destruct (Hnomem c); [left | done]. }
  destruct (bool_decide (similar_ids ∩ _ ≠ ∅));
    apply IH; intros h Hh; apply Hnomem; by right.
Qed.

(** ** The two writes *)

Lemma update_other cluster_id item_id store :
  (forall h, h ∈ store -> Hit._id h <> cluster_id) ->
  update cluster_id item_id store = store.
Proof.
  induction store as [|h store IH]; intros Hne; simpl; [done|].
  assert (String.eqb (Hit._id h) cluster_id = false) as ->.
  { apply String.eqb_neq. apply Hne. left. }
  f_equal. apply IH. intros h' Hh'. apply Hne. by right.
Qed.

Lemma update_unique item_id pre c post :
  NoDup (Hit._id <$> (pre ++ c :: post)) ->
  ~ member_of item_id c ->
  update (Hit._id c) item_id (pre ++ c :: post) = pre ++ joined item_id c :: post.
Proof.
  intros Hnd Hnm. unfold IncrementalClustering.update.
  rewrite map_app. simpl. rewrite String.eqb_refl.
  rewrite fmap_app, fmap_cons in Hnd.
  apply NoDup_app in Hnd as (_ & Hpre & Hpost).
  apply NoDup_cons in Hpost as [Hpost _].
  f_equal; [|f_equal].
  - apply update_other. intros h Hh Heq.
    apply (Hpre (Hit._id h)); [by apply list_elem_of_fmap_2|]. rewrite Heq. left.
  - unfold IncrementalClustering.append_if_absent, IncrementalClustering.joined.
    by rewrite bool_decide_eq_false_2.
  - apply update_other. intros h Hh Heq.
    apply Hpost. rewrite <- Heq. by apply list_elem_of_fmap_2.
Qed.

Lemma update_member cluster_id item_id store h :
  h ∈ store -> Hit._id h = cluster_id ->
  exists h', h' ∈ update cluster_id item_id store /\ member_of item_id h'.
Proof.
  intros Hh Hid.
  exists (Hit.mk (Hit._id h)
            (IncrementalClustering.append_if_absent item_id (Hit._source h))).
  split.
  - unfold IncrementalClustering.update. apply list_elem_of_In, in_map_iff.
    exists h. split; [|by apply list_elem_of_In].
    rewrite Hid. by rewrite String.eqb_refl.
  - unfold IncrementalClustering.member_of, IncrementalClustering.append_if_absent.
    simpl. case_bool_decide as Hin; [done|]. simpl.
    apply elem_of_app. right. left.
Qed.

Lemma index_member doc_id body store :
  Hit.mk doc_id body ∈ index doc_id body store.
Proof.
  induction store as [|h store IH]; simpl; [left|].
  destruct (String.eqb (Hit._id h) doc_id); [left | by right].
Qed.

Lemma index_fresh doc_id body store :
  (forall h, h ∈ store -> Hit._id h <> doc_id) ->
  index doc_id body store = store ++ [Hit.mk doc_id body].
Proof.
  induction store as [|h store IH]; intros Hne; simpl; [done|].
  assert (String.eqb (Hit._id h) doc_id = false) as ->.
  { apply String.eqb_neq. apply Hne. left. }
  f_equal. apply IH. intros h' Hh'. apply Hne. by right.
Qed.

Lemma max_id_ge (ids : gset Z) n :
  n ∈ ids -> (n <= IncrementalClustering.max_id ids)%Z.
Proof.
  unfold IncrementalClustering.max_id. rewrite <- elem_of_elements.
  destruct (elements ids) as [|m ms]; [intros H; by apply elem_of_nil in H|].
  intros H. apply elem_of_cons in H as [-> | H].
  - induction ms as [|k ms IH]; simpl; lia.
  - induction ms as [|k ms IH]; [by apply elem_of_nil in H|].
    simpl. apply elem_of_cons in H as [-> | H]; [lia|].
    specialize (IH H). lia.
Qed.

End ScanFacts.

Section AddFacts.

Variable evaluate_similarity :
  string -> string -> option (gmap string (gmap string Q)).
Variable thresholds : gmap string (gmap string Q).

Local Abbreviation add_to_cluster :=
  (IncrementalClustering.add_to_cluster evaluate_similarity thresholds).
Local Abbreviation candidates :=
  (IncrementalClustering.candidates evaluate_similarity thresholds).
Local Abbreviation member_of := IncrementalClustering.member_of.
Local Abbreviation intersects := IncrementalClustering.intersects.
Local Abbreviation numeric_ids := IncrementalClustering.numeric_ids.
Local Abbreviation joined := IncrementalClustering.joined.

(** An add of a record that some cluster holds leaves the collection as
    it is, whatever it reports. *)
Lemma add_member_no_write item_id key store :
  (exists h, h ∈ store /\ member_of item_id h) ->
  (add_to_cluster item_id key store).2 = store.
Proof.
  intros Hex. unfold IncrementalClustering.add_to_cluster.
  destruct (evaluate_similarity item_id key) as [similarity|]; [|done].
  destruct (scan_member item_id
              (IncrementalClustering.candidate_set
                 (default ∅ (similarity !! item_id))
                 (IncrementalClustering.max_threshold_for thresholds key))
              store None ∅ Hex) as [-> | (h & _ & _ & ->)]; done.
Qed.

(** An add writes nothing, or leaves the record in some cluster. *)
Lemma add_write_member item_id key store :
  (add_to_cluster item_id key store).2 = store \/
  exists h, h ∈ (add_to_cluster item_id key store).2 /\ member_of item_id h.
Proof.
  unfold IncrementalClustering.add_to_cluster.
  destruct (evaluate_similarity item_id key) as [similarity|]; [|by left].
  set (similar_ids := IncrementalClustering.candidate_set _ _).
  destruct (IncrementalClustering.scan item_id similar_ids store None ∅)
    as [|cid|e' ids'] eqn:Hscan; [by left..|].
  apply scan_done in Hscan as (_ & _ & _ & Hlast).
  destruct (Py.truthy_str e') eqn:He'.
  - right. simpl.
    destruct Hlast as [[-> _] | (pre & c & post & Hstore & _ & _ & ->)]; [done|].
    simpl. apply (update_member _ _ _ c); [|done].
    rewrite Hstore. apply elem_of_app. right. left.
  - destruct (bool_decide (similar_ids ≠ ∅)); [|by left].
    destruct (1 <? length _)%nat; [|by left].
    destruct (Py.split "." key !! 1%nat) as [model_name|]; [|by left].
    right. simpl. eexists. split; [apply index_member|].
    unfold IncrementalClustering.member_of. simpl.
    apply elem_of_elements, elem_of_union. right. by apply elem_of_singleton.
Qed.

(** C5, as the code has it.  For an add of a record that some persisted
    cluster already holds: nothing is written (no update, no new cluster,
    the collection is what it was); the add returns silently when the
    similarity of the record cannot be computed, and when it can (and the
    cluster ids are numerals) it reports the record as already present in
    a cluster that holds it.  Hence an add repeated on the collection that
    the first add left writes nothing. *)
Theorem add_of_clustered_record_writes_nothing (item_id key : string) :
  (forall store,
     (exists h, h ∈ store /\ member_of item_id h) ->
     (add_to_cluster item_id key store).2 = store /\
     (evaluate_similarity item_id key = None ->
        (add_to_cluster item_id key store).1 = IncrementalClustering.CannotCluster) /\
     (is_Some (evaluate_similarity item_id key) -> numeric_ids store ->
        exists h, h ∈ store /\ member_of item_id h /\
          (add_to_cluster item_id key store).1
          = IncrementalClustering.AlreadyClustered (Hit._id h))) /\
  (forall store,
     (add_to_cluster item_id key (add_to_cluster item_id key store).2).2
     = (add_to_cluster item_id key store).2).
Proof.
  split.
  - intros store Hex. split; [by apply add_member_no_write|]. split.
    + intros Hnone. unfold IncrementalClustering.add_to_cluster. by rewrite Hnone.
    + intros [similarity Hsim] Hnum.
      unfold IncrementalClustering.add_to_cluster. rewrite Hsim.
      destruct (scan_member_numeric item_id
                  (IncrementalClustering.candidate_set
                     (default ∅ (similarity !! item_id))
                     (IncrementalClustering.max_threshold_for thresholds key))
                  store None ∅ Hnum Hex) as (h & Hh & Hm & ->).
      by exists h.
  - intros store.
    destruct (add_write_member item_id key store) as [Heq | Hmem].
    + by rewrite !Heq.
    + by apply add_member_no_write.
Qed.

(** C1, as the code has it.  For an add of a record that no persisted
    cluster holds, over a collection with distinct numeral ids: when some
    cluster meets the candidate set, the record id is appended to the LAST
    such cluster in scan order, and no other cluster is modified. *)
Theorem add_joins_last_intersecting_cluster
    (item_id key : string) (store : list Hit.t) :
  numeric_ids store ->
  NoDup (Hit._id <$> store) ->
  (forall h, h ∈ store -> ~ member_of item_id h) ->
  (exists h, h ∈ store /\ intersects (candidates item_id key) h) ->
  exists pre c post,
    store = pre ++ c :: post /\
    intersects (candidates item_id key) c /\
    (forall h, h ∈ post -> ~ intersects (candidates item_id key) h) /\
    add_to_cluster item_id key store
    = (IncrementalClustering.AddedToExisting (Hit._id c),
       pre ++ joined item_id c :: post).
Proof.
  intros Hnum Hnd Hnomem (h & Hh & Hint).
  unfold IncrementalClustering.candidates in *.
  unfold IncrementalClustering.add_to_cluster.
  destruct (evaluate_similarity item_id key) as [similarity|].
  2:{ destruct Hint as (x & Hx & _). by apply not_elem_of_empty in Hx. }
  set (similar_ids := IncrementalClustering.candidate_set _ _) in *.
  destruct (scan_runs item_id similar_ids store None ∅ Hnum Hnomem)
    as (e' & ids' & Hscan).
  rewrite Hscan.
  apply scan_done in Hscan as (_ & _ & _ & Hlast).
  destruct Hlast as [[_ Hnone] | (pre & c & post & -> & Hc & Hpost & ->)].
  { by destruct (Hnone h Hh). }
  exists pre, c, post. split; [done|]. split; [done|]. split; [done|].
  assert (is_Some (Py.int (Hit._id c))) as [n Hn].
  { unfold IncrementalClustering.numeric_ids in Hnum.
    rewrite Forall_forall in Hnum. apply Hnum.
    apply elem_of_app. right. left. }
  rewrite (int_nonempty _ _ Hn). simpl. f_equal.
  apply update_unique; [done|].
  apply Hnomem, elem_of_app. right. left.
Qed.


End AddFacts.

(** ** The scenarios *)

Lemma x_in_no_cluster h :
  h ∈ Scenario.two_clusters -> ~ IncrementalClustering.member_of "x" h.
Proof.
  unfold IncrementalClustering.member_of, Scenario.two_clusters. intros Hh.
  apply elem_of_cons in Hh as [-> | Hh];
    [|apply list_elem_of_singleton in Hh as ->]; simpl; intros Hm;
    (apply elem_of_cons in Hm as [Hm | Hm]; [discriminate|]);
    apply list_elem_of_singleton in Hm; discriminate.
Qed.

Lemma a_is_candidate_of_x :
  "a" ∈ IncrementalClustering.candidates Scenario.near_similarity
          Scenario.default_thresholds "x" "question.bge_search_vector".
Proof. apply (bool_decide_unpack _). vm_compute. exact I. Qed.

Lemma first_cluster_meets_candidates :
  IncrementalClustering.intersects
    (IncrementalClustering.candidates Scenario.near_similarity
       Scenario.default_thresholds "x" "question.bge_search_vector")
    (Scenario.cluster "1" ["a"; "p"]).
Proof. exists "a". split; [apply a_is_candidate_of_x | left]. Qed.

(** Both clusters hold a candidate of x; the add appends x to the second
    one and leaves the first one, which the scan meets first, as it is. *)
Lemma add_does_not_join_first_cluster :
  ~ IncrementalClustering.joins_first_intersecting Scenario.near_similarity
      Scenario.default_thresholds "x" "question.bge_search_vector"
      Scenario.two_clusters.
Proof.
  intros H. destruct H as (pre & c & post & Hstore & Hc & Hpre & Hadd).
  - apply x_in_no_cluster.
  - exists (Scenario.cluster "1" ["a"; "p"]). split; [left|].
    apply first_cluster_meets_candidates.
  - destruct pre as [|h0 pre].
    + injection Hstore as <- <-. rewrite add_x_to_two_clusters in Hadd.
      discriminate.
    + injection Hstore as <- _. apply (Hpre (Scenario.cluster "1" ["a"; "p"])).
      * left.
      * apply first_cluster_meets_candidates.
Qed.

(** Record p sits in the first cluster, and nothing can be computed for
    it: the add returns without the report. *)
Lemma add_without_similarity_does_not_report :
  ~ IncrementalClustering.reports_already_clustered Scenario.near_similarity
      Scenario.default_thresholds "p" "question.bge_search_vector"
      Scenario.two_clusters.
Proof.
  intros H. destruct H as [cluster_id Hc].
  - exists (Scenario.cluster "1" ["a"; "p"]). split; [left|].
    unfold IncrementalClustering.member_of. simpl. right. left.
  - rewrite add_p_without_similarity in Hc. discriminate.
Qed.

Lemma two_clusters_numeric :
  IncrementalClustering.numeric_ids Scenario.two_clusters.
Proof. repeat constructor; by eexists. Qed.

Lemma two_clusters_distinct : NoDup (Hit._id <$> Scenario.two_clusters).
Proof. apply (bool_decide_unpack _). vm_compute. exact I. Qed.

Lemma add_joins_last_intersecting_cluster_witness :
  IncrementalClustering.numeric_ids Scenario.two_clusters /\
  NoDup (Hit._id <$> Scenario.two_clusters) /\
  (forall h, h ∈ Scenario.two_clusters -> ~ IncrementalClustering.member_of "x" h) /\
  (exists h, h ∈ Scenario.two_clusters /\
     IncrementalClustering.intersects
       (IncrementalClustering.candidates Scenario.near_similarity
          Scenario.default_thresholds "x" "question.bge_search_vector") h) /\
  exists pre c post,
    Scenario.two_clusters = pre ++ c :: post /\
    IncrementalClustering.intersects
      (IncrementalClustering.candidates Scenario.near_similarity
         Scenario.default_thresholds "x" "question.bge_search_vector") c /\
    (forall h, h ∈ post ->
       ~ IncrementalClustering.intersects
           (IncrementalClustering.candidates Scenario.near_similarity
              Scenario.default_thresholds "x" "question.bge_search_vector") h) /\
    IncrementalClustering.add_to_cluster Scenario.near_similarity
      Scenario.default_thresholds "x" "question.bge_search_vector"
      Scenario.two_clusters
    = (IncrementalClustering.AddedToExisting (Hit._id c),
       pre ++ IncrementalClustering.joined "x" c :: post).
Proof.
  assert (exists h, h ∈ Scenario.two_clusters /\
     IncrementalClustering.intersects
       (IncrementalClustering.candidates Scenario.near_similarity
          Scenario.default_thresholds "x" "question.bge_search_vector") h) as Hex.
  { exists (Scenario.cluster "1" ["a"; "p"]). split; [left|].
    apply first_cluster_meets_candidates. }
  split; [exact two_clusters_numeric|].
  split; [exact two_clusters_distinct|].
  split; [exact x_in_no_cluster|].
  split; [exact Hex|].
  exact (add_joins_last_intersecting_cluster Scenario.near_similarity
           Scenario.default_thresholds "x" "question.bge_search_vector"
           Scenario.two_clusters two_clusters_numeric two_clusters_distinct
           x_in_no_cluster Hex).
Defined.









(** ** Where no cluster is created *)










(* ===================================================================== *)
(** * JSON values and dicts *)
(* ===================================================================== *)

Section JsonFacts.

(** Induction on a JSON value with its elements and fields at hand. *)
Lemma json_nested_ind (P : json -> Prop) :
  P JNull ->
  (forall b, P (JBool b)) ->
  (forall n, P (JInt n)) ->
  (forall q, P (JFloat q)) ->
  (forall s, P (JStr s)) ->
  (forall l, Forall P l -> P (JList l)) ->
  (forall d, Forall (fun kv => P kv.2) d -> P (JDict d)) ->
  forall v, P v.
Proof.
  intros Hnull Hbool Hint Hfloat Hstr Hlist Hdict.
  fix IH 1. intros [| b | n | q | s | l | d].
  - exact Hnull.
  - apply Hbool.
  - apply Hint.
  - apply Hfloat.
  - apply Hstr.
  - apply Hlist. induction l as [|x l IHl]; constructor; [apply IH | exact IHl].
  - apply Hdict. induction d as [|[k x] d IHd]; constructor; [apply IH | exact IHd].
Qed.

Lemma json_eqb_eq a b : Json.eqb a b = true <-> a = b.
Proof.
  revert b. induction a as [| x | x | x | x | l IHl | d IHd] using json_nested_ind;
    intros [| y | y | y | y | l' | d']; simpl; try (split; [done | discriminate]);
    try done.
  - rewrite Bool.eqb_true_iff. split; congruence.
  - rewrite Z.eqb_eq. split; congruence.
  - rewrite bool_decide_eq_true. split; congruence.
  - rewrite String.eqb_eq. split; congruence.
  - revert l'. induction IHl as [|x l Hx _ IH]; intros [|y l']; try done.
    rewrite andb_true_iff, Hx. split.
    + intros [-> H]. apply IH in H. congruence.
    + intros [= -> ->]. split; [done|]. by apply IH.
  - revert d'. induction IHd as [|[k x] d Hx _ IH]; intros [|[k' y] d']; try done.
    simpl in Hx. rewrite !andb_true_iff, String.eqb_eq, Hx. split.
    + intros [[-> ->] H]. apply IH in H. congruence.
    + intros [= -> -> ->]. split; [done|]. by apply IH.
Qed.

Lemma json_eqb_refl a : Json.eqb a a = true.
Proof. by apply json_eqb_eq. Qed.

Lemma json_eqb_neq a b : Json.eqb a b = false <-> a <> b.
Proof.
  rewrite <- json_eqb_eq. by destruct (Json.eqb a b).
Qed.

End JsonFacts.

Section DictFacts.

Context {K V : Type} (eqb : K -> K -> bool).
Hypothesis eqb_eq : forall a b, eqb a b = true <-> a = b.

Lemma eqb_false (a b : K) : eqb a b = false <-> a <> b.
Proof. rewrite <- eqb_eq. by destruct (eqb a b). Qed.

Lemma dict_get_set_eq (d : list (K * V)) k v :
  Dict.get eqb (Dict.set eqb d k v) k = Some v.
Proof.
  induction d as [|[k' v'] d IH]; simpl.
  - by rewrite (proj2 (eqb_eq k k)).
  - destruct (eqb k' k) eqn:E; simpl; rewrite E; done.
Qed.

Lemma dict_get_set_ne (d : list (K * V)) k v k0 :
  k <> k0 -> Dict.get eqb (Dict.set eqb d k v) k0 = Dict.get eqb d k0.
Proof.
  intros Hne. induction d as [|[k' v'] d IH]; simpl.
  - by rewrite (proj2 (eqb_false k k0)).
  - destruct (eqb k' k) eqn:E; simpl.
    + apply eqb_eq in E as ->. by rewrite (proj2 (eqb_false k k0)).
    + destruct (eqb k' k0); done.
Qed.

Lemma dict_get_Some_elem (d : list (K * V)) k v :
  Dict.get eqb d k = Some v -> (k, v) ∈ d.
Proof.
  induction d as [|[k' v'] d IH]; simpl; [done|].
  destruct (eqb k' k) eqn:E.
  - apply eqb_eq in E as ->. intros [= ->]. left.
  - intros H. right. by apply IH.
Qed.

Lemma dict_get_None (d : list (K * V)) k :
  Dict.get eqb d k = None <-> k ∉ d.*1.
Proof.
  induction d as [|[k' v'] d IH]; simpl.
  - split; [intros _ H; by apply elem_of_nil in H | done].
  - rewrite not_elem_of_cons. destruct (eqb k' k) eqn:E.
    + apply eqb_eq in E as ->. split; [done | by intros [? _]].
    + apply eqb_false in E. rewrite IH. split; [by split | by intros [_ ?]].
Qed.

Lemma dict_get_NoDup (d : list (K * V)) k v :
  NoDup d.*1 -> (k, v) ∈ d -> Dict.get eqb d k = Some v.
Proof.
  induction d as [|[k' v'] d IH]; simpl; intros Hnd Hin.
  { by apply elem_of_nil in Hin. }
  apply NoDup_cons in Hnd as [Hk' Hnd].
  apply elem_of_cons in Hin as [[= -> ->] | Hin].
  - by rewrite (proj2 (eqb_eq k' k')).
  - destruct (eqb k' k) eqn:E; [|by apply IH].
    apply eqb_eq in E as ->. destruct Hk'.
    apply list_elem_of_fmap. by exists (k, v).
Qed.

Lemma dict_set_keys (d : list (K * V)) k v :
  (Dict.set eqb d k v).*1 = if Dict.mem eqb d k then d.*1 else d.*1 ++ [k].
Proof.
  unfold Dict.mem. induction d as [|[k' v'] d IH]; [done|].
  cbn [Dict.set Dict.get]. destruct (eqb k' k) eqn:E; [done|].
  rewrite !fmap_cons, IH. by destruct (Dict.get eqb d k).
Qed.

Lemma dict_set_NoDup (d : list (K * V)) k v :
  NoDup d.*1 -> NoDup (Dict.set eqb d k v).*1.
Proof.
  intros Hnd. rewrite dict_set_keys. unfold Dict.mem.
  destruct (Dict.get eqb d k) eqn:E; [done|].
  apply dict_get_None in E. apply NoDup_app. split; [done|].
  split; [|apply NoDup_singleton].
  intros x Hx Hk. apply list_elem_of_singleton in Hk as ->. done.
Qed.

End DictFacts.

(* ===================================================================== *)
(** * Diffing snapshots *)
(* ===================================================================== *)

Section DiffFacts.

Variable load : string -> list (string * json).

Local Abbreviation read_all := (DiffOperations.read_all load).
Local Abbreviation build_cluster_map := DiffOperations.build_cluster_map.
Local Abbreviation keep_unique := DiffOperations.keep_unique.
Local Abbreviation compare_clusters := (DiffOperations.compare_clusters load).
Local Abbreviation output_cluster := DiffOperations.output_cluster.
Local Abbreviation in_output := (DiffOperations.in_output load).
Local Abbreviation cluster_at := (DiffOperations.cluster_at load).
Local Abbreviation located := DiffOperations.located.
Local Abbreviation locations_of := DiffOperations.locations_of.

(** One visit of the loops of lines 23-28. *)
Local Abbreviation visit :=
  (fun (cluster_map : list (json * list (string * string)))
       (e : string * string * json) =>
     Dict.update_default Json.eqb cluster_map e.2 [] (fun locations => locations ++ [e.1])).

Lemma string_eqb_eq (a b : string) : String.eqb a b = true <-> a = b.
Proof. apply String.eqb_eq. Qed.

(** *** Reading the files *)

Lemma read_all_get input_files data0 f :
  Dict.get String.eqb
    (fold_left (fun data f => Dict.set String.eqb data f (load f)) input_files data0) f
  = if bool_decide (f ∈ input_files) then Some (load f)
    else Dict.get String.eqb data0 f.
Proof.
  revert data0. induction input_files as [|g l IH]; intros data0; simpl; [done|].
  rewrite IH. destruct (decide (g = f)) as [-> | Hne].
  - rewrite dict_get_set_eq by apply string_eqb_eq.
    rewrite (bool_decide_eq_true_2 (f ∈ f :: l)) by left.
    by case_bool_decide.
  - rewrite dict_get_set_ne by (apply string_eqb_eq || done).
    case_bool_decide as Hl.
    + by rewrite bool_decide_eq_true_2 by by right.
    + rewrite bool_decide_eq_false_2; [done|].
      intros H. apply elem_of_cons in H as [-> | H]; done.
Qed.

Lemma read_all_NoDup input_files data0 :
  NoDup data0.*1 ->
  NoDup (fold_left (fun data f => Dict.set String.eqb data f (load f))
                   input_files data0).*1.
Proof.
  revert data0. induction input_files as [|g l IH]; intros data0 Hnd; simpl; [done|].
  apply IH. apply dict_set_NoDup; [apply string_eqb_eq | done].
Qed.

Lemma read_all_elem input_files f clusters :
  (f, clusters) ∈ read_all input_files <-> f ∈ input_files /\ clusters = load f.
Proof.
  unfold DiffOperations.read_all. split.
  - intros Hin.
    apply (dict_get_NoDup String.eqb string_eqb_eq) in Hin;
      [|apply read_all_NoDup; constructor].
    rewrite read_all_get in Hin. case_bool_decide; [|done].
    by injection Hin as <-.
  - intros [Hf ->]. apply (dict_get_Some_elem String.eqb string_eqb_eq).
    rewrite read_all_get. by rewrite bool_decide_eq_true_2.
Qed.

(** *** The visits *)

Lemma build_cluster_map_visits data cluster_map :
  fold_left
    (fun cluster_map fc =>
       fold_left
         (fun cluster_map kv =>
            let value_str := Json.dumps_sorted kv.2 in
            Dict.update_default Json.eqb cluster_map value_str []
              (fun locations => locations ++ [(fc.1, kv.1)]))
         fc.2 cluster_map)
    data cluster_map
  = fold_left visit (located data) cluster_map.
Proof.
  revert cluster_map. induction data as [|[f clusters] data IH]; intros cm; [done|].
  cbn [fold_left]. rewrite IH. unfold DiffOperations.located. cbn [flat_map].
  rewrite fold_left_app. f_equal. simpl.
  generalize cm. induction clusters as [|kv clusters IHc]; intros cm0; [done|].
  simpl. apply IHc.
Qed.

Lemma located_elem data e :
  e ∈ located data <->
  exists f clusters key value,
    (f, clusters) ∈ data /\ (key, value) ∈ clusters /\
    e = (f, key, Json.dumps_sorted value).
Proof.
  unfold DiffOperations.located.
  rewrite list_elem_of_In, in_flat_map. split.
  - intros ([f clusters] & Hfc & He). apply in_map_iff in He as ([k v] & <- & Hkv).
    exists f, clusters, k, v. by rewrite !list_elem_of_In.
  - intros (f & clusters & k & v & Hfc & Hkv & ->).
    exists (f, clusters). split; [by apply list_elem_of_In|].
    apply in_map_iff. exists (k, v). split; [done | by apply list_elem_of_In].
Qed.

Lemma located_NoDup data :
  NoDup data.*1 ->
  (forall f clusters, (f, clusters) ∈ data -> NoDup clusters.*1) ->
  NoDup (located data).*1.
Proof.
  induction data as [|[f clusters] data IH]; intros Hnd Hcl; [constructor|].
  unfold DiffOperations.located. cbn [flat_map]. rewrite fmap_app.
  rewrite fmap_cons in Hnd. apply NoDup_cons in Hnd as [Hf Hnd].
  apply NoDup_app. split; [|split].
  - assert (NoDup clusters.*1) as Hc by (apply (Hcl f); left).
    simpl. clear -Hc. induction clusters as [|[k v] clusters IHc]; [constructor|].
    rewrite fmap_cons in Hc. apply NoDup_cons in Hc as [Hk Hc]. simpl.
    apply NoDup_cons. split; [|by apply IHc].
    intros Hin. apply list_elem_of_fmap in Hin as ([[f' k'] c'] & Heq & Hin).
    simpl in Heq. injection Heq as <- <-.
    apply list_elem_of_In, in_map_iff in Hin as ([k2 v2] & [= <- _] & Hin).
    apply Hk. apply list_elem_of_fmap. exists (k2, v2).
    split; [done | by apply list_elem_of_In].
  - intros [f' k'] H1 H2. simpl in H1.
    apply list_elem_of_fmap in H1 as ([[f1 k1] c1] & [= -> ->] & H1).
    apply list_elem_of_In, in_map_iff in H1 as ([k2 v2] & [= <- _ _] & _).
    apply list_elem_of_fmap in H2 as ([[f2 k2'] c2] & [= -> ->] & H2).
    apply located_elem in H2 as (f3 & cl3 & k3 & v3 & Hfc & _ & [= -> _ _]).
    apply Hf. apply list_elem_of_fmap. by exists (f3, cl3).
  - apply IH; [done|]. intros f' cl' H. apply (Hcl f'). by right.
Qed.

(** *** The cluster map *)

Lemma visit_get cluster_map (e : string * string * json) c :
  Dict.get Json.eqb (visit cluster_map e) c
  = if Json.eqb e.2 c
    then Some (default [] (Dict.get Json.eqb cluster_map c) ++ [e.1])
    else Dict.get Json.eqb cluster_map c.
Proof.
  unfold Dict.update_default.
  destruct (Json.eqb e.2 c) eqn:E.
  - apply json_eqb_eq in E as <-.
    destruct (Dict.get Json.eqb cluster_map e.2);
      by rewrite dict_get_set_eq by apply json_eqb_eq.
  - apply json_eqb_neq in E.
    destruct (Dict.get Json.eqb cluster_map e.2);
      by rewrite dict_get_set_ne by (apply json_eqb_eq || done).
Qed.

Lemma visit_NoDup cluster_map (e : string * string * json) :
  NoDup cluster_map.*1 -> NoDup (visit cluster_map e).*1.
Proof.
  intros Hnd. unfold Dict.update_default.
  destruct (Dict.get Json.eqb cluster_map e.2);
    apply dict_set_NoDup; (apply json_eqb_eq || done).
Qed.

Lemma visits_NoDup es cluster_map :
  NoDup cluster_map.*1 -> NoDup (fold_left visit es cluster_map).*1.
Proof.
  revert cluster_map. induction es as [|e es IH]; intros cm Hnd; simpl; [done|].
  apply IH. by apply visit_NoDup.
Qed.

Lemma visits_get es cluster_map c :
  Dict.get Json.eqb (fold_left visit es cluster_map) c
  = match locations_of c es with
    | [] => Dict.get Json.eqb cluster_map c
    | locations =>
        Some (default [] (Dict.get Json.eqb cluster_map c) ++ locations)
    end.
Proof.
  revert cluster_map. unfold DiffOperations.locations_of.
  induction es as [|e es IH]; intros cm; [done|].
  cbn [fold_left]. rewrite IH, visit_get, filter_cons.
  destruct (decide (Json.eqb e.2 c = true)) as [Ht | Hf].
  - rewrite Ht, fmap_cons. simpl.
    destruct ((filter _ es).*1); by rewrite <- ?app_assoc.
  - apply not_true_is_false in Hf. by rewrite Hf.
Qed.

Lemma cluster_map_elem data c locations :
  (c, locations) ∈ build_cluster_map data <->
  locations <> [] /\ locations = locations_of c (located data).
Proof.
  unfold DiffOperations.build_cluster_map. rewrite build_cluster_map_visits.
  split.
  - intros Hin.
    apply (dict_get_NoDup Json.eqb json_eqb_eq) in Hin;
      [|apply visits_NoDup; constructor].
    rewrite visits_get in Hin. simpl in Hin.
    destruct (locations_of c (located data)); [done|]. by injection Hin as <-.
  - intros [Hne ->]. apply (dict_get_Some_elem Json.eqb json_eqb_eq).
    rewrite visits_get. simpl. by destruct (locations_of c (located data)).
Qed.

(** *** The output *)

Local Abbreviation keep :=
  (fun (output : list (string * list (string * json)))
       (entry : json * list (string * string)) =>
     match entry.2 with
     | [(f, key)] =>
         Dict.update_default String.eqb output f []
           (fun clusters => Dict.set String.eqb clusters key (Json.loads entry.1))
     | _ => output
     end).

Lemma put_get output f key value f' key' :
  output_cluster
    (Dict.update_default String.eqb output f []
       (fun clusters => Dict.set String.eqb clusters key value)) f' key'
  = if bool_decide (f = f' /\ key = key') then Some value
    else output_cluster output f' key'.
Proof.
  unfold DiffOperations.output_cluster, Dict.update_default.
  destruct (decide (f = f')) as [<- | Hf].
  - assert (forall clusters0 output',
              Dict.get String.eqb output' f = Some (Dict.set String.eqb clusters0 key value) ->
              Dict.get String.eqb output f = Some clusters0 \/
              (Dict.get String.eqb output f = None /\ clusters0 = []) ->
              match Dict.get String.eqb output' f with
              | Some clusters => Dict.get String.eqb clusters key'
              | None => None
              end
              = if bool_decide (f = f /\ key = key') then Some value
                else match Dict.get String.eqb output f with
                     | Some clusters => Dict.get String.eqb clusters key'
                     | None => None
                     end) as Haux.
    { intros cl0 out' -> Hcl0. destruct (decide (key = key')) as [<- | Hk].
      - rewrite bool_decide_eq_true_2 by done.
        by rewrite dict_get_set_eq by apply string_eqb_eq.
      - rewrite bool_decide_eq_false_2 by (by intros [_ ?]).
        rewrite dict_get_set_ne by (apply string_eqb_eq || done).
        by destruct Hcl0 as [-> | [-> ->]]. }
    destruct (Dict.get String.eqb output f) as [cl0|] eqn:Hg.
    + apply (Haux cl0); [|by left].
      by rewrite dict_get_set_eq by apply string_eqb_eq.
    + apply (Haux []); [|by right].
      by rewrite dict_get_set_eq by apply string_eqb_eq.
  - rewrite bool_decide_eq_false_2 by (by intros [? _]).
    destruct (Dict.get String.eqb output f);
      by rewrite dict_get_set_ne by (apply string_eqb_eq || done).
Qed.

Lemma keep_get entry output f key :
  output_cluster (keep output entry) f key
  = if bool_decide (entry.2 = [(f, key)]) then Some entry.1
    else output_cluster output f key.
Proof.
  destruct entry as [c locations]. simpl.
  destruct locations as [|[f0 k0] [|l ls]].
  - by rewrite bool_decide_eq_false_2.
  - rewrite put_get. unfold Json.loads.
    destruct (decide (f0 = f /\ k0 = key)) as [[-> ->] | Hne].
    + by rewrite !bool_decide_eq_true_2.
    + rewrite !bool_decide_eq_false_2; [done | | done].
      intros [= -> ->]. by apply Hne.
  - by rewrite bool_decide_eq_false_2.
Qed.

Lemma keeps_Some entries output f key value :
  output_cluster (fold_left keep entries output) f key = Some value ->
  output_cluster output f key = Some value \/
  (value, [(f, key)]) ∈ entries.
Proof.
  revert output. induction entries as [|e es IH]; intros out; [by left|].
  cbn [fold_left]. intros H. apply IH in H as [H | H]; [|right; by right].
  rewrite keep_get in H. case_bool_decide as He; [|by left].
  injection H as <-. right. destruct e as [c l]. simpl in He. subst l. left.
Qed.

Lemma keeps_is_Some entries output f key :
  is_Some (output_cluster output f key) \/
  (exists c, (c, [(f, key)]) ∈ entries) ->
  is_Some (output_cluster (fold_left keep entries output) f key).
Proof.
  revert output. induction entries as [|e es IH]; intros out.
  - intros [H | (c & H)]; [done | by apply elem_of_nil in H].
  - cbn [fold_left]. intros H. apply IH.
    destruct (decide (e.2 = [(f, key)])) as [He | He].
    { left. rewrite keep_get. by rewrite bool_decide_eq_true_2. }
    destruct H as [H | (c & H)].
    + left. rewrite keep_get. by rewrite bool_decide_eq_false_2.
    + apply elem_of_cons in H as [Heq | H]; [by subst e|]. right. by exists c.
Qed.

(** *** Clusters found once *)

Lemma only_element (A : Type) (l : list A) (a : A) :
  NoDup l -> (forall x, x ∈ l -> x = a) -> a ∈ l -> l = [a].
Proof.
  intros Hnd Hall Ha. destruct l as [|x [|y l]].
  - by apply elem_of_nil in Ha.
  - f_equal. apply Hall. left.
  - exfalso. apply NoDup_cons in Hnd as [Hx _]. apply Hx.
    rewrite (Hall x) by left. rewrite (Hall y) by (right; left). left.
Qed.

Lemma NoDup_fst_functional (A B : Type) (l : list (A * B)) x y1 y2 :
  NoDup l.*1 -> (x, y1) ∈ l -> (x, y2) ∈ l -> y1 = y2.
Proof.
  induction l as [|[a b] l IH]; intros Hnd H1 H2.
  { by apply elem_of_nil in H1. }
  rewrite fmap_cons in Hnd. apply NoDup_cons in Hnd as [Ha Hnd].
  assert (forall y, (a, y) ∈ l -> False) as Hno.
  { intros y Hy. apply Ha. apply list_elem_of_fmap. by exists (a, y). }
  apply elem_of_cons in H1 as [H1 | H1]; apply elem_of_cons in H2 as [H2 | H2].
  - congruence.
  - injection H1 as -> ->. by destruct (Hno y2).
  - injection H2 as -> ->. by destruct (Hno y1).
  - by apply IH.
Qed.

Lemma located_read_all input_files e :
  e ∈ located (read_all input_files) <->
  exists f key value,
    cluster_at input_files f key value /\ e = (f, key, Json.dumps_sorted value).
Proof.
  rewrite located_elem. unfold DiffOperations.cluster_at. split.
  - intros (f & clusters & k & v & Hfc & Hkv & ->).
    apply read_all_elem in Hfc as [Hf ->]. by exists f, k, v.
  - intros (f & k & v & [Hf Hkv] & ->).
    exists f, (load f), k, v. split; [by apply read_all_elem | done].
Qed.

Lemma located_read_all_NoDup input_files :
  (forall g, NoDup (load g).*1) ->
  NoDup (located (read_all input_files)).*1.
Proof.
  intros Hload. apply located_NoDup.
  - apply read_all_NoDup. constructor.
  - intros f clusters Hfc. apply read_all_elem in Hfc as [_ ->]. apply Hload.
Qed.

Lemma locations_of_elem c es (loc : string * string) :
  loc ∈ locations_of c es <-> (loc, c) ∈ es.
Proof.
  unfold DiffOperations.locations_of. rewrite list_elem_of_fmap. split.
  - intros ([loc' c'] & -> & Hin). apply list_elem_of_filter in Hin as [Hc Hin].
    simpl in Hc. apply json_eqb_eq in Hc as ->. done.
  - intros Hin. exists (loc, c). split; [done|].
    apply list_elem_of_filter. split; [apply json_eqb_refl | done].
Qed.

Lemma locations_of_NoDup c es : NoDup es.*1 -> NoDup (locations_of c es).
Proof.
  intros Hnd. unfold DiffOperations.locations_of.
  apply (sublist_NoDup _ es.*1); [exact Hnd|].
  apply fmap_sublist, sublist_filter.
Qed.

(** Over snapshot files whose objects have each label once: the cluster
    under a label of a snapshot is in the output, under that snapshot and
    label, exactly when no other (snapshot, label) pair holds a cluster
    with the same serialization; and what the output holds there is that
    serialization read back. *)
Lemma cluster_reported_iff_found_once
    (input_files : list string) (f key : string) (value : json) :
  (forall g, NoDup (load g).*1) ->
  cluster_at input_files f key value ->
  (in_output input_files f key <->
   forall f' key' value',
     cluster_at input_files f' key' value' ->
     DiffOperations.same_dump value' value ->
     (f', key') = (f, key)) /\
  (forall v,
     output_cluster (compare_clusters input_files) f key = Some v ->
     v = Json.loads (Json.dumps_sorted value)).
Proof.
  intros Hload Hat.
  pose proof (located_read_all_NoDup input_files Hload) as Hnd.
  assert ((f, key, Json.dumps_sorted value) ∈ located (read_all input_files)) as H0.
  { apply located_read_all. by exists f, key, value. }
  assert (forall c, (c, [(f, key)]) ∈ build_cluster_map (read_all input_files) ->
                    c = Json.dumps_sorted value) as Hown.
  { intros c Hc. apply cluster_map_elem in Hc as [_ Hc].
    assert ((f, key) ∈ locations_of c (located (read_all input_files))) as Hin
      by (rewrite <- Hc; left).
    apply locations_of_elem in Hin.
    by apply (NoDup_fst_functional _ _ _ _ _ _ Hnd Hin H0). }
  unfold DiffOperations.in_output, DiffOperations.compare_clusters,
    DiffOperations.keep_unique, DiffOperations.same_dump.
  split; [split|].
  - intros [v Hv]. apply keeps_Some in Hv as [Hv | Hv]; [done|].
    pose proof (Hown v Hv) as ->.
    apply cluster_map_elem in Hv as [_ Hv].
    intros f' key' value' Hat' Hsame.
    assert ((f', key') ∈ locations_of (Json.dumps_sorted value)
                           (located (read_all input_files))) as Hin.
    { apply locations_of_elem. rewrite <- Hsame. apply located_read_all.
      by exists f', key', value'. }
    rewrite <- Hv in Hin. by apply list_elem_of_singleton in Hin.
  - intros Hall. apply keeps_is_Some. right. exists (Json.dumps_sorted value).
    apply cluster_map_elem.
    assert (locations_of (Json.dumps_sorted value) (located (read_all input_files))
            = [(f, key)]) as ->; [|done].
    apply only_element.
    + by apply locations_of_NoDup.
    + intros [f' key'] Hin. apply locations_of_elem in Hin.
      apply located_read_all in Hin as (f2 & k2 & v2 & Hat2 & [= -> -> Hd]).
      by apply (Hall f2 k2 v2).
    + by apply locations_of_elem.
  - intros v Hv. apply keeps_Some in Hv as [Hv | Hv]; [done|].
    by apply Hown.
Qed.

(** C2, as the code has it.  Over snapshot files whose objects have each
    label once, and for a cluster that its snapshot holds under one label
    only: the cluster is in the diff output, under its snapshot and label,
    if and only if no other snapshot holds a cluster with the same
    serialization under sorted keys; and what the output holds there is
    that serialization read back.  The serialization sorts the keys of
    objects and keeps the order of lists. *)
Theorem diff_keeps_clusters_of_one_snapshot
    (input_files : list string) (f key : string) (value : json) :
  (forall g, NoDup (load g).*1) ->
  cluster_at input_files f key value ->
  (forall key' value',
     (key', value') ∈ load f -> DiffOperations.same_dump value' value ->
     key' = key) ->
  (in_output input_files f key <->
   forall f' key' value',
     f' <> f ->
     cluster_at input_files f' key' value' ->
     ~ DiffOperations.same_dump value' value) /\
  (forall v,
     output_cluster (compare_clusters input_files) f key = Some v ->
     v = Json.loads (Json.dumps_sorted value)).
Proof.
  intros Hload Hat Hone.
  destruct (cluster_reported_iff_found_once input_files f key value Hload Hat)
    as [Hiff Hvalue].
  split; [|done]. rewrite Hiff. split.
  - intros Hall f' key' value' Hne Hat' Hsame.
    apply Hne. by injection (Hall f' key' value' Hat' Hsame).
  - intros Hother f' key' value' Hat' Hsame.
    destruct (decide (f' = f)) as [-> | Hne].
    + f_equal. apply (Hone key' value'); [|done]. by destruct Hat'.
    + by destruct (Hother f' key' value' Hne Hat').
Qed.

End DiffFacts.

Example diff_of_reordered_members :
  DiffOperations.compare_clusters Scenario.snapshots ["s1.json"; "s2.json"]
  = [("s1.json", [("clusters_1", JList [Scenario.member_a; Scenario.member_b])]);
     ("s2.json", [("clusters_1", JList [Scenario.member_b; Scenario.member_a])])].
Proof. vm_compute. reflexivity. Qed.

Example diff_of_reordered_keys :
  DiffOperations.same_dump Scenario.member_b Scenario.member_b'.
Proof. vm_compute. reflexivity. Qed.

Example diff_of_one_snapshot_with_a_repeated_cluster :
  DiffOperations.compare_clusters Scenario.snapshots ["s3.json"] = [].
Proof. vm_compute. reflexivity. Qed.

(** The two snapshots hold the same cluster up to the order of its
    members, and the diff output still reports it under both. *)
Lemma diff_depends_on_member_order :
  ~ DiffOperations.diff_exclusive Scenario.snapshots ["s1.json"; "s2.json"].
Proof.
  intros H.
  destruct (H "s1.json" "clusters_1" (JList [Scenario.member_a; Scenario.member_b]))
    as [Hfwd _].
  - split; [left | left].
  - apply Hfwd.
    + unfold DiffOperations.in_output. rewrite diff_of_reordered_members. by eexists.
    + exists "s2.json", "clusters_1", (JList [Scenario.member_b'; Scenario.member_a]).
      split; [discriminate|]. split; [split; [right; left | left]|].
      unfold DiffOperations.canonical_equal.
      change (map Json.dumps_sorted [Scenario.member_b'; Scenario.member_a])
        with [Json.dumps_sorted Scenario.member_b'; Json.dumps_sorted Scenario.member_a].
      rewrite <- diff_of_reordered_keys. apply perm_swap.
Qed.

Lemma snapshots_have_distinct_labels g : NoDup (Scenario.snapshots g).*1.
Proof.
  unfold Scenario.snapshots.
  destruct (String.eqb g "s1.json"); [apply NoDup_singleton|].
  destruct (String.eqb g "s2.json"); [apply NoDup_singleton|].
  destruct (String.eqb g "s3.json"); [|constructor].
  apply NoDup_cons. split; [|apply NoDup_singleton].
  intros Hin. apply list_elem_of_singleton in Hin. discriminate.
Qed.

Lemma first_snapshot_has_one_label key' value' :
  (key', value') ∈ Scenario.snapshots "s1.json" ->
  DiffOperations.same_dump value' (JList [Scenario.member_a; Scenario.member_b]) ->
  key' = "clusters_1".
Proof.
  intros Hin _. change (Scenario.snapshots "s1.json")
    with [("clusters_1", JList [Scenario.member_a; Scenario.member_b])] in Hin.
  apply list_elem_of_singleton in Hin. congruence.
Qed.

Lemma diff_keeps_clusters_of_one_snapshot_witness :
  (forall g, NoDup (Scenario.snapshots g).*1) /\
  DiffOperations.cluster_at Scenario.snapshots ["s1.json"; "s2.json"]
    "s1.json" "clusters_1" (JList [Scenario.member_a; Scenario.member_b]) /\
  (DiffOperations.in_output Scenario.snapshots ["s1.json"; "s2.json"]
     "s1.json" "clusters_1" <->
   forall f' key' value',
     f' <> "s1.json" ->
     DiffOperations.cluster_at Scenario.snapshots ["s1.json"; "s2.json"]
       f' key' value' ->
     ~ DiffOperations.same_dump value'
         (JList [Scenario.member_a; Scenario.member_b])).
Proof.
  assert (DiffOperations.cluster_at Scenario.snapshots ["s1.json"; "s2.json"]
            "s1.json" "clusters_1" (JList [Scenario.member_a; Scenario.member_b]))
    as Hat by (split; [left | left]).
  split; [exact snapshots_have_distinct_labels|]. split; [exact Hat|].
  exact (proj1 (diff_keeps_clusters_of_one_snapshot Scenario.snapshots
                  ["s1.json"; "s2.json"] "s1.json" "clusters_1"
                  (JList [Scenario.member_a; Scenario.member_b])
                  snapshots_have_distinct_labels Hat
                  first_snapshot_has_one_label)).
Defined.

(* ===================================================================== *)
(** * The serialization does not depend on the order of keys *)
(* ===================================================================== *)

Section KeyOrderFacts.

Lemma leb_iff (a b : string) :
  String.leb a b = true <-> OrderedTypeEx.String_as_OT.lt a b \/ a = b.
Proof.
  unfold String.leb.
  rewrite <- OrderedTypeEx.String_as_OT.cmp_lt, <- OrderedTypeEx.String_as_OT.cmp_eq.
  unfold OrderedTypeEx.String_as_OT.cmp.
  destruct (String.compare a b); split; try done.
  - intros _. by right.
  - intros _. by left.
  - by intros [? | ?].
Qed.

Lemma leb_trans (a b c : string) :
  String.leb a b = true -> String.leb b c = true -> String.leb a c = true.
Proof.
  rewrite !leb_iff. intros [Hab | ->] [Hbc | ->]; try (by left); try (by right).
  left. by eapply OrderedTypeEx.String_as_OT.lt_trans.
Qed.

(** Sorted by key, with no key twice. *)
Local Abbreviation by_key :=
  (fun a b : string * json => String.leb a.1 b.1 = true /\ (a.1 = b.1 -> a = b)).

Lemma by_key_antisym : AntiSymm (=) by_key.
Proof.
  intros a b [Hab Ha] [Hba _]. apply Ha. by apply String.leb_antisym.
Qed.

Lemma insert_item_perm x l : Json.insert_item x l ≡ₚ x :: l.
Proof.
  induction l as [|y l IH]; simpl; [done|].
  destruct (Json.key_le x y); [done|].
  rewrite IH. apply perm_swap.
Qed.

Lemma sort_items_perm l : Json.sort_items l ≡ₚ l.
Proof.
  induction l as [|x l IH]; [done|].
  change (Json.sort_items (x :: l)) with (Json.insert_item x (Json.sort_items l)).
  by rewrite insert_item_perm, IH.
Qed.

Lemma insert_item_sorted x l :
  StronglySorted by_key l -> x.1 ∉ l.*1 ->
  StronglySorted by_key (Json.insert_item x l).
Proof.
  induction 1 as [|y l Hl IH Hy]; intros Hx; simpl.
  { repeat constructor. }
  rewrite fmap_cons in Hx. apply not_elem_of_cons in Hx as [Hxy Hx].
  unfold Json.key_le. destruct (String.leb x.1 y.1) eqn:E.
  - constructor; [by constructor|]. constructor; [by split|].
    rewrite Forall_forall in Hy |- *. intros z Hz.
    destruct (Hy z Hz) as [Hyz _]. split; [by eapply leb_trans|].
    intros Heq. destruct Hx. rewrite Heq. by apply list_elem_of_fmap_2.
  - constructor; [by apply IH|].
    rewrite Forall_forall in Hy |- *. intros z Hz.
    rewrite insert_item_perm in Hz. apply elem_of_cons in Hz as [-> | Hz]; [|by apply Hy].
    split; [|by intros Heq].
    destruct (String.leb_total x.1 y.1) as [H | H]; [congruence | done].
Qed.

Lemma sort_items_sorted l :
  NoDup l.*1 -> StronglySorted by_key (Json.sort_items l).
Proof.
  induction l as [|x l IH]; intros Hnd; [constructor|].
  rewrite fmap_cons in Hnd. apply NoDup_cons in Hnd as [Hx Hnd].
  change (Json.sort_items (x :: l)) with (Json.insert_item x (Json.sort_items l)).
  apply insert_item_sorted; [by apply IH|].
  intros Hin. apply Hx.
  apply list_elem_of_fmap in Hin as (y & -> & Hy).
  rewrite sort_items_perm in Hy. by apply list_elem_of_fmap_2.
Qed.

Lemma sort_items_unique l l' :
  l ≡ₚ l' -> NoDup l.*1 -> Json.sort_items l = Json.sort_items l'.
Proof.
  intros Hperm Hnd.
  assert (NoDup l'.*1) as Hnd' by by rewrite <- Hperm.
  apply (@StronglySorted_unique _ by_key by_key_antisym).
  - by apply sort_items_sorted.
  - by apply sort_items_sorted.
  - by rewrite !sort_items_perm.
Qed.

(** Two objects with the same fields, in any order, have the same
    serialization. *)
Lemma same_dump_ignores_key_order (d d' : list (string * json)) :
  d ≡ₚ d' -> NoDup d.*1 ->
  DiffOperations.same_dump (JDict d) (JDict d').
Proof.
  intros Hperm Hnd. unfold DiffOperations.same_dump. simpl. f_equal.
  apply sort_items_unique.
  - by apply Permutation_map.
  - assert ((map (fun kv : string * json => (kv.1, Json.dumps_sorted kv.2)) d).*1
            = d.*1) as ->; [|done].
    clear. induction d as [|[k v] d IH]; [done|]. simpl. by f_equal.
Qed.

End KeyOrderFacts.

(* ===================================================================== *)
(** * More about the batch clustering *)
(* ===================================================================== *)

Section BatchRunMore.

Variable evaluate_similarity :
  string -> string -> option (gmap string (gmap string Q)).
Variable key : string.

Local Abbreviation scan_clusters := ClusteringOperations.scan_clusters.
Local Abbreviation member_matches := ClusteringOperations.member_matches.
Local Abbreviation cluster_items :=
  (ClusteringOperations.cluster_items evaluate_similarity).
Local Abbreviation run_threshold :=
  (ClusteringOperations.run_threshold evaluate_similarity).
Local Abbreviation batch_clusters :=
  (ClusteringOperations.batch_clusters evaluate_similarity).
Local Abbreviation linked := (ClusteringOperations.linked evaluate_similarity).
Local Abbreviation cache_sound :=
  (ClusteringOperations.cache_sound evaluate_similarity key).
Local Abbreviation available := (BatchRun.available evaluate_similarity key).
Local Abbreviation cache_exact := (BatchRun.cache_exact evaluate_similarity key).
Local Abbreviation matches := BatchRun.matches.

Lemma scan_clusters_first cache scores item_id threshold pre c post :
  Forall (fun c' => existsb (member_matches cache scores item_id threshold) c' = false)
         pre ->
  existsb (member_matches cache scores item_id threshold) c = true ->
  scan_clusters cache scores item_id threshold (pre ++ c :: post)
  = Some (pre ++ (c ++ [item_id]) :: post).
Proof.
  intros Hpre Hc. induction Hpre as [|c' pre Hc' _ IH]; simpl.
  - by rewrite Hc.
  - by rewrite Hc', IH.
Qed.

Lemma scan_clusters_no_match cache scores item_id threshold clusters :
  Forall (fun c => existsb (member_matches cache scores item_id threshold) c = false)
         clusters ->
  scan_clusters cache scores item_id threshold clusters = None.
Proof.
  induction 1 as [|c cl Hc _ IH]; simpl; [done|]. by rewrite Hc, IH.
Qed.

Lemma existsb_false_forall (f : string -> bool) (c : list string) :
  existsb f c = false <-> forall m, m ∈ c -> f m = false.
Proof.
  induction c as [|x c IH]; simpl.
  - split; [intros _ m Hm; by apply elem_of_nil in Hm | done].
  - rewrite orb_false_iff, IH. split.
    + intros [Hx Hc] m Hm. apply elem_of_cons in Hm as [-> | Hm]; [done | by apply Hc].
    + intros H. split; [apply H; left | intros m Hm; apply H; by right].
Qed.

(** X1.  When the similarity of the item is there, one step of the batch
    clustering appends the item to the first cluster, in creation order,
    that has a member passing the score test, whatever the later clusters
    hold; it starts a new singleton cluster exactly when no member of any
    cluster passes the test. *)
Theorem cluster_items_first_match
    (cache : gmap string (gmap string (gmap string Q)))
    (item_id : string) (threshold : Q) (clusters : list (list string)) :
  is_Some ((cluster_items cache item_id key threshold clusters).1 !! item_id) ->
  (forall pre c post,
     clusters = pre ++ c :: post ->
     (forall c' m, c' ∈ pre -> m ∈ c' ->
        matches (cluster_items cache item_id key threshold clusters).1
                item_id threshold m = false) ->
     (exists m, m ∈ c /\
        matches (cluster_items cache item_id key threshold clusters).1
                item_id threshold m = true) ->
     (cluster_items cache item_id key threshold clusters).2
     = pre ++ (c ++ [item_id]) :: post) /\
  ((forall c m, c ∈ clusters -> m ∈ c ->
      matches (cluster_items cache item_id key threshold clusters).1
              item_id threshold m = false) <->
   (cluster_items cache item_id key threshold clusters).2 = clusters ++ [[item_id]]).
Proof.
  unfold BatchRun.matches, ClusteringOperations.cluster_items.
  set (filled := match cache !! item_id with
                 | Some _ => Some cache
                 | None => match evaluate_similarity item_id key with
                           | Some similarity => Some (<[item_id:=similarity]> cache)
                           | None => None
                           end
                 end).
  destruct filled as [cache'|] eqn:Hfilled; simpl.
  2:{ intros [x Hx]. exfalso. destruct (cache !! item_id); [done|].
      by destruct (evaluate_similarity item_id key). }
  intros _.
  set (scores := default ∅ (default ∅ (cache' !! item_id) !! item_id)).
  assert (forall r : option (list (list string)),
            (match r with
             | Some clusters' => (cache', clusters')
             | None => (cache', clusters ++ [[item_id]])
             end).1 = cache') as Hfst by (by intros [?|]).
  rewrite !Hfst. fold scores. split.
  - intros pre c post -> Hpre (m & Hm & Hmatch).
    rewrite scan_clusters_first; [done| |].
    + apply Forall_forall. intros c' Hc'. apply existsb_false_forall.
      intros m' Hm'. by apply (Hpre c').
    + apply existsb_exists. exists m. split; [by apply list_elem_of_In | done].
  - split.
    + intros Hnone. rewrite scan_clusters_no_match; [done|].
      apply Forall_forall. intros c Hc. apply existsb_false_forall.
      intros m Hm. by apply (Hnone c).
    + destruct (scan_clusters cache' scores item_id threshold clusters)
        as [cl'|] eqn:Hscan; simpl.
      * intros Heq. apply scan_clusters_Some in Hscan as (pre & c & post & -> & -> & _).
        apply (f_equal length) in Heq. rewrite !length_app in Heq. simpl in Heq. lia.
      * intros _ c m Hc Hm. apply scan_clusters_None in Hscan.
        rewrite Forall_forall in Hscan. specialize (Hscan c Hc).
        by apply (existsb_false_forall _ c).
Qed.

(** ** A whole run *)

Lemma cache_exact_sound processed cache :
  cache_exact processed cache -> cache_sound cache.
Proof.
  intros Hex id sim Hid. rewrite Hex in Hid. by case_bool_decide.
Qed.

(** One step under the exactness of the cache. *)
Lemma cluster_items_exact processed cache item_id threshold clusters :
  cache_exact processed cache ->
  match evaluate_similarity item_id key with
  | None => cluster_items cache item_id key threshold clusters = (cache, clusters)
  | Some similarity =>
      cluster_items cache item_id key threshold clusters
      = (<[item_id := similarity]> cache,
         match scan_clusters (<[item_id := similarity]> cache)
                 (default ∅ (similarity !! item_id)) item_id threshold clusters with
         | Some clusters' => clusters'
         | None => clusters ++ [[item_id]]
         end)
  end /\
  cache_exact (processed ++ [item_id])
    (cluster_items cache item_id key threshold clusters).1.
Proof.
  intros Hex. unfold ClusteringOperations.cluster_items.
  pose proof (Hex item_id) as Hitem.
  destruct (evaluate_similarity item_id key) as [sim|] eqn:Hev.
  - assert (match cache !! item_id with
            | Some _ => Some cache
            | None => Some (<[item_id:=sim]> cache)
            end = Some (<[item_id:=sim]> cache)) as ->.
    { destruct (cache !! item_id) as [s|] eqn:Hc; [|done].
      case_bool_decide; [|done]. injection Hitem as ->. by rewrite insert_id. }
    rewrite lookup_insert_eq. simpl. split.
    + by destruct (scan_clusters _ _ _ _ _).
    + assert (forall r : option (list (list string)),
                (match r with
                 | Some clusters' => (<[item_id:=sim]> cache, clusters')
                 | None => (<[item_id:=sim]> cache, clusters ++ [[item_id]])
                 end).1 = <[item_id:=sim]> cache) as -> by (by intros [?|]).
      intros id. destruct (decide (id = item_id)) as [-> | Hne].
      * rewrite lookup_insert_eq, bool_decide_eq_true_2; [done|].
        apply elem_of_app. right. left.
      * rewrite lookup_insert_ne by done. rewrite Hex.
        assert (bool_decide (id ∈ processed ++ [item_id])
                = bool_decide (id ∈ processed)) as ->; [|done].
        apply bool_decide_ext. rewrite elem_of_app, list_elem_of_singleton. tauto.
  - assert (cache !! item_id = None) as ->.
    { rewrite Hitem. by case_bool_decide. }
    simpl. split; [done|].
    intros id. rewrite Hex. destruct (decide (id = item_id)) as [-> | Hne].
    + rewrite Hev. by repeat case_bool_decide.
    + assert (bool_decide (id ∈ processed ++ [item_id])
              = bool_decide (id ∈ processed)) as ->; [|done].
      apply bool_decide_ext. rewrite elem_of_app, list_elem_of_singleton. tauto.
Qed.

Lemma scan_clusters_concat cache scores item_id threshold clusters :
  concat (match scan_clusters cache scores item_id threshold clusters with
          | Some clusters' => clusters'
          | None => clusters ++ [[item_id]]
          end) ≡ₚ concat clusters ++ [item_id] /\
  (Forall (fun c => c <> []) clusters ->
   Forall (fun c => c <> [])
     (match scan_clusters cache scores item_id threshold clusters with
      | Some clusters' => clusters'
      | None => clusters ++ [[item_id]]
      end)).
Proof.
  destruct (scan_clusters cache scores item_id threshold clusters) as [cl'|] eqn:Hs.
  - apply scan_clusters_Some in Hs as (pre & c & post & -> & -> & _). split.
    + rewrite !concat_app. simpl. rewrite <- !app_assoc.
      f_equiv. f_equiv. apply Permutation_app_comm.
    + rewrite !Forall_app, !Forall_cons. intros (? & _ & ?).
      split; [done|]. split; [by destruct c | done].
  - split; [by rewrite concat_app|].
    intros H. apply Forall_app. split; [done|]. by constructor.
Qed.

Lemma run_facts threshold id_list processed st :
  cache_exact processed st.1 ->
  cache_exact (processed ++ id_list)
    (fold_left (fun st id => cluster_items st.1 id key threshold st.2) id_list st).1 /\
  concat (fold_left (fun st id => cluster_items st.1 id key threshold st.2)
                    id_list st).2
    ≡ₚ concat st.2 ++ available id_list /\
  (Forall (fun c => c <> []) st.2 ->
   Forall (fun c => c <> [])
     (fold_left (fun st id => cluster_items st.1 id key threshold st.2) id_list st).2).
Proof.
  revert processed st. induction id_list as [|id ids IH]; intros processed st Hex.
  { cbn [fold_left]. unfold BatchRun.available.
    rewrite filter_nil, !app_nil_r. done. }
  cbn [fold_left].
  destruct (cluster_items_exact processed st.1 id threshold st.2 Hex) as [Hstep Hex'].
  destruct (IH (processed ++ [id]) _ Hex') as (Hc & Hp & Hn).
  rewrite <- app_assoc in Hc. split; [exact Hc|].
  unfold BatchRun.available in *. rewrite filter_cons.
  destruct (evaluate_similarity id key) as [sim|] eqn:Hev.
  - rewrite decide_True by (by eexists).
    rewrite Hstep in Hp, Hn |- *. simpl in Hp, Hn.
    destruct (scan_clusters_concat (<[id:=sim]> st.1) (default ∅ (sim !! id))
                id threshold st.2) as [Hperm Hne].
    split.
    + rewrite Hp, Hperm, <- app_assoc. done.
    + intros H. apply Hn, Hne, H.
  - rewrite decide_False by (by intros [? ?]).
    rewrite Hstep in Hp, Hn |- *. done.
Qed.

(** X2.  A threshold run clusters every id whose similarity is there and
    no other: the members of its clusters, taken together, are these ids,
    each as often as the id list has it; no cluster is empty; and over an
    id list without repetition no id is in two clusters or twice in one. *)
Theorem batch_clusters_partition (threshold : Q) (id_list : list string) :
  concat (batch_clusters key threshold id_list) ≡ₚ available id_list /\
  Forall (fun c => c <> []) (batch_clusters key threshold id_list) /\
  (NoDup id_list -> NoDup (concat (batch_clusters key threshold id_list))).
Proof.
  destruct (run_facts threshold id_list [] (∅, [])) as (_ & Hp & Hn).
  { intros id. cbn [fst]. rewrite lookup_empty, bool_decide_eq_false_2; [done|].
    apply not_elem_of_nil. }
  simpl in Hp. unfold ClusteringOperations.batch_clusters,
    ClusteringOperations.run_threshold.
  split; [exact Hp|]. split; [by apply Hn|].
  intros Hnd. rewrite Hp. by apply NoDup_filter.
Qed.

(** X3.  The similarity cache after a threshold run holds, for every id of
    the id list, what the provider returned for it, and nothing for any
    other id: each result is kept once computed and no id outside the list
    is looked up. *)
Theorem run_threshold_cache (threshold : Q) (id_list : list string) (id : string) :
  (run_threshold key threshold id_list).1 !! id
  = if bool_decide (id ∈ id_list) then evaluate_similarity id key else None.
Proof.
  destruct (run_facts threshold id_list [] (∅, [])) as (Hc & _ & _).
  { intros id'. cbn [fst]. rewrite lookup_empty, bool_decide_eq_false_2; [done|].
    apply not_elem_of_nil. }
  apply Hc.
Qed.

(** X4.  When no two ids of the id list are linked at the threshold (no
    direct or reverse score reaches it), the run puts every id whose
    similarity is there in a cluster of its own, in the order of the id
    list. *)
Theorem unlinked_ids_stay_single (threshold : Q) (id_list : list string) :
  (forall a b, a ∈ id_list -> b ∈ id_list -> ~ linked key threshold a b) ->
  batch_clusters key threshold id_list = (fun id => [id]) <$> available id_list.
Proof.
  intros Hfar.
  assert (forall ids processed st,
            cache_exact processed st.1 ->
            (forall a, a ∈ processed ++ ids -> a ∈ id_list) ->
            st.2 = (fun id => [id]) <$> available processed ->
            (fold_left (fun st id => cluster_items st.1 id key threshold st.2)
                       ids st).2
            = (fun id => [id]) <$> available (processed ++ ids)) as Hgen.
  { induction ids as [|id ids IH]; intros processed st Hex Hin Hst.
    { cbn [fold_left]. by rewrite app_nil_r. }
    cbn [fold_left].
    destruct (cluster_items_exact processed st.1 id threshold st.2 Hex)
      as [Hstep Hex'].
    replace (processed ++ id :: ids) with ((processed ++ [id]) ++ ids)
      by (by rewrite <- app_assoc).
    apply IH; [done | by intros a; rewrite <- app_assoc; apply Hin |].
    unfold BatchRun.available in *. rewrite filter_app, filter_cons, filter_nil.
    destruct (evaluate_similarity id key) as [sim|] eqn:Hev.
    - rewrite decide_True by (by eexists). rewrite Hstep. cbn [snd].
      rewrite scan_clusters_no_match; [by rewrite fmap_app, Hst|].
      rewrite Hst. apply Forall_forall. intros c Hc.
      apply list_elem_of_fmap in Hc as (m & -> & Hm).
      apply list_elem_of_filter in Hm as [_ Hm].
      simpl. rewrite orb_false_r.
      destruct (member_matches _ _ id threshold m) eqn:Hmatch; [|done].
      exfalso. apply (Hfar id m).
      + apply Hin, elem_of_app. right. left.
      + apply Hin, elem_of_app. by left.
      + eapply member_matches_linked; [| |exact Hmatch].
        * eapply cache_exact_sound. rewrite Hstep in Hex'. exact Hex'.
        * apply lookup_insert_eq.
    - rewrite decide_False by (by intros [? ?]). rewrite Hstep.
      by rewrite app_nil_r. }
  unfold ClusteringOperations.batch_clusters, ClusteringOperations.run_threshold.
  apply (Hgen id_list [] (∅, [])); [|done..].
  intros id. cbn [fst]. rewrite lookup_empty, bool_decide_eq_false_2; [done|].
  apply not_elem_of_nil.
Qed.

End BatchRunMore.

(* ===================================================================== *)
(** * The files of a threshold run *)
(* ===================================================================== *)

Section OutputFacts.

Local Abbreviation label := ClusteringOutput.label.
Local Abbreviation render := ClusteringOutput.render.
Local Abbreviation cluster_output := ClusteringOutput.cluster_output.

Lemma str_inj a b : Py.str a = Py.str b -> a = b.
Proof.
  intros H. apply (f_equal Py.int) in H. rewrite !int_str in H. congruence.
Qed.

Lemma label_inj i j : label i = label j -> i = j.
Proof.
  unfold ClusteringOutput.label. intros H.
  assert (Py.str (Z.of_nat i + 1) = Py.str (Z.of_nat j + 1)) as Hs.
  { revert H. generalize (Py.str (Z.of_nat i + 1)) (Py.str (Z.of_nat j + 1)).
    intros s s' H. by injection H. }
  apply str_inj in Hs. lia.
Qed.

Lemma dict_set_fresh (d : list (string * json)) k v :
  k ∉ d.*1 -> Dict.set String.eqb d k v = d ++ [(k, v)].
Proof.
  induction d as [|[k' v'] d IH]; intros Hk; [done|].
  rewrite fmap_cons in Hk. apply not_elem_of_cons in Hk as [Hne Hk]. simpl in Hne.
  cbn [Dict.set]. assert (String.eqb k' k = false) as ->.
  { apply String.eqb_neq. congruence. }
  simpl. f_equal. by apply IH.
Qed.

(** The entry of a cluster, when it has one. *)
Local Abbreviation entry :=
  (fun (id_to_question : gmap string string) (ic : nat * list string) =>
     match ic.2 with
     | [] => None
     | _ :: _ => Some (label ic.1, JList (render id_to_question <$> ic.2))
     end).

Lemma cluster_output_from id_to_question (k : nat) clusters output :
  (forall l, l ∈ output.*1 -> exists j, (j < k)%nat /\ l = label j) ->
  fold_left
    (fun output ic =>
       match ic.2 with
       | [] => output
       | _ :: _ =>
           Dict.set String.eqb output (label ic.1)
             (JList (render id_to_question <$> ic.2))
       end)
    (imap (fun i c => (k + i, c)%nat) clusters) output
  = output ++ omap (entry id_to_question)
                   (imap (fun i c => (k + i, c)%nat) clusters).
Proof.
  revert k output. induction clusters as [|c clusters IH]; intros k output Hout.
  { simpl. by rewrite app_nil_r. }
  rewrite imap_cons. cbn [fold_left omap list_omap].
  assert (imap ((fun i c0 => ((k + i)%nat, c0)) ∘ S) clusters
          = imap (fun i c0 => ((S k + i)%nat, c0)) clusters) as ->.
  { apply imap_ext. intros i x _. simpl. f_equal. lia. }
  rewrite Nat.add_0_r. cbn [fst snd].
  destruct c as [|x c].
  - rewrite IH; [done|]. intros l Hl. destruct (Hout l Hl) as (j & Hj & ->).
    exists j. split; [lia | done].
  - cbn [fst snd]. rewrite dict_set_fresh.
    + rewrite IH; [by rewrite <- app_assoc|].
      intros l Hl. rewrite fmap_app in Hl. apply elem_of_app in Hl as [Hl | Hl].
      * destruct (Hout l Hl) as (j & Hj & ->). exists j. split; [lia | done].
      * apply list_elem_of_singleton in Hl as ->. exists k. split; [lia | done].
    + intros Hl. destruct (Hout _ Hl) as (j & Hj & Heq).
      apply label_inj in Heq. lia.
Qed.

Lemma cluster_output_entries id_to_question clusters :
  cluster_output id_to_question clusters
  = omap (entry id_to_question) (imap pair clusters).
Proof.
  unfold ClusteringOutput.cluster_output.
  apply (cluster_output_from id_to_question 0 clusters []).
  intros l Hl. by apply elem_of_nil in Hl.
Qed.

Lemma cluster_output_elem id_to_question clusters l v :
  (l, v) ∈ cluster_output id_to_question clusters <->
  exists i c,
    clusters !! i = Some c /\ c <> [] /\
    l = label i /\ v = JList (render id_to_question <$> c).
Proof.
  rewrite cluster_output_entries, list_elem_of_omap. split.
  - intros ([i c] & Hic & Hentry).
    apply elem_of_lookup_imap in Hic as (i' & c' & [= -> ->] & Hi).
    simpl in Hentry. destruct c' as [|x c']; [done|]. injection Hentry as <- <-.
    by exists i', (x :: c').
  - intros (i & c & Hi & Hne & -> & ->). exists (i, c). split.
    + apply elem_of_lookup_imap. by exists i, c.
    + simpl. by destruct c.
Qed.

(** X5.  The clustering file of a run has one entry for every non-empty
    cluster, under the label made of its position counted from one, with
    the ids of its members in their order: the labels are distinct, so no
    cluster overwrites another, and looking up the label of a cluster
    gives that cluster. *)
Theorem cluster_output_labels
    (id_to_question : gmap string string) (clusters : list (list string)) :
  NoDup (cluster_output id_to_question clusters).*1 /\
  (forall i c,
     clusters !! i = Some c -> c <> [] ->
     Dict.get String.eqb (cluster_output id_to_question clusters) (label i)
     = Some (JList (render id_to_question <$> c))) /\
  (forall l,
     l ∈ (cluster_output id_to_question clusters).*1 <->
     exists i c, clusters !! i = Some c /\ c <> [] /\ l = label i).
Proof.
  assert (NoDup (cluster_output id_to_question clusters).*1) as Hnd.
  { rewrite cluster_output_entries.
    assert (forall k, NoDup (omap (entry id_to_question)
                               (imap (fun i c => (k + i, c)%nat) clusters)).*1 /\
                      forall l, l ∈ (omap (entry id_to_question)
                               (imap (fun i c => (k + i, c)%nat) clusters)).*1 ->
                                exists j, (k <= j)%nat /\ l = label j) as Hgen.
    { induction clusters as [|c clusters IH]; intros k.
      { split; [constructor|]. intros l Hl. by apply elem_of_nil in Hl. }
      rewrite imap_cons. cbn [omap list_omap].
      assert (imap ((fun i c0 => ((k + i)%nat, c0)) ∘ S) clusters
              = imap (fun i c0 => ((S k + i)%nat, c0)) clusters) as ->.
      { apply imap_ext. intros i x _. simpl. f_equal. lia. }
      destruct (IH (S k)) as [Hnd Hlab].
      rewrite Nat.add_0_r. cbn [fst snd]. destruct c as [|x c].
      - split; [done|]. intros l Hl. destruct (Hlab l Hl) as (j & Hj & ->).
        exists j. split; [lia | done].
      - rewrite fmap_cons. split.
        + apply NoDup_cons. split; [|done]. simpl. intros Hl.
          destruct (Hlab _ Hl) as (j & Hj & Heq). apply label_inj in Heq. lia.
        + intros l Hl. apply elem_of_cons in Hl as [-> | Hl].
          * exists k. split; [lia | done].
          * destruct (Hlab l Hl) as (j & Hj & ->). exists j. split; [lia | done]. }
    apply (Hgen 0%nat). }
  split; [exact Hnd|]. split.
  - intros i c Hi Hne. apply (dict_get_NoDup String.eqb String.eqb_eq); [done|].
    apply cluster_output_elem. by exists i, c.
  - intros l. rewrite list_elem_of_fmap. split.
    + intros ([l' v] & -> & Hin). apply cluster_output_elem in Hin
        as (i & c & Hi & Hne & -> & _). by exists i, c.
    + intros (i & c & Hi & Hne & ->).
      exists (label i, JList (render id_to_question <$> c)). split; [done|].
      apply cluster_output_elem. by exists i, c.
Qed.

(** X6.  The cleaned file of a run holds exactly the clusters with at
    least two members, each under the label it has in the clustering file:
    dropping the singletons does not renumber the clusters that stay. *)
Theorem cleaned_output_keeps_labels
    (evaluate_similarity : string -> string -> option (gmap string (gmap string Q)))
    (id_to_question : gmap string string) (key : string) (threshold : Q)
    (id_list : list string) (l : string) (v : json) :
  (l, v) ∈ (ClusteringOutput.analyze_threshold evaluate_similarity id_to_question
              key threshold id_list).2 <->
  exists i c,
    ClusteringOperations.batch_clusters evaluate_similarity key threshold id_list
      !! i = Some c /\
    (2 <= length c)%nat /\
    l = label i /\ v = JList (render id_to_question <$> c).
Proof.
  unfold ClusteringOutput.analyze_threshold, ClusteringOperations.clean_clusters.
  cbn [snd]. rewrite list_elem_of_filter, cluster_output_elem. simpl. split.
  - intros [Hlen (i & c & Hi & Hne & -> & ->)]. exists i, c.
    apply Nat.ltb_lt in Hlen. rewrite length_fmap in Hlen. done.
  - intros (i & c & Hi & Hlen & -> & ->). split.
    + apply Nat.ltb_lt. rewrite length_fmap. lia.
    + exists i, c. split; [done|]. split; [|done]. intros ->. simpl in Hlen. lia.
Qed.

End OutputFacts.

Lemma cluster_items_first_match_witness :
  is_Some ((ClusteringOperations.cluster_items Scenario.triangle_similarity ∅ "c"
              "question.bge" 0.8%Q [["a"]; ["b"]]).1 !! "c") /\
  ((forall c m, c ∈ [["a"]; ["b"]] -> m ∈ c ->
      BatchRun.matches
        (ClusteringOperations.cluster_items Scenario.triangle_similarity ∅ "c"
           "question.bge" 0.8%Q [["a"]; ["b"]]).1 "c" 0.8%Q m = false) <->
   (ClusteringOperations.cluster_items Scenario.triangle_similarity ∅ "c"
      "question.bge" 0.8%Q [["a"]; ["b"]]).2 = [["a"]; ["b"]] ++ [["c"]]).
Proof.
  assert (is_Some ((ClusteringOperations.cluster_items Scenario.triangle_similarity
                      ∅ "c" "question.bge" 0.8%Q [["a"]; ["b"]]).1 !! "c")) as Hc.
  { vm_compute. by eexists. }
  split; [exact Hc|].
  exact (proj2 (cluster_items_first_match Scenario.triangle_similarity
                  "question.bge" ∅ "c" 0.8%Q [["a"]; ["b"]] Hc)).
Defined.

Example first_match_goes_to_the_earlier_cluster :
  (ClusteringOperations.cluster_items Scenario.triangle_similarity ∅ "c"
     "question.bge" 0.8%Q [["a"]; ["b"]]).2 = [["a"; "c"]; ["b"]].
Proof. vm_compute. reflexivity. Qed.

Lemma triangle_has_no_link_at_095 a b :
  a ∈ ["a"; "b"; "c"] -> b ∈ ["a"; "b"; "c"] ->
  ~ ClusteringOperations.linked Scenario.triangle_similarity "question.bge"
      0.95%Q a b.
Proof.
  intros Ha Hb (score & Hs & Hor).
  repeat (apply elem_of_cons in Ha as [-> | Ha]);
    try (by apply elem_of_nil in Ha);
    repeat (apply elem_of_cons in Hb as [-> | Hb]);
    try (by apply elem_of_nil in Hb);
    vm_compute in Hor; destruct Hor as [Hor | Hor]; try discriminate;
    injection Hor as <-; vm_compute in Hs; by apply Hs.
Qed.

Lemma unlinked_ids_stay_single_witness :
  (forall a b, a ∈ ["a"; "b"; "c"] -> b ∈ ["a"; "b"; "c"] ->
     ~ ClusteringOperations.linked Scenario.triangle_similarity "question.bge"
         0.95%Q a b) /\
  ClusteringOperations.batch_clusters Scenario.triangle_similarity "question.bge"
    0.95%Q ["a"; "b"; "c"]
  = (fun id => [id]) <$>
      BatchRun.available Scenario.triangle_similarity "question.bge" ["a"; "b"; "c"].
Proof.
  split; [exact triangle_has_no_link_at_095|].
  exact (unlinked_ids_stay_single Scenario.triangle_similarity "question.bge"
           0.95%Q ["a"; "b"; "c"] triangle_has_no_link_at_095).
Defined.

(* ===================================================================== *)
(** * More about the borderline resolution *)
(* ===================================================================== *)

Section ClusterProcessMore.

Variable threshold : option (gmap string ThresholdDoc.t).

Local Abbreviation thresholds_for := (CosineClusterer.thresholds_for threshold).



Section OneOracle.

Variable chat_content : string -> string -> option Str.t.

Local Abbreviation accepted := (CosineClusterer.accepted chat_content).
Local Abbreviation cluster_step := (CosineClusterer.cluster_step chat_content).
Local Abbreviation cluster_loop :=
  (CosineClusterer.cluster_loop chat_content threshold).
Local Abbreviation cluster_process :=
  (CosineClusterer.cluster_process chat_content threshold).

Lemma fold_cluster_step_sublist safe_t min_t subject l st :
  exists kept,
    kept `sublist_of` l /\
    Forall (accepted safe_t min_t subject) kept /\
    (Forall (accepted safe_t min_t subject) l -> kept = l) /\
    (fold_left (cluster_step safe_t min_t subject) l st).2 = st.2 ++ kept.*1 /\
    (fold_left (cluster_step safe_t min_t subject) l st).1
    = default st.1 (snd <$> last kept).
Proof.
  revert st. induction l as [|e l IH]; intros st.
  { exists []. cbn [fold_left]. rewrite app_nil_r. by repeat split. }
  cbn [fold_left].
  destruct (accepted_dec chat_content safe_t min_t subject e) as [Ha | Hn].
  - rewrite (cluster_step_accepted chat_content _ _ _ st e Ha).
    destruct (IH (e.2, st.2 ++ [e.1])) as (kept & Hsub & Hall & Hfull & H2 & H1).
    exists (e :: kept). split; [by apply sublist_skip|].
    split; [by constructor|]. split.
    { intros H. apply Forall_cons in H as [_ H]. by rewrite Hfull. }
    split.
    + rewrite H2. cbn [snd]. by rewrite <- app_assoc.
    + rewrite H1, last_cons. cbn [fst]. by destruct (last kept).
  - rewrite (cluster_step_rejected chat_content _ _ _ st e Hn).
    destruct (IH st) as (kept & Hsub & Hall & Hfull & H2 & H1).
    exists kept. split; [by apply sublist_cons|]. split; [done|].
    split; [|done]. intros H. apply Forall_cons in H as [H _]. done.
Qed.

(** The confirmed duplicates are picked out of the candidates in order. *)
Lemma cluster_loop_sublist (doc : SimilarIDs.t) :
  (cluster_loop doc).2 `sublist_of` (SimilarIDs.similar_id doc).*1.
Proof.
  rewrite (cluster_loop_fold chat_content threshold doc).
  destruct (fold_cluster_step_sublist
              (thresholds_for (SimilarIDs.embedding_key doc)).1
              (thresholds_for (SimilarIDs.embedding_key doc)).2
              (SimilarIDs.id doc) (SimilarIDs.similar_id doc) (0%Q, []))
    as (kept & Hsub & _ & _ & H2 & _).
  rewrite H2. cbn [snd app]. by apply fmap_sublist.
Qed.



End OneOracle.

End ClusterProcessMore.

(* ===================================================================== *)
(** * More about what [evaluate_similarity] hands over *)
(* ===================================================================== *)

Section VectorMore.

Variable float_sub : Q -> Q -> Q.

Local Abbreviation similarities := (VectorOperations.similarities float_sub).
Local Abbreviation sorted_desc_by_score := VectorOperations.sorted_desc_by_score.
Local Abbreviation similar_ids_of_hits :=
  (VectorOperations.similar_ids_of_hits float_sub).

Lemma dict_get_app_single (d : list (string * Q)) k v id :
  Dict.get String.eqb (d ++ [(k, v)]) id
  = match Dict.get String.eqb d id with
    | Some x => Some x
    | None => if String.eqb k id then Some v else None
    end.
Proof.
  induction d as [|[k' v'] d IH]; simpl; [done|].
  by destruct (String.eqb k' id).
Qed.

Lemma similarities_fold_NoDup item_id hits (d : list (string * Q)) :
  NoDup d.*1 ->
  NoDup (fold_left
           (fun d hit =>
              if negb (String.eqb hit.1 item_id)
              then Dict.set String.eqb d hit.1 (float_sub hit.2 1)
              else d) hits d).*1.
Proof.
  revert d. induction hits as [|hit hits IH]; intros d Hnd; [done|].
  cbn [fold_left]. apply IH. destruct (negb _); [|done].
  apply dict_set_NoDup; [apply String.eqb_eq | done].
Qed.

Lemma similarities_fold_get item_id hits (d : list (string * Q)) id :
  id <> item_id ->
  Dict.get String.eqb
    (fold_left
       (fun d hit =>
          if negb (String.eqb hit.1 item_id)
          then Dict.set String.eqb d hit.1 (float_sub hit.2 1)
          else d) hits d) id
  = match Dict.get String.eqb (reverse hits) id with
    | Some s => Some (float_sub s 1)
    | None => Dict.get String.eqb d id
    end.
Proof.
  intros Hid. revert d. induction hits as [|[k s] hits IH]; intros d; [done|].
  cbn [fold_left]. rewrite IH, reverse_cons, dict_get_app_single.
  destruct (Dict.get String.eqb (reverse hits) id) as [s'|]; [done|].
  cbn [fst snd]. destruct (String.eqb k id) eqn:Ek.
  - apply String.eqb_eq in Ek as ->.
    assert (String.eqb id item_id = false) as -> by (by apply String.eqb_neq).
    simpl. by rewrite dict_get_set_eq by apply String.eqb_eq.
  - apply String.eqb_neq in Ek.
    destruct (negb (String.eqb k item_id)); [|done].
    by rewrite dict_get_set_ne by (apply String.eqb_eq || done).
Qed.

Lemma dict_get_perm (l l' : list (string * Q)) k :
  NoDup l.*1 -> l ≡ₚ l' ->
  Dict.get String.eqb l k = Dict.get String.eqb l' k.
Proof.
  intros Hnd Hperm.
  assert (NoDup l'.*1) as Hnd' by (by rewrite <- Hperm).
  destruct (Dict.get String.eqb l k) as [v|] eqn:Hl.
  - apply (dict_get_Some_elem String.eqb String.eqb_eq) in Hl.
    symmetry. apply (dict_get_NoDup String.eqb String.eqb_eq); [done|].
    by rewrite <- Hperm.
  - apply (dict_get_None String.eqb String.eqb_eq) in Hl.
    symmetry. apply (dict_get_None String.eqb String.eqb_eq).
    by rewrite <- Hperm.
Qed.

Lemma similar_ids_of_hits_NoDup (item_id model_name : string) (hits : list (string * Q)) :
  NoDup (SimilarIDs.similar_id (similar_ids_of_hits item_id model_name hits)).*1.
Proof.
  cbn [similar_ids_of_hits VectorOperations.similar_ids_of_hits SimilarIDs.similar_id].
  rewrite sorted_desc_by_score_perm. apply similarities_fold_NoDup. constructor.
Qed.

(** X10.  The document that [evaluate_similarity] builds from the hits of
    the search: its candidates come in descending order of score, no
    candidate id comes twice, the queried record is not among them, and
    every other id of the hits is a candidate with what the float
    subtraction of one from the score of its last hit gives. *)
Theorem similar_ids_of_hits_content
    (item_id model_name : string) (hits : list (string * Q)) :
  CosineClusterer.sorted_desc
    (SimilarIDs.similar_id (similar_ids_of_hits item_id model_name hits)) /\
  NoDup (SimilarIDs.similar_id (similar_ids_of_hits item_id model_name hits)).*1 /\
  (item_id ∉ (SimilarIDs.similar_id (similar_ids_of_hits item_id model_name hits)).*1) /\
  (forall id, id <> item_id ->
     Dict.get String.eqb
       (SimilarIDs.similar_id (similar_ids_of_hits item_id model_name hits)) id
     = (fun s => float_sub s 1) <$> Dict.get String.eqb (reverse hits) id).
Proof.
  assert (NoDup (similarities item_id hits).*1) as Hnd.
  { apply similarities_fold_NoDup. constructor. }
  cbn [similar_ids_of_hits VectorOperations.similar_ids_of_hits SimilarIDs.similar_id].
  split; [apply sorted_desc_by_score_sorted|].
  split; [by rewrite sorted_desc_by_score_perm|].
  split; [rewrite sorted_desc_by_score_perm; apply similarities_without_self|].
  intros id Hid.
  rewrite <- (dict_get_perm (similarities item_id hits)) by
    (done || by rewrite sorted_desc_by_score_perm).
  unfold VectorOperations.similarities. rewrite similarities_fold_get by done.
  by destruct (Dict.get String.eqb (reverse hits) id).
Qed.

End VectorMore.

(* ===================================================================== *)
(** * More about merging *)
(* ===================================================================== *)

Lemma filter_fresh_key (k : string) (v : json) (d2 merged : list (string * json)) :
  k ∉ d2.*1 ->
  filter (fun kv : string * json => kv.1 ∉ (merged ++ [(k, v)]).*1) d2
  = filter (fun kv : string * json => kv.1 ∉ merged.*1) d2.
Proof.
  induction d2 as [|[k' v'] d2 IH]; intros Hk; [done|].
  rewrite fmap_cons in Hk. apply not_elem_of_cons in Hk as [Hkk Hk].
  simpl in Hkk. rewrite !filter_cons. cbn [fst].
  assert (k' ∉ (merged ++ [(k, v)]).*1 <-> k' ∉ merged.*1) as Hiff.
  { rewrite fmap_app, elem_of_app. simpl. rewrite list_elem_of_singleton.
    split; [tauto|]. intros Hn [H | H]; [done | congruence]. }
  destruct (decide (k' ∉ merged.*1)) as [Hin | Hin].
  - rewrite decide_True by by apply Hiff. f_equal. by apply IH.
  - rewrite decide_False by (by rewrite Hiff). by apply IH.
Qed.

Lemma second_loop (d2 merged : list (string * json)) :
  NoDup d2.*1 ->
  fold_left
    (fun merged kv =>
       if Dict.mem String.eqb merged kv.1 then merged
       else Dict.set String.eqb merged kv.1 kv.2) d2 merged
  = merged ++ filter (fun kv => kv.1 ∉ merged.*1) d2.
Proof.
  revert merged. induction d2 as [|[k v] d2 IH]; intros merged Hnd.
  { by rewrite app_nil_r. }
  rewrite fmap_cons in Hnd. apply NoDup_cons in Hnd as [Hk Hnd].
  cbn [fold_left fst snd]. rewrite filter_cons. unfold Dict.mem. cbn [fst].
  destruct (Dict.get String.eqb merged k) as [x|] eqn:Hg.
  - rewrite decide_False.
    2:{ intros Hn. apply Hn.
        apply (dict_get_Some_elem String.eqb String.eqb_eq) in Hg.
        apply list_elem_of_fmap. by exists (k, x). }
    by apply IH.
  - apply (dict_get_None String.eqb String.eqb_eq) in Hg.
    rewrite decide_True by done. rewrite dict_set_fresh by done.
    rewrite IH by done. rewrite <- app_assoc. f_equal. simpl. f_equal.
    by apply filter_fresh_key.
Qed.

Section MergeMore.

Variable merging_question : string -> list json -> json.
Variable merging_keys : list string.

Local Abbreviation merge_value :=
  (CosineClusters.merge_value merging_question merging_keys).
Local Abbreviation _merge_dicts :=
  (CosineClusters._merge_dicts merging_question merging_keys).

(** The value that the first loop of [_merge_dicts] puts under a key of
    [d1]. *)
Local Abbreviation merged_field :=
  (fun (d2 : list (string * json)) (model : string) (kv : string * json) =>
     (kv.1, match Dict.get String.eqb d2 kv.1 with
            | Some other => merge_value model kv.1 kv.2 other
            | None => kv.2
            end)).

Lemma first_loop d2 model (d1 merged : list (string * json)) :
  NoDup (merged.*1 ++ d1.*1) ->
  fold_left
    (fun merged kv =>
       match Dict.get String.eqb d2 kv.1 with
       | Some other =>
           Dict.set String.eqb merged kv.1 (merge_value model kv.1 kv.2 other)
       | None => Dict.set String.eqb merged kv.1 kv.2
       end) d1 merged
  = merged ++ (merged_field d2 model <$> d1).
Proof.
  revert merged. induction d1 as [|[k v] d1 IH]; intros merged Hnd.
  { by rewrite app_nil_r. }
  cbn [fold_left fst snd]. rewrite fmap_cons in Hnd.
  assert (k ∉ merged.*1) as Hk.
  { apply NoDup_app in Hnd as (_ & Hdisj & _). intros Hin.
    apply (Hdisj k Hin). left. }
  assert (forall x, NoDup ((merged ++ [(k, x)]).*1 ++ d1.*1)) as Hnd'.
  { intros x. rewrite fmap_app, <- app_assoc. done. }
  rewrite fmap_cons. cbn [fst snd].
  destruct (Dict.get String.eqb d2 k) as [other|];
    rewrite dict_set_fresh by done; rewrite IH by apply Hnd';
    by rewrite <- app_assoc.
Qed.

(** The merged dict, laid out. *)
Lemma merge_dicts_layout d1 d2 model :
  NoDup d1.*1 -> NoDup d2.*1 ->
  _merge_dicts d1 d2 model
  = (merged_field d2 model <$> d1) ++ filter (fun kv => kv.1 ∉ d1.*1) d2.
Proof.
  intros H1 H2. unfold CosineClusters._merge_dicts.
  rewrite first_loop by done. cbn [app]. rewrite second_loop by done.
  f_equal.
  assert ((merged_field d2 model <$> d1).*1 = d1.*1) as ->; [|done].
  clear. induction d1 as [|[k v] d1 IH]; [done|]. simpl. by f_equal.
Qed.

Lemma merged_keys (d1 d2 : list (string * json)) (model : string) :
  NoDup d1.*1 -> NoDup d2.*1 ->
  (_merge_dicts d1 d2 model).*1 = d1.*1 ++ filter (fun k => k ∉ d1.*1) (d2.*1).
Proof.
  intros H1 H2. rewrite merge_dicts_layout by done.
  rewrite fmap_app. f_equal.
  - clear. induction d1 as [|[k v] d1 IH]; [done|]. simpl. by f_equal.
  - clear. induction d2 as [|[k v] d2 IH]; [done|].
    rewrite fmap_cons, !filter_cons. cbn [fst].
    destruct (decide (k ∉ d1.*1)); [rewrite fmap_cons|]; by rewrite IH.
Qed.

Lemma merged_keys_NoDup (d1 d2 : list (string * json)) (model : string) :
  NoDup d1.*1 -> NoDup d2.*1 -> NoDup (_merge_dicts d1 d2 model).*1.
Proof.
  intros H1 H2. rewrite merged_keys by done.
  apply NoDup_app. split; [done|]. split.
  - intros k Hk Hin. apply list_elem_of_filter in Hin as [Hn _]. done.
  - by apply NoDup_filter.
Qed.

(** X12.  The keys of the merged record are the keys of the first record,
    in their order, followed by the keys that only the second record has,
    in their order; no key comes twice. *)
Theorem merge_dicts_keys (d1 d2 : list (string * json)) (model : string) :
  NoDup d1.*1 -> NoDup d2.*1 ->
  (_merge_dicts d1 d2 model).*1 = d1.*1 ++ filter (fun k => k ∉ d1.*1) d2.*1 /\
  NoDup (_merge_dicts d1 d2 model).*1.
Proof.
  intros H1 H2. split; [by apply merged_keys | by apply merged_keys_NoDup].
Qed.

(** X13.  Looking a key up in the merged record: a key of both records
    holds the oracle's fusion of the two values (first record's value
    first) when it is a merging key, and otherwise the list of the first
    value, or of its elements when it is a list, followed by the second,
    with nothing removed; a key of one record only holds that record's
    value; a key of neither is absent. *)
Theorem merge_dicts_lookup (d1 d2 : list (string * json)) (model k : string) :
  NoDup d1.*1 -> NoDup d2.*1 ->
  Dict.get String.eqb (_merge_dicts d1 d2 model) k
  = match Dict.get String.eqb d1 k, Dict.get String.eqb d2 k with
    | Some value, Some other =>
        Some (if bool_decide (k ∈ merging_keys)
              then merging_question model [value; other]
              else JList (CosineClusters.as_list value
                          ++ CosineClusters.as_list other))
    | Some value, None => Some value
    | None, found => found
    end.
Proof.
  intros H1 H2. pose proof (merged_keys_NoDup d1 d2 model H1 H2) as Hnd.
  rewrite merge_dicts_layout in Hnd |- * by done.
  destruct (Dict.get String.eqb d1 k) as [value|] eqn:Hg1.
  - apply (dict_get_Some_elem String.eqb String.eqb_eq) in Hg1.
    assert ((k, match Dict.get String.eqb d2 k with
                | Some other => merge_value model k value other
                | None => value
                end) ∈ (merged_field d2 model <$> d1)
                       ++ filter (fun kv : string * json => kv.1 ∉ d1.*1) d2) as Hin.
    { apply elem_of_app. left. apply list_elem_of_fmap. by exists (k, value). }
    apply (dict_get_NoDup String.eqb String.eqb_eq) in Hin; [|done].
    rewrite Hin. by destruct (Dict.get String.eqb d2 k).
  - apply (dict_get_None String.eqb String.eqb_eq) in Hg1.
    destruct (Dict.get String.eqb d2 k) as [other|] eqn:Hg2.
    + apply (dict_get_Some_elem String.eqb String.eqb_eq) in Hg2.
      apply (dict_get_NoDup String.eqb String.eqb_eq); [done|].
      apply elem_of_app. right. by apply list_elem_of_filter.
    + apply (dict_get_None String.eqb String.eqb_eq) in Hg2.
      apply (dict_get_None String.eqb String.eqb_eq).
      pose proof (merged_keys d1 d2 model H1 H2) as Hkeys.
      rewrite merge_dicts_layout in Hkeys by done. rewrite Hkeys.
      intros Hin. apply elem_of_app in Hin as [Hin | Hin]; [done|].
      apply list_elem_of_filter in Hin as [_ Hin]. done.
Qed.

(** X14.  Merging with an empty record, on either side, gives the other
    record back. *)
Theorem merge_dicts_empty (d : list (string * json)) (model : string) :
  NoDup d.*1 ->
  _merge_dicts d [] model = d /\ _merge_dicts [] d model = d.
Proof.
  intros Hnd. split.
  - rewrite merge_dicts_layout by (done || constructor).
    rewrite filter_nil, app_nil_r. clear.
    induction d as [|[k v] d IH]; [done|]. simpl. by f_equal.
  - rewrite merge_dicts_layout by (done || constructor). simpl.
    clear. induction d as [|kv d IH]; [done|].
    rewrite filter_cons, decide_True by apply not_elem_of_nil. by f_equal.
Qed.

End MergeMore.

(* ===================================================================== *)
(** * More about the incremental add *)
(* ===================================================================== *)

Section AddMore.

Variable evaluate_similarity :
  string -> string -> option (gmap string (gmap string Q)).
Variable thresholds : gmap string (gmap string Q).

Local Abbreviation add_to_cluster :=
  (IncrementalClustering.add_to_cluster evaluate_similarity thresholds).
Local Abbreviation candidates :=
  (IncrementalClustering.candidates evaluate_similarity thresholds).
Local Abbreviation member_of := IncrementalClustering.member_of.
Local Abbreviation intersects := IncrementalClustering.intersects.
Local Abbreviation numeric_ids := IncrementalClustering.numeric_ids.
Local Abbreviation joined := IncrementalClustering.joined.
Local Abbreviation update := IncrementalClustering.update.
Local Abbreviation members := ClustersIndex.members.

(** The three ways in which an add ends: without a write, with an update
    of the last cluster that meets the candidates, or with a new cluster
    at the end of the collection. *)
Lemma add_shape (item_id key : string) (store : list Hit.t) :
  ((add_to_cluster item_id key store).2 = store /\
   (forall cluster_id,
      (add_to_cluster item_id key store).1
      <> IncrementalClustering.AddedToExisting cluster_id) /\
   (forall new_id all_ids,
      (add_to_cluster item_id key store).1
      <> IncrementalClustering.Created new_id all_ids)) \/
  (numeric_ids store /\
   (forall h, h ∈ store -> ~ member_of item_id h) /\
   exists pre c post,
     store = pre ++ c :: post /\
     intersects (candidates item_id key) c /\
     (forall h, h ∈ post -> ~ intersects (candidates item_id key) h) /\
     add_to_cluster item_id key store
     = (IncrementalClustering.AddedToExisting (Hit._id c),
        update (Hit._id c) item_id store)) \/
  (numeric_ids store /\
   (forall h, h ∈ store ->
      ~ member_of item_id h /\ ~ intersects (candidates item_id key) h) /\
   candidates item_id key ≠ ∅ /\
   exists new_id n model_name,
     Py.int new_id = Some n /\
     (forall h, h ∈ store ->
        exists m, Py.int (Hit._id h) = Some m /\ (m < n)%Z) /\
     (store = [] -> new_id = "1") /\
     Py.split "." key !! 1%nat = Some model_name /\
     add_to_cluster item_id key store
     = (IncrementalClustering.Created new_id
          (elements (candidates item_id key ∪ {[item_id]})),
        store ++
        [Hit.mk new_id
           {| ClusterDoc.id := new_id;
              ClusterDoc.key := model_name;
              ClusterDoc.threshold :=
                IncrementalClustering.max_threshold_for thresholds key;
              ClusterDoc.cluster_ids :=
                elements (candidates item_id key ∪ {[item_id]}) |}])).
Proof.
  unfold IncrementalClustering.candidates.
  unfold IncrementalClustering.add_to_cluster.
  destruct (evaluate_similarity item_id key) as [similarity|]; [|by left].
  set (similar_ids := IncrementalClustering.candidate_set _ _).
  destruct (IncrementalClustering.scan item_id similar_ids store None ∅)
    as [|cid|e' ids'] eqn:Hscan; [by left..|].
  apply scan_done in Hscan as (Hnum & Hnomem & Hids & Hlast).
  destruct Hlast as [[-> Hnone] | (pre & c & post & Hstore & Hc & Hpost & ->)].
  - cbn [Py.truthy_str].
    case_bool_decide as Hne; [|by left].
    destruct (1 <? length _)%nat; [|by left].
    destruct (Py.split "." key !! 1%nat) as [model_name|] eqn:Hmodel; [|by left].
    right. right. split; [done|]. split; [by split; auto|]. split; [done|].
    assert (forall h, h ∈ store ->
              exists m, Py.int (Hit._id h) = Some m /\ m ∈ ids') as Hin.
    { intros h Hh. unfold IncrementalClustering.numeric_ids in Hnum.
      rewrite Forall_forall in Hnum. destruct (Hnum h Hh) as [m Hm].
      exists m. split; [done|]. apply Hids. right. by exists h. }
    case_bool_decide as Hempty.
    + exists (Py.str (IncrementalClustering.max_id ids' + 1)),
             (IncrementalClustering.max_id ids' + 1)%Z, model_name.
      split; [apply int_str|]. split.
      { intros h Hh. destruct (Hin h Hh) as (m & Hm & Hmem).
        exists m. split; [done|]. apply max_id_ge in Hmem. lia. }
      split.
      { intros ->. exfalso. apply Hempty. apply leibniz_equiv.
        apply elem_of_equiv_empty. intros m Hm. apply Hids in Hm as [Hm | (h & Hh & _)].
        - by apply not_elem_of_empty in Hm.
        - by apply elem_of_nil in Hh. }
      split; [done|]. f_equal. apply index_fresh. intros h Hh Heq.
      destruct (Hin h Hh) as (m & Hm & Hmem).
      rewrite Heq, int_str in Hm. injection Hm as <-.
      apply max_id_ge in Hmem. lia.
    + exists "1", 1%Z, model_name. split; [reflexivity|].
      assert (store = []) as ->.
      { destruct store as [|h store]; [done|].
        destruct (Hin h) as (m & _ & Hmem); [left|].
        rewrite Hempty in Hmem. by apply not_elem_of_empty in Hmem. }
      split; [intros h Hh; by apply elem_of_nil in Hh|]. done.
  - assert (is_Some (Py.int (Hit._id c))) as [n Hn].
    { unfold IncrementalClustering.numeric_ids in Hnum.
      rewrite Forall_forall in Hnum. apply Hnum.
      rewrite Hstore. apply elem_of_app. right. left. }
    rewrite (int_nonempty _ _ Hn). right. left.
    split; [done|]. split; [done|]. by exists pre, c, post.
Qed.

Lemma update_lookup cluster_id item_id (store : list Hit.t) i h :
  store !! i = Some h ->
  update cluster_id item_id store !! i = Some h \/
  (Hit._id h = cluster_id /\ ~ member_of item_id h /\
   update cluster_id item_id store !! i = Some (joined item_id h)).
Proof.
  intros Hi. unfold IncrementalClustering.update.
  change (map ?f store) with (f <$> store).
  rewrite list_lookup_fmap, Hi. cbn [fmap option_fmap option_map].
  destruct (String.eqb (Hit._id h) cluster_id) eqn:E; [|by left].
  apply String.eqb_eq in E.
  unfold IncrementalClustering.append_if_absent.
  case_bool_decide as Hm.
  - left. by destruct h.
  - right. done.
Qed.

Lemma update_length cluster_id item_id (store : list Hit.t) :
  length (update cluster_id item_id store) = length store.
Proof. unfold IncrementalClustering.update. apply length_map. Qed.

(** X16.  When no record scores at least the max threshold against the
    record (or nothing can be computed for it), the add writes nothing:
    the collection is as it was, and neither a join nor a creation is
    reported. *)
Theorem add_without_candidates_writes_nothing
    (item_id key : string) (store : list Hit.t) :
  candidates item_id key = ∅ ->
  (add_to_cluster item_id key store).2 = store /\
  (forall cluster_id,
     (add_to_cluster item_id key store).1
     <> IncrementalClustering.AddedToExisting cluster_id) /\
  (forall new_id all_ids,
     (add_to_cluster item_id key store).1
     <> IncrementalClustering.Created new_id all_ids).
Proof.
  intros Hempty.
  destruct (add_shape item_id key store)
    as [H | [(_ & _ & pre & c & post & _ & (x & Hx & _) & _) | (_ & _ & Hne & _)]];
    [done | | done].
  rewrite Hempty in Hx. by apply not_elem_of_empty in Hx.
Qed.

(** X17.  An add never removes or reorders anything: every persisted
    cluster stays at its place, as it was or with the record id appended
    to its members, and at most one cluster is added, at the end. *)
Theorem add_keeps_existing_clusters (item_id key : string) (store : list Hit.t) :
  (forall i h, store !! i = Some h ->
     (add_to_cluster item_id key store).2 !! i = Some h \/
     (add_to_cluster item_id key store).2 !! i = Some (joined item_id h)) /\
  (length store <= length (add_to_cluster item_id key store).2 <= S (length store))%nat.
Proof.
  destruct (add_shape item_id key store)
    as [(-> & _) | [(_ & _ & pre & c & post & _ & _ & _ & ->)
                   | (_ & _ & _ & new_id & n & model_name & _ & _ & _ & _ & ->)]];
    cbn [snd].
  - split; [by left | lia].
  - split; [|rewrite update_length; lia].
    intros i h Hi.
    destruct (update_lookup (Hit._id c) item_id store i h Hi) as [H | (_ & _ & H)];
      [by left | by right].
  - split; [|rewrite length_app; simpl; lia].
    intros i h Hi. left. by apply lookup_app_l_Some.
Qed.

(** X18.  The collection changes exactly when the add reports that it
    joined a cluster or created one. *)
Theorem add_changes_collection_iff_reported
    (item_id key : string) (store : list Hit.t) :
  (add_to_cluster item_id key store).2 <> store <->
  (exists cluster_id,
     (add_to_cluster item_id key store).1
     = IncrementalClustering.AddedToExisting cluster_id) \/
  (exists new_id all_ids,
     (add_to_cluster item_id key store).1
     = IncrementalClustering.Created new_id all_ids).
Proof.
  destruct (add_shape item_id key store)
    as [(Heq & Hj & Hc) | [(_ & Hnomem & pre & c & post & Hstore & _ & _ & Hadd)
                          | (_ & _ & _ & new_id & n & model_name & _ & _ & _ & _ & Hadd)]].
  - split; [done|]. intros [[cid H] | (new_id & all_ids & H)];
      [by destruct (Hj cid) | by destruct (Hc new_id all_ids)].
  - rewrite Hadd. cbn [fst snd]. split; [intros _; left; by eexists|].
    intros _ Heq.
    assert (store !! length pre = Some c) as Hi.
    { rewrite Hstore. by apply list_lookup_middle. }
    assert (~ member_of item_id c) as Hnm.
    { apply Hnomem. rewrite Hstore. apply elem_of_app. right. left. }
    unfold IncrementalClustering.update in Heq.
    change (map ?f store) with (f <$> store) in Heq.
    apply (f_equal (fun l => l !! length pre)) in Heq.
    rewrite list_lookup_fmap, Hi in Heq. cbn in Heq.
    rewrite String.eqb_refl in Heq.
    unfold IncrementalClustering.append_if_absent in Heq.
    rewrite bool_decide_eq_false_2 in Heq by done.
    injection Heq as Heq. apply (f_equal (fun h => length (ClusterDoc.cluster_ids
                                                    (Hit._source h)))) in Heq.
    cbn in Heq. rewrite length_app in Heq. simpl in Heq. lia.
  - rewrite Hadd. cbn [fst snd]. split; [intros _; right; by eexists _, _|].
    intros _ Heq. apply (f_equal length) in Heq.
    rewrite length_app in Heq. simpl in Heq. lia.
Qed.

Lemma update_ids cluster_id item_id (store : list Hit.t) :
  Hit._id <$> update cluster_id item_id store = Hit._id <$> store.
Proof.
  induction store as [|h store IH]; [done|]. cbn. f_equal; [|done].
  by destruct (String.eqb (Hit._id h) cluster_id).
Qed.

(** X19.  The ids of the clusters index stay decimal numerals, and stay
    distinct, over an add: an update keeps every id, and a created cluster
    gets an id that no cluster has. *)
Theorem add_keeps_ids_numeric_and_distinct
    (item_id key : string) (store : list Hit.t) :
  numeric_ids store ->
  NoDup (Hit._id <$> store) ->
  numeric_ids (add_to_cluster item_id key store).2 /\
  NoDup (Hit._id <$> (add_to_cluster item_id key store).2).
Proof.
  intros Hnum Hnd.
  destruct (add_shape item_id key store)
    as [(-> & _) | [(_ & _ & pre & c & post & _ & _ & _ & ->)
                   | (_ & _ & _ & new_id & n & model_name & Hn & Hlt & _ & _ & ->)]];
    cbn [snd]; [done | |].
  - split; [|by rewrite update_ids].
    unfold IncrementalClustering.numeric_ids in *.
    rewrite <- (Forall_fmap Hit._id (fun s => is_Some (Py.int s))) in Hnum |- *.
    by rewrite update_ids.
  - split.
    + unfold IncrementalClustering.numeric_ids. apply Forall_app.
      split; [done|]. constructor; [by exists n | constructor].
    + rewrite fmap_app. apply NoDup_app. split; [done|]. split.
      * intros x Hx Hin. apply list_elem_of_singleton in Hin as ->.
        apply list_elem_of_fmap in Hx as (h & Heq & Hh).
        destruct (Hlt h Hh) as (m & Hm & Hlm). cbn in Heq.
        rewrite <- Heq, Hn in Hm. injection Hm as <-. lia.
      * apply NoDup_singleton.
Qed.

(** X20.  When the cluster ids are distinct and no record is in two
    clusters (or twice in one), this is still so after an add: the record
    is appended to one cluster only, and only when no cluster holds it; a
    created cluster holds only records that no cluster held. *)
Theorem add_keeps_clusters_disjoint (item_id key : string) (store : list Hit.t) :
  NoDup (Hit._id <$> store) ->
  NoDup (members store) ->
  NoDup (members (add_to_cluster item_id key store).2).
Proof.
  intros Hids Hnd.
  destruct (add_shape item_id key store)
    as [(-> & _) | [(_ & Hnomem & pre & c & post & Hstore & _ & _ & ->)
                   | (_ & Hapart & _ & new_id & n & model_name & _ & _ & _ & _ & ->)]];
    cbn [snd]; [done | |].
  - assert (item_id ∉ members store) as Hfresh.
    { unfold ClustersIndex.members. intros Hin.
      apply elem_of_concat in Hin as (l & Hin & Hl).
      apply list_elem_of_fmap in Hl as (h & -> & Hh). by apply (Hnomem h). }
    rewrite Hstore in Hids, Hnd, Hfresh |- *.
    rewrite update_unique; [|done|].
    2:{ apply Hnomem. rewrite Hstore. apply elem_of_app. right. left. }
    unfold ClustersIndex.members in *.
    rewrite fmap_app, fmap_cons, concat_app, concat_cons in Hnd, Hfresh |- *.
    cbn [IncrementalClustering.joined Hit._source ClusterDoc.cluster_ids].
    set (a := concat (_ <$> pre)) in *. set (b := concat (_ <$> post)) in *.
    set (m := ClusterDoc.cluster_ids _) in *.
    assert ((a ++ (m ++ [item_id]) ++ b) ≡ₚ item_id :: (a ++ m ++ b)) as ->.
    { rewrite <- (app_assoc m [item_id] b). cbn [app].
      rewrite (app_assoc a m (item_id :: b)), <- Permutation_middle.
      by rewrite <- app_assoc. }
    by constructor.
  - unfold ClustersIndex.members in *.
    rewrite fmap_app, concat_app. cbn [fmap list_fmap concat Hit._source
                                        ClusterDoc.cluster_ids].
    rewrite app_nil_r. apply NoDup_app. split; [done|]. split.
    + intros x Hx Hin. apply elem_of_concat in Hx as (l & Hx & Hl).
      apply list_elem_of_fmap in Hl as (h & -> & Hh).
      destruct (Hapart h Hh) as [Hnm Hni].
      apply elem_of_elements, elem_of_union in Hin as [Hin | Hin].
      * apply Hni. by exists x.
      * apply elem_of_singleton in Hin as ->. by apply Hnm.
    + apply NoDup_elements.
Qed.

(** X21.  After an add that reports a join or a creation, the record is
    in a cluster of the collection, so that the next add of the same
    record writes nothing; a created cluster holds the record and every
    candidate, under the numeral after the largest cluster id, or under 1
    in an empty collection. *)
Theorem add_then_record_is_clustered (item_id key : string) (store : list Hit.t) :
  (add_to_cluster item_id key store).2 <> store ->
  (exists h, h ∈ (add_to_cluster item_id key store).2 /\ member_of item_id h) /\
  (forall new_id all_ids,
     (add_to_cluster item_id key store).1
     = IncrementalClustering.Created new_id all_ids ->
     last (add_to_cluster item_id key store).2
     = Some (Hit.mk new_id
               {| ClusterDoc.id := new_id;
                  ClusterDoc.key := default "" (Py.split "." key !! 1%nat);
                  ClusterDoc.threshold :=
                    IncrementalClustering.max_threshold_for thresholds key;
                  ClusterDoc.cluster_ids := all_ids |}) /\
     (forall x, x ∈ all_ids <-> x = item_id \/ x ∈ candidates item_id key) /\
     (store = [] -> new_id = "1") /\
     exists n, Py.int new_id = Some n /\
       forall h, h ∈ store -> exists m, Py.int (Hit._id h) = Some m /\ (m < n)%Z).
Proof.
  intros Hchanged.
  destruct (add_shape item_id key store)
    as [(Heq & _) | [(_ & _ & pre & c & post & Hstore & _ & _ & Hadd)
                    | (_ & _ & _ & new_id & n & model_name
                       & Hn & Hlt & Hone & Hmodel & Hadd)]];
    [done | |]; rewrite Hadd; cbn [fst snd].
  - split; [|done].
    apply (update_member _ _ _ c); [|done].
    rewrite Hstore. apply elem_of_app. right. left.
  - split.
    + eexists. split; [apply elem_of_app; right; left|].
      unfold IncrementalClustering.member_of. cbn.
      apply elem_of_elements, elem_of_union. right. by apply elem_of_singleton.
    + intros new_id' all_ids [= <- <-]. rewrite last_snoc, Hmodel. cbn [default].
      split; [done|]. split.
      { intros x. rewrite elem_of_elements, elem_of_union, elem_of_singleton. tauto. }
      split; [done|]. by exists n.
Qed.

End AddMore.

(** ** The scenarios of the add *)

Lemma y_has_no_candidate :
  IncrementalClustering.candidates Cases.loose_similarity
    Scenario.default_thresholds "y" "question.bge_search_vector" = ∅.
Proof. apply (bool_decide_unpack _). vm_compute. exact I. Qed.

Lemma add_without_candidates_writes_nothing_witness :
  IncrementalClustering.candidates Cases.loose_similarity
    Scenario.default_thresholds "y" "question.bge_search_vector" = ∅ /\
  (IncrementalClustering.add_to_cluster Cases.loose_similarity
     Scenario.default_thresholds "y" "question.bge_search_vector"
     Scenario.two_clusters).2 = Scenario.two_clusters.
Proof.
  split; [exact y_has_no_candidate|].
  exact (proj1 (add_without_candidates_writes_nothing Cases.loose_similarity
                  Scenario.default_thresholds "y" "question.bge_search_vector"
                  Scenario.two_clusters y_has_no_candidate)).
Defined.

Lemma add_keeps_ids_numeric_and_distinct_witness :
  IncrementalClustering.numeric_ids Scenario.two_clusters /\
  NoDup (Hit._id <$> Scenario.two_clusters) /\
  IncrementalClustering.numeric_ids
    (IncrementalClustering.add_to_cluster Scenario.near_similarity
       Scenario.default_thresholds "x" "question.bge_search_vector"
       Scenario.two_clusters).2 /\
  NoDup (Hit._id <$>
         (IncrementalClustering.add_to_cluster Scenario.near_similarity
            Scenario.default_thresholds "x" "question.bge_search_vector"
            Scenario.two_clusters).2).
Proof.
  split; [exact two_clusters_numeric|].
  split; [exact two_clusters_distinct|].
  exact (add_keeps_ids_numeric_and_distinct Scenario.near_similarity
           Scenario.default_thresholds "x" "question.bge_search_vector"
           Scenario.two_clusters two_clusters_numeric two_clusters_distinct).
Defined.

Lemma two_clusters_disjoint : NoDup (ClustersIndex.members Scenario.two_clusters).
Proof. apply (bool_decide_unpack _). vm_compute. exact I. Qed.

Lemma add_keeps_clusters_disjoint_witness :
  NoDup (Hit._id <$> Scenario.two_clusters) /\
  NoDup (ClustersIndex.members Scenario.two_clusters) /\
  NoDup (ClustersIndex.members
           (IncrementalClustering.add_to_cluster Scenario.near_similarity
              Scenario.default_thresholds "x" "question.bge_search_vector"
              Scenario.two_clusters).2).
Proof.
  split; [exact two_clusters_distinct|].
  split; [exact two_clusters_disjoint|].
  exact (add_keeps_clusters_disjoint Scenario.near_similarity
           Scenario.default_thresholds "x" "question.bge_search_vector"
           Scenario.two_clusters two_clusters_distinct two_clusters_disjoint).
Defined.

Lemma add_to_far_cluster_writes :
  (IncrementalClustering.add_to_cluster Scenario.near_similarity
     Scenario.default_thresholds "x" "question.bge_search_vector"
     Scenario.far_cluster).2 <> Scenario.far_cluster.
Proof. rewrite add_x_to_far_cluster. discriminate. Qed.

Lemma add_then_record_is_clustered_witness :
  (IncrementalClustering.add_to_cluster Scenario.near_similarity
     Scenario.default_thresholds "x" "question.bge_search_vector"
     Scenario.far_cluster).2 <> Scenario.far_cluster /\
  exists h,
    h ∈ (IncrementalClustering.add_to_cluster Scenario.near_similarity
           Scenario.default_thresholds "x" "question.bge_search_vector"
           Scenario.far_cluster).2 /\
    IncrementalClustering.member_of "x" h.
Proof.
  split; [exact add_to_far_cluster_writes|].
  exact (proj1 (add_then_record_is_clustered Scenario.near_similarity
                  Scenario.default_thresholds "x" "question.bge_search_vector"
                  Scenario.far_cluster add_to_far_cluster_writes)).
Defined.

(** ** The scenarios of the merge *)

Lemma base_record_keys : NoDup Cases.base_record.*1.
Proof. apply (bool_decide_unpack _). vm_compute. exact I. Qed.

Lemma other_record_keys : NoDup Cases.other_record.*1.
Proof. apply (bool_decide_unpack _). vm_compute. exact I. Qed.

Example merge_base_with_other :
  CosineClusters._merge_dicts Scenario.no_merger ["question"]
    Cases.base_record Cases.other_record "gemma"
  = [("question", JStr "q1");
     ("answer", JList [JStr "x"; JStr "y"; JStr "z"]);
     ("source", JStr "s")].
Proof. vm_compute. reflexivity. Qed.

Lemma merge_dicts_keys_witness :
  NoDup Cases.base_record.*1 /\ NoDup Cases.other_record.*1 /\
  (CosineClusters._merge_dicts Scenario.no_merger ["question"]
     Cases.base_record Cases.other_record "gemma").*1
  = Cases.base_record.*1
    ++ filter (fun k => k ∉ Cases.base_record.*1) Cases.other_record.*1.
Proof.
  split; [exact base_record_keys|]. split; [exact other_record_keys|].
  exact (proj1 (merge_dicts_keys Scenario.no_merger ["question"]
                  Cases.base_record Cases.other_record "gemma"
                  base_record_keys other_record_keys)).
Defined.

Lemma merge_dicts_lookup_witness :
  NoDup Cases.base_record.*1 /\ NoDup Cases.other_record.*1 /\
  Dict.get String.eqb
    (CosineClusters._merge_dicts Scenario.no_merger ["question"]
       Cases.base_record Cases.other_record "gemma") "answer"
  = Some (JList [JStr "x"; JStr "y"; JStr "z"]).
Proof.
  split; [exact base_record_keys|]. split; [exact other_record_keys|].
  exact (merge_dicts_lookup Scenario.no_merger ["question"]
           Cases.base_record Cases.other_record "gemma" "answer"
           base_record_keys other_record_keys).
Defined.

Lemma merge_dicts_empty_witness :
  NoDup Cases.base_record.*1 /\
  CosineClusters._merge_dicts Scenario.no_merger ["question"]
    Cases.base_record [] "gemma" = Cases.base_record /\
  CosineClusters._merge_dicts Scenario.no_merger ["question"]
    [] Cases.base_record "gemma" = Cases.base_record.
Proof.
  split; [exact base_record_keys|].
  exact (merge_dicts_empty Scenario.no_merger ["question"]
           Cases.base_record "gemma" base_record_keys).
Defined.

(* ===================================================================== *)
(** * More about the diff of snapshots *)
(* ===================================================================== *)

Section SortedKeys.

(** Sorted by key, a key possibly more than once. *)
Local Abbreviation key_sorted :=
  (StronglySorted (fun a b : string * json => String.leb a.1 b.1 = true)).

Lemma insert_item_key_sorted x l :
  key_sorted l -> key_sorted (Json.insert_item x l).
Proof.
  induction 1 as [|y l Hl IH Hy]; simpl; [repeat constructor|].
  unfold Json.key_le. destruct (String.leb x.1 y.1) eqn:E.
  - constructor; [by constructor|]. constructor; [done|].
    rewrite Forall_forall in Hy |- *. intros z Hz. eapply leb_trans; [exact E|].
    by apply Hy.
  - constructor; [done|].
    rewrite Forall_forall in Hy |- *. intros z Hz.
    rewrite insert_item_perm in Hz. apply elem_of_cons in Hz as [-> | Hz]; [|by apply Hy].
    destruct (String.leb_total x.1 y.1) as [H | H]; [congruence | done].
Qed.

Lemma sort_items_key_sorted l : key_sorted (Json.sort_items l).
Proof.
  induction l as [|x l IH]; [constructor|].
  change (Json.sort_items (x :: l)) with (Json.insert_item x (Json.sort_items l)).
  by apply insert_item_key_sorted.
Qed.

Lemma sort_items_of_sorted l : key_sorted l -> Json.sort_items l = l.
Proof.
  induction 1 as [|x l Hl IH Hx]; [done|].
  change (Json.sort_items (x :: l)) with (Json.insert_item x (Json.sort_items l)).
  rewrite IH. destruct l as [|y l]; [done|]. simpl. unfold Json.key_le.
  apply Forall_cons in Hx as [-> _]. done.
Qed.

Lemma insert_item_map (g : json -> json) x l :
  Json.insert_item (x.1, g x.2) (map (fun kv => (kv.1, g kv.2)) l)
  = map (fun kv => (kv.1, g kv.2)) (Json.insert_item x l).
Proof.
  induction l as [|y l IH]; [done|]. simpl. unfold Json.key_le. cbn [fst].
  destruct (String.leb x.1 y.1); [done|]. simpl. by rewrite IH.
Qed.

Lemma sort_items_map (g : json -> json) l :
  Json.sort_items (map (fun kv => (kv.1, g kv.2)) l)
  = map (fun kv => (kv.1, g kv.2)) (Json.sort_items l).
Proof.
  induction l as [|x l IH]; [done|].
  change (Json.sort_items (x :: l)) with (Json.insert_item x (Json.sort_items l)).
  rewrite <- insert_item_map, <- IH. done.
Qed.

(** X22.  The serialization under sorted keys is a canonical form: the
    value that the diff reads back from a serialized cluster serializes to
    the same text again, so that a diff output fed to another diff is
    compared as it stands. *)
Theorem dumps_sorted_idempotent (v : json) :
  Json.dumps_sorted (Json.loads (Json.dumps_sorted v)) = Json.dumps_sorted v.
Proof.
  unfold Json.loads.
  induction v as [| x | x | x | x | l IHl | d IHd] using json_nested_ind;
    try done.
  - simpl. f_equal. rewrite map_map.
    induction IHl as [|x l Hx _ IH]; [done|]. simpl. by rewrite Hx, IH.
  - cbn [Json.dumps_sorted]. f_equal.
    rewrite <- (sort_items_map Json.dumps_sorted).
    rewrite sort_items_of_sorted by apply sort_items_key_sorted.
    f_equal. rewrite map_map. cbn [fst snd].
    induction IHd as [|[k x] d Hx _ IH]; [done|]. simpl in *. by rewrite Hx, IH.
Qed.

(** X23.  Two clusters whose members are, one by one, objects with the
    same fields in any order of keys have the same serialization: the
    diff takes them for the same cluster. *)
Theorem same_dump_ignores_key_order_of_members (l l' : list json) :
  Forall2 (fun m m' =>
             exists d d', m = JDict d /\ m' = JDict d' /\ d ≡ₚ d' /\ NoDup d.*1)
          l l' ->
  DiffOperations.same_dump (JList l) (JList l').
Proof.
  intros Hall. unfold DiffOperations.same_dump. cbn [Json.dumps_sorted]. f_equal.
  induction Hall as [|m m' l l' (d & d' & -> & -> & Hperm & Hnd) _ IH]; [done|].
  cbn [map]. f_equal; [|done].
  by apply same_dump_ignores_key_order.
Qed.

End SortedKeys.

Section DiffMore.

Variable load : string -> list (string * json).

Local Abbreviation compare_clusters := (DiffOperations.compare_clusters load).
Local Abbreviation output_cluster := DiffOperations.output_cluster.
Local Abbreviation cluster_at := (DiffOperations.cluster_at load).
Local Abbreviation located := DiffOperations.located.
Local Abbreviation locations_of := DiffOperations.locations_of.

(** An entry of the output is a cluster of the input, found once. *)
Lemma output_entry_found_once (input_files : list string) (f key : string) (v : json) :
  output_cluster (compare_clusters input_files) f key = Some v ->
  exists value,
    cluster_at input_files f key value /\
    v = Json.dumps_sorted value /\
    forall f' key' value',
      cluster_at input_files f' key' value' ->
      DiffOperations.same_dump value' value ->
      (f', key') = (f, key).
Proof.
  unfold DiffOperations.compare_clusters, DiffOperations.keep_unique.
  intros Hv. apply keeps_Some in Hv as [Hv | Hv]; [done|].
  apply cluster_map_elem in Hv as [_ Hv].
  assert ((f, key) ∈ locations_of v (located (DiffOperations.read_all load input_files)))
    as Hin by (rewrite <- Hv; left).
  apply locations_of_elem in Hin.
  apply located_read_all in Hin as (f0 & key0 & value & Hat & [= <- <- ->]).
  exists value. split; [done|]. split; [done|].
  intros f' key' value' Hat' Hsame.
  assert ((f', key') ∈ locations_of (Json.dumps_sorted value)
                         (located (DiffOperations.read_all load input_files))) as Hin.
  { apply locations_of_elem. rewrite <- Hsame. apply located_read_all.
    by exists f', key', value'. }
  rewrite <- Hv in Hin. by apply list_elem_of_singleton in Hin.
Qed.

(** A cluster of the input that is found once is an entry of the output. *)
Lemma found_once_output_entry (input_files : list string) (f key : string) (value : json) :
  (forall g, NoDup (load g).*1) ->
  cluster_at input_files f key value ->
  (forall f' key' value',
     cluster_at input_files f' key' value' ->
     DiffOperations.same_dump value' value ->
     (f', key') = (f, key)) ->
  output_cluster (compare_clusters input_files) f key
  = Some (Json.dumps_sorted value).
Proof.
  intros Hload Hat Hall.
  assert (is_Some (output_cluster (compare_clusters input_files) f key)) as [v Hv].
  { unfold DiffOperations.compare_clusters, DiffOperations.keep_unique.
    apply keeps_is_Some. right. exists (Json.dumps_sorted value).
    apply cluster_map_elem.
    assert (locations_of (Json.dumps_sorted value)
              (located (DiffOperations.read_all load input_files))
            = [(f, key)]) as ->; [|done].
    apply only_element.
    - apply locations_of_NoDup. by apply located_read_all_NoDup.
    - intros [f' key'] Hin. apply locations_of_elem in Hin.
      apply located_read_all in Hin as (f2 & k2 & v2 & Hat2 & [= -> -> Hd]).
      by apply (Hall f2 k2 v2).
    - apply locations_of_elem. apply located_read_all. by exists f, key, value. }
  rewrite Hv. f_equal.
  apply output_entry_found_once in Hv as (value' & [_ Hat'] & -> & _).
  destruct Hat as [_ Hat]. f_equal.
  by apply (NoDup_fst_functional _ _ (load f) key value' value).
Qed.

(** X24.  The diff reports nothing that is not there: an entry of the
    output, under a snapshot and a label, is the canonical form of the
    cluster that this snapshot holds under this label, and no other
    (snapshot, label) pair of the input holds a cluster with the same
    serialization. *)
Theorem diff_output_comes_from_input
    (input_files : list string) (f key : string) (v : json) :
  output_cluster (compare_clusters input_files) f key = Some v ->
  f ∈ input_files /\
  exists value,
    (key, value) ∈ load f /\
    v = Json.dumps_sorted value /\
    forall f' key' value',
      cluster_at input_files f' key' value' ->
      DiffOperations.same_dump value' value ->
      (f', key') = (f, key).
Proof.
  intros Hv. apply output_entry_found_once in Hv as (value & [Hf Hkv] & -> & Hall).
  split; [done|]. by exists value.
Qed.

(** X25.  The diff depends on which snapshots are given, not on their
    order nor on how often each is given: two lists of the same files give
    the same cluster under every snapshot and label. *)
Theorem diff_ignores_order_and_repeats_of_files
    (input_files input_files' : list string) :
  (forall g, NoDup (load g).*1) ->
  (forall f, f ∈ input_files <-> f ∈ input_files') ->
  forall f key,
    output_cluster (compare_clusters input_files) f key
    = output_cluster (compare_clusters input_files') f key.
Proof.
  intros Hload Hsame f key.
  assert (forall l l' : list string,
            (forall f, f ∈ l <-> f ∈ l') ->
            forall v, output_cluster (compare_clusters l) f key = Some v ->
                      output_cluster (compare_clusters l') f key = Some v) as Hone.
  { intros l l' Hll v Hv.
    apply output_entry_found_once in Hv as (value & [Hf Hkv] & -> & Hall).
    apply found_once_output_entry; [done | |].
    - split; [by apply Hll | done].
    - intros f' key' value' [Hf' Hkv'] Hd. apply (Hall f' key' value'); [|done].
      split; [by apply Hll | done]. }
  apply option_eq. intros v. split; apply Hone; [done|].
  intros g. by rewrite Hsame.
Qed.

End DiffMore.

Lemma same_dump_ignores_key_order_of_members_witness :
  Forall2 (fun m m' =>
             exists d d', m = JDict d /\ m' = JDict d' /\ d ≡ₚ d' /\ NoDup d.*1)
          [Scenario.member_a; Scenario.member_b]
          [Scenario.member_a; Scenario.member_b'] /\
  DiffOperations.same_dump
    (JList [Scenario.member_a; Scenario.member_b])
    (JList [Scenario.member_a; Scenario.member_b']).
Proof.
  assert (Forall2 (fun m m' =>
             exists d d', m = JDict d /\ m' = JDict d' /\ d ≡ₚ d' /\ NoDup d.*1)
          [Scenario.member_a; Scenario.member_b]
          [Scenario.member_a; Scenario.member_b']) as Hall.
  { constructor; [|constructor; [|constructor]].
    - eexists _, _. split; [reflexivity|]. split; [reflexivity|]. split; [done|].
      apply (bool_decide_unpack _). vm_compute. exact I.
    - eexists _, _. split; [reflexivity|]. split; [reflexivity|].
      split; [apply perm_swap|].
      apply (bool_decide_unpack _). vm_compute. exact I. }
  split; [exact Hall|].
  exact (same_dump_ignores_key_order_of_members _ _ Hall).
Defined.

Lemma first_snapshot_is_reported :
  DiffOperations.output_cluster
    (DiffOperations.compare_clusters Scenario.snapshots ["s1.json"; "s2.json"])
    "s1.json" "clusters_1"
  = Some (JList [Scenario.member_a; Scenario.member_b]).
Proof. vm_compute. reflexivity. Qed.

Lemma diff_output_comes_from_input_witness :
  DiffOperations.output_cluster
    (DiffOperations.compare_clusters Scenario.snapshots ["s1.json"; "s2.json"])
    "s1.json" "clusters_1"
  = Some (JList [Scenario.member_a; Scenario.member_b]) /\
  "s1.json" ∈ ["s1.json"; "s2.json"].
Proof.
  split; [exact first_snapshot_is_reported|].
  exact (proj1 (diff_output_comes_from_input Scenario.snapshots
                  ["s1.json"; "s2.json"] "s1.json" "clusters_1" _
                  first_snapshot_is_reported)).
Defined.

Lemma same_files_in_another_order f :
  f ∈ ["s1.json"; "s2.json"] <-> f ∈ ["s2.json"; "s1.json"; "s2.json"].
Proof. rewrite !elem_of_cons. tauto. Qed.

Lemma diff_ignores_order_and_repeats_of_files_witness :
  (forall g, NoDup (Scenario.snapshots g).*1) /\
  (forall f, f ∈ ["s1.json"; "s2.json"] <-> f ∈ ["s2.json"; "s1.json"; "s2.json"]) /\
  DiffOperations.output_cluster
    (DiffOperations.compare_clusters Scenario.snapshots ["s1.json"; "s2.json"])
    "s2.json" "clusters_1"
  = DiffOperations.output_cluster
      (DiffOperations.compare_clusters Scenario.snapshots
         ["s2.json"; "s1.json"; "s2.json"])
      "s2.json" "clusters_1".
Proof.
  split; [exact snapshots_have_distinct_labels|].
  split; [exact same_files_in_another_order|].
  exact (diff_ignores_order_and_repeats_of_files Scenario.snapshots
           ["s1.json"; "s2.json"] ["s2.json"; "s1.json"; "s2.json"]
           snapshots_have_distinct_labels same_files_in_another_order
           "s2.json" "clusters_1").
Defined.
